(** * Document intelligence backend: text and field extraction

    A shallow embedding of the extraction core of [Backend/main.py]:
    [extract_fields] (four [re.search] rules), [ocr_image_bytes],
    [extract_text_from_pdf] and the text-extraction part of [upload].

    Python [str] values are sequences of Unicode code points and are
    modelled as [list N]; the regular expressions are kept as syntax
    trees and run by a backtracking matcher that follows the search
    order of Python's [re] module (leftmost start, ordered alternation,
    greedy repetition).  The OCR engine, the PDF reader and the
    rasteriser are collaborators of the program: they are functions
    supplied by a [Backends] record, every call to them is logged, and
    a call may raise. *)

From Stdlib Require Import String Ascii.
From Stdlib Require Import List NArith Arith Bool Lia.
Import ListNotations.

Set Implicit Arguments.

(** ** Python strings *)

Module PyStr.

(** A [str] is a list of code points. *)
Definition str := list N.

(** ASCII literals of the source are written as Rocq strings. *)
Definition py (s : string) : str := map N_of_ascii (list_ascii_of_string s).

(** Tables of code points are lists of inclusive ranges. *)
Definition in_range (c : N) (r : N * N) : bool :=
  (N.leb (fst r) c && N.leb c (snd r))%bool.

Definition in_ranges (t : list (N * N)) (c : N) : bool := existsb (in_range c) t.

(** No range of [t1] meets a range of [t2]. *)
Definition ranges_apart (t1 t2 : list (N * N)) : bool :=
  forallb (fun r => forallb (fun r' =>
    (N.ltb (snd r) (fst r') || N.ltb (snd r') (fst r))%bool) t2) t1.

(** [str.isspace] on one code point, which is also the class [\s] of a
    [str] pattern and the set removed by [str.strip()]. *)
Definition space_ranges : list (N * N) := [
  (0x9, 0xD); (0x1C, 0x20); (0x85, 0x85); (0xA0, 0xA0); (0x1680, 0x1680); (0x2000, 0x200A);
  (0x2028, 0x2029); (0x202F, 0x202F); (0x205F, 0x205F); (0x3000, 0x3000) ]%N.

Definition isspace : N -> bool := in_ranges space_ranges.

(** [str.isdecimal] on one code point (general category Nd), the class
    [\d] of a [str] pattern.  Table of Unicode 14.0, the version of
    CPython 3.11. *)
Definition decimal_ranges : list (N * N) := [
  (0x30, 0x39); (0x660, 0x669); (0x6F0, 0x6F9); (0x7C0, 0x7C9); (0x966, 0x96F); (0x9E6, 0x9EF);
  (0xA66, 0xA6F); (0xAE6, 0xAEF); (0xB66, 0xB6F); (0xBE6, 0xBEF); (0xC66, 0xC6F); (0xCE6, 0xCEF);
  (0xD66, 0xD6F); (0xDE6, 0xDEF); (0xE50, 0xE59); (0xED0, 0xED9); (0xF20, 0xF29); (0x1040, 0x1049);
  (0x1090, 0x1099); (0x17E0, 0x17E9); (0x1810, 0x1819); (0x1946, 0x194F); (0x19D0, 0x19D9); (0x1A80, 0x1A89);
  (0x1A90, 0x1A99); (0x1B50, 0x1B59); (0x1BB0, 0x1BB9); (0x1C40, 0x1C49); (0x1C50, 0x1C59); (0xA620, 0xA629);
  (0xA8D0, 0xA8D9); (0xA900, 0xA909); (0xA9D0, 0xA9D9); (0xA9F0, 0xA9F9); (0xAA50, 0xAA59); (0xABF0, 0xABF9);
  (0xFF10, 0xFF19); (0x104A0, 0x104A9); (0x10D30, 0x10D39); (0x11066, 0x1106F); (0x110F0, 0x110F9); (0x11136, 0x1113F);
  (0x111D0, 0x111D9); (0x112F0, 0x112F9); (0x11450, 0x11459); (0x114D0, 0x114D9); (0x11650, 0x11659); (0x116C0, 0x116C9);
  (0x11730, 0x11739); (0x118E0, 0x118E9); (0x11950, 0x11959); (0x11C50, 0x11C59); (0x11D50, 0x11D59); (0x11DA0, 0x11DA9);
  (0x16A60, 0x16A69); (0x16AC0, 0x16AC9); (0x16B50, 0x16B59); (0x1D7CE, 0x1D7FF); (0x1E140, 0x1E149); (0x1E2F0, 0x1E2F9);
  (0x1E950, 0x1E959); (0x1FBF0, 0x1FBF9) ]%N.

Definition isdecimal : N -> bool := in_ranges decimal_ranges.

(** [str.isalnum] on one code point; with the underscore it is the
    class [\w] that decides [\b].  Table of Unicode 14.0. *)
Definition alnum_ranges : list (N * N) := [
  (0x30, 0x39); (0x41, 0x5A); (0x61, 0x7A); (0xAA, 0xAA); (0xB2, 0xB3); (0xB5, 0xB5);
  (0xB9, 0xBA); (0xBC, 0xBE); (0xC0, 0xD6); (0xD8, 0xF6); (0xF8, 0x2C1); (0x2C6, 0x2D1);
  (0x2E0, 0x2E4); (0x2EC, 0x2EC); (0x2EE, 0x2EE); (0x370, 0x374); (0x376, 0x377); (0x37A, 0x37D);
  (0x37F, 0x37F); (0x386, 0x386); (0x388, 0x38A); (0x38C, 0x38C); (0x38E, 0x3A1); (0x3A3, 0x3F5);
  (0x3F7, 0x481); (0x48A, 0x52F); (0x531, 0x556); (0x559, 0x559); (0x560, 0x588); (0x5D0, 0x5EA);
  (0x5EF, 0x5F2); (0x620, 0x64A); (0x660, 0x669); (0x66E, 0x66F); (0x671, 0x6D3); (0x6D5, 0x6D5);
  (0x6E5, 0x6E6); (0x6EE, 0x6FC); (0x6FF, 0x6FF); (0x710, 0x710); (0x712, 0x72F); (0x74D, 0x7A5);
  (0x7B1, 0x7B1); (0x7C0, 0x7EA); (0x7F4, 0x7F5); (0x7FA, 0x7FA); (0x800, 0x815); (0x81A, 0x81A);
  (0x824, 0x824); (0x828, 0x828); (0x840, 0x858); (0x860, 0x86A); (0x870, 0x887); (0x889, 0x88E);
  (0x8A0, 0x8C9); (0x904, 0x939); (0x93D, 0x93D); (0x950, 0x950); (0x958, 0x961); (0x966, 0x96F);
  (0x971, 0x980); (0x985, 0x98C); (0x98F, 0x990); (0x993, 0x9A8); (0x9AA, 0x9B0); (0x9B2, 0x9B2);
  (0x9B6, 0x9B9); (0x9BD, 0x9BD); (0x9CE, 0x9CE); (0x9DC, 0x9DD); (0x9DF, 0x9E1); (0x9E6, 0x9F1);
  (0x9F4, 0x9F9); (0x9FC, 0x9FC); (0xA05, 0xA0A); (0xA0F, 0xA10); (0xA13, 0xA28); (0xA2A, 0xA30);
  (0xA32, 0xA33); (0xA35, 0xA36); (0xA38, 0xA39); (0xA59, 0xA5C); (0xA5E, 0xA5E); (0xA66, 0xA6F);
  (0xA72, 0xA74); (0xA85, 0xA8D); (0xA8F, 0xA91); (0xA93, 0xAA8); (0xAAA, 0xAB0); (0xAB2, 0xAB3);
  (0xAB5, 0xAB9); (0xABD, 0xABD); (0xAD0, 0xAD0); (0xAE0, 0xAE1); (0xAE6, 0xAEF); (0xAF9, 0xAF9);
  (0xB05, 0xB0C); (0xB0F, 0xB10); (0xB13, 0xB28); (0xB2A, 0xB30); (0xB32, 0xB33); (0xB35, 0xB39);
  (0xB3D, 0xB3D); (0xB5C, 0xB5D); (0xB5F, 0xB61); (0xB66, 0xB6F); (0xB71, 0xB77); (0xB83, 0xB83);
  (0xB85, 0xB8A); (0xB8E, 0xB90); (0xB92, 0xB95); (0xB99, 0xB9A); (0xB9C, 0xB9C); (0xB9E, 0xB9F);
  (0xBA3, 0xBA4); (0xBA8, 0xBAA); (0xBAE, 0xBB9); (0xBD0, 0xBD0); (0xBE6, 0xBF2); (0xC05, 0xC0C);
  (0xC0E, 0xC10); (0xC12, 0xC28); (0xC2A, 0xC39); (0xC3D, 0xC3D); (0xC58, 0xC5A); (0xC5D, 0xC5D);
  (0xC60, 0xC61); (0xC66, 0xC6F); (0xC78, 0xC7E); (0xC80, 0xC80); (0xC85, 0xC8C); (0xC8E, 0xC90);
  (0xC92, 0xCA8); (0xCAA, 0xCB3); (0xCB5, 0xCB9); (0xCBD, 0xCBD); (0xCDD, 0xCDE); (0xCE0, 0xCE1);
  (0xCE6, 0xCEF); (0xCF1, 0xCF2); (0xD04, 0xD0C); (0xD0E, 0xD10); (0xD12, 0xD3A); (0xD3D, 0xD3D);
  (0xD4E, 0xD4E); (0xD54, 0xD56); (0xD58, 0xD61); (0xD66, 0xD78); (0xD7A, 0xD7F); (0xD85, 0xD96);
  (0xD9A, 0xDB1); (0xDB3, 0xDBB); (0xDBD, 0xDBD); (0xDC0, 0xDC6); (0xDE6, 0xDEF); (0xE01, 0xE30);
  (0xE32, 0xE33); (0xE40, 0xE46); (0xE50, 0xE59); (0xE81, 0xE82); (0xE84, 0xE84); (0xE86, 0xE8A);
  (0xE8C, 0xEA3); (0xEA5, 0xEA5); (0xEA7, 0xEB0); (0xEB2, 0xEB3); (0xEBD, 0xEBD); (0xEC0, 0xEC4);
  (0xEC6, 0xEC6); (0xED0, 0xED9); (0xEDC, 0xEDF); (0xF00, 0xF00); (0xF20, 0xF33); (0xF40, 0xF47);
  (0xF49, 0xF6C); (0xF88, 0xF8C); (0x1000, 0x102A); (0x103F, 0x1049); (0x1050, 0x1055); (0x105A, 0x105D);
  (0x1061, 0x1061); (0x1065, 0x1066); (0x106E, 0x1070); (0x1075, 0x1081); (0x108E, 0x108E); (0x1090, 0x1099);
  (0x10A0, 0x10C5); (0x10C7, 0x10C7); (0x10CD, 0x10CD); (0x10D0, 0x10FA); (0x10FC, 0x1248); (0x124A, 0x124D);
  (0x1250, 0x1256); (0x1258, 0x1258); (0x125A, 0x125D); (0x1260, 0x1288); (0x128A, 0x128D); (0x1290, 0x12B0);
  (0x12B2, 0x12B5); (0x12B8, 0x12BE); (0x12C0, 0x12C0); (0x12C2, 0x12C5); (0x12C8, 0x12D6); (0x12D8, 0x1310);
  (0x1312, 0x1315); (0x1318, 0x135A); (0x1369, 0x137C); (0x1380, 0x138F); (0x13A0, 0x13F5); (0x13F8, 0x13FD);
  (0x1401, 0x166C); (0x166F, 0x167F); (0x1681, 0x169A); (0x16A0, 0x16EA); (0x16EE, 0x16F8); (0x1700, 0x1711);
  (0x171F, 0x1731); (0x1740, 0x1751); (0x1760, 0x176C); (0x176E, 0x1770); (0x1780, 0x17B3); (0x17D7, 0x17D7);
  (0x17DC, 0x17DC); (0x17E0, 0x17E9); (0x17F0, 0x17F9); (0x1810, 0x1819); (0x1820, 0x1878); (0x1880, 0x1884);
  (0x1887, 0x18A8); (0x18AA, 0x18AA); (0x18B0, 0x18F5); (0x1900, 0x191E); (0x1946, 0x196D); (0x1970, 0x1974);
  (0x1980, 0x19AB); (0x19B0, 0x19C9); (0x19D0, 0x19DA); (0x1A00, 0x1A16); (0x1A20, 0x1A54); (0x1A80, 0x1A89);
  (0x1A90, 0x1A99); (0x1AA7, 0x1AA7); (0x1B05, 0x1B33); (0x1B45, 0x1B4C); (0x1B50, 0x1B59); (0x1B83, 0x1BA0);
  (0x1BAE, 0x1BE5); (0x1C00, 0x1C23); (0x1C40, 0x1C49); (0x1C4D, 0x1C7D); (0x1C80, 0x1C88); (0x1C90, 0x1CBA);
  (0x1CBD, 0x1CBF); (0x1CE9, 0x1CEC); (0x1CEE, 0x1CF3); (0x1CF5, 0x1CF6); (0x1CFA, 0x1CFA); (0x1D00, 0x1DBF);
  (0x1E00, 0x1F15); (0x1F18, 0x1F1D); (0x1F20, 0x1F45); (0x1F48, 0x1F4D); (0x1F50, 0x1F57); (0x1F59, 0x1F59);
  (0x1F5B, 0x1F5B); (0x1F5D, 0x1F5D); (0x1F5F, 0x1F7D); (0x1F80, 0x1FB4); (0x1FB6, 0x1FBC); (0x1FBE, 0x1FBE);
  (0x1FC2, 0x1FC4); (0x1FC6, 0x1FCC); (0x1FD0, 0x1FD3); (0x1FD6, 0x1FDB); (0x1FE0, 0x1FEC); (0x1FF2, 0x1FF4);
  (0x1FF6, 0x1FFC); (0x2070, 0x2071); (0x2074, 0x2079); (0x207F, 0x2089); (0x2090, 0x209C); (0x2102, 0x2102);
  (0x2107, 0x2107); (0x210A, 0x2113); (0x2115, 0x2115); (0x2119, 0x211D); (0x2124, 0x2124); (0x2126, 0x2126);
  (0x2128, 0x2128); (0x212A, 0x212D); (0x212F, 0x2139); (0x213C, 0x213F); (0x2145, 0x2149); (0x214E, 0x214E);
  (0x2150, 0x2189); (0x2460, 0x249B); (0x24EA, 0x24FF); (0x2776, 0x2793); (0x2C00, 0x2CE4); (0x2CEB, 0x2CEE);
  (0x2CF2, 0x2CF3); (0x2CFD, 0x2CFD); (0x2D00, 0x2D25); (0x2D27, 0x2D27); (0x2D2D, 0x2D2D); (0x2D30, 0x2D67);
  (0x2D6F, 0x2D6F); (0x2D80, 0x2D96); (0x2DA0, 0x2DA6); (0x2DA8, 0x2DAE); (0x2DB0, 0x2DB6); (0x2DB8, 0x2DBE);
  (0x2DC0, 0x2DC6); (0x2DC8, 0x2DCE); (0x2DD0, 0x2DD6); (0x2DD8, 0x2DDE); (0x2E2F, 0x2E2F); (0x3005, 0x3007);
  (0x3021, 0x3029); (0x3031, 0x3035); (0x3038, 0x303C); (0x3041, 0x3096); (0x309D, 0x309F); (0x30A1, 0x30FA);
  (0x30FC, 0x30FF); (0x3105, 0x312F); (0x3131, 0x318E); (0x3192, 0x3195); (0x31A0, 0x31BF); (0x31F0, 0x31FF);
  (0x3220, 0x3229); (0x3248, 0x324F); (0x3251, 0x325F); (0x3280, 0x3289); (0x32B1, 0x32BF); (0x3400, 0x4DBF);
  (0x4E00, 0xA48C); (0xA4D0, 0xA4FD); (0xA500, 0xA60C); (0xA610, 0xA62B); (0xA640, 0xA66E); (0xA67F, 0xA69D);
  (0xA6A0, 0xA6EF); (0xA717, 0xA71F); (0xA722, 0xA788); (0xA78B, 0xA7CA); (0xA7D0, 0xA7D1); (0xA7D3, 0xA7D3);
  (0xA7D5, 0xA7D9); (0xA7F2, 0xA801); (0xA803, 0xA805); (0xA807, 0xA80A); (0xA80C, 0xA822); (0xA830, 0xA835);
  (0xA840, 0xA873); (0xA882, 0xA8B3); (0xA8D0, 0xA8D9); (0xA8F2, 0xA8F7); (0xA8FB, 0xA8FB); (0xA8FD, 0xA8FE);
  (0xA900, 0xA925); (0xA930, 0xA946); (0xA960, 0xA97C); (0xA984, 0xA9B2); (0xA9CF, 0xA9D9); (0xA9E0, 0xA9E4);
  (0xA9E6, 0xA9FE); (0xAA00, 0xAA28); (0xAA40, 0xAA42); (0xAA44, 0xAA4B); (0xAA50, 0xAA59); (0xAA60, 0xAA76);
  (0xAA7A, 0xAA7A); (0xAA7E, 0xAAAF); (0xAAB1, 0xAAB1); (0xAAB5, 0xAAB6); (0xAAB9, 0xAABD); (0xAAC0, 0xAAC0);
  (0xAAC2, 0xAAC2); (0xAADB, 0xAADD); (0xAAE0, 0xAAEA); (0xAAF2, 0xAAF4); (0xAB01, 0xAB06); (0xAB09, 0xAB0E);
  (0xAB11, 0xAB16); (0xAB20, 0xAB26); (0xAB28, 0xAB2E); (0xAB30, 0xAB5A); (0xAB5C, 0xAB69); (0xAB70, 0xABE2);
  (0xABF0, 0xABF9); (0xAC00, 0xD7A3); (0xD7B0, 0xD7C6); (0xD7CB, 0xD7FB); (0xF900, 0xFA6D); (0xFA70, 0xFAD9);
  (0xFB00, 0xFB06); (0xFB13, 0xFB17); (0xFB1D, 0xFB1D); (0xFB1F, 0xFB28); (0xFB2A, 0xFB36); (0xFB38, 0xFB3C);
  (0xFB3E, 0xFB3E); (0xFB40, 0xFB41); (0xFB43, 0xFB44); (0xFB46, 0xFBB1); (0xFBD3, 0xFD3D); (0xFD50, 0xFD8F);
  (0xFD92, 0xFDC7); (0xFDF0, 0xFDFB); (0xFE70, 0xFE74); (0xFE76, 0xFEFC); (0xFF10, 0xFF19); (0xFF21, 0xFF3A);
  (0xFF41, 0xFF5A); (0xFF66, 0xFFBE); (0xFFC2, 0xFFC7); (0xFFCA, 0xFFCF); (0xFFD2, 0xFFD7); (0xFFDA, 0xFFDC);
  (0x10000, 0x1000B); (0x1000D, 0x10026); (0x10028, 0x1003A); (0x1003C, 0x1003D); (0x1003F, 0x1004D); (0x10050, 0x1005D);
  (0x10080, 0x100FA); (0x10107, 0x10133); (0x10140, 0x10178); (0x1018A, 0x1018B); (0x10280, 0x1029C); (0x102A0, 0x102D0);
  (0x102E1, 0x102FB); (0x10300, 0x10323); (0x1032D, 0x1034A); (0x10350, 0x10375); (0x10380, 0x1039D); (0x103A0, 0x103C3);
  (0x103C8, 0x103CF); (0x103D1, 0x103D5); (0x10400, 0x1049D); (0x104A0, 0x104A9); (0x104B0, 0x104D3); (0x104D8, 0x104FB);
  (0x10500, 0x10527); (0x10530, 0x10563); (0x10570, 0x1057A); (0x1057C, 0x1058A); (0x1058C, 0x10592); (0x10594, 0x10595);
  (0x10597, 0x105A1); (0x105A3, 0x105B1); (0x105B3, 0x105B9); (0x105BB, 0x105BC); (0x10600, 0x10736); (0x10740, 0x10755);
  (0x10760, 0x10767); (0x10780, 0x10785); (0x10787, 0x107B0); (0x107B2, 0x107BA); (0x10800, 0x10805); (0x10808, 0x10808);
  (0x1080A, 0x10835); (0x10837, 0x10838); (0x1083C, 0x1083C); (0x1083F, 0x10855); (0x10858, 0x10876); (0x10879, 0x1089E);
  (0x108A7, 0x108AF); (0x108E0, 0x108F2); (0x108F4, 0x108F5); (0x108FB, 0x1091B); (0x10920, 0x10939); (0x10980, 0x109B7);
  (0x109BC, 0x109CF); (0x109D2, 0x10A00); (0x10A10, 0x10A13); (0x10A15, 0x10A17); (0x10A19, 0x10A35); (0x10A40, 0x10A48);
  (0x10A60, 0x10A7E); (0x10A80, 0x10A9F); (0x10AC0, 0x10AC7); (0x10AC9, 0x10AE4); (0x10AEB, 0x10AEF); (0x10B00, 0x10B35);
  (0x10B40, 0x10B55); (0x10B58, 0x10B72); (0x10B78, 0x10B91); (0x10BA9, 0x10BAF); (0x10C00, 0x10C48); (0x10C80, 0x10CB2);
  (0x10CC0, 0x10CF2); (0x10CFA, 0x10D23); (0x10D30, 0x10D39); (0x10E60, 0x10E7E); (0x10E80, 0x10EA9); (0x10EB0, 0x10EB1);
  (0x10F00, 0x10F27); (0x10F30, 0x10F45); (0x10F51, 0x10F54); (0x10F70, 0x10F81); (0x10FB0, 0x10FCB); (0x10FE0, 0x10FF6);
  (0x11003, 0x11037); (0x11052, 0x1106F); (0x11071, 0x11072); (0x11075, 0x11075); (0x11083, 0x110AF); (0x110D0, 0x110E8);
  (0x110F0, 0x110F9); (0x11103, 0x11126); (0x11136, 0x1113F); (0x11144, 0x11144); (0x11147, 0x11147); (0x11150, 0x11172);
  (0x11176, 0x11176); (0x11183, 0x111B2); (0x111C1, 0x111C4); (0x111D0, 0x111DA); (0x111DC, 0x111DC); (0x111E1, 0x111F4);
  (0x11200, 0x11211); (0x11213, 0x1122B); (0x11280, 0x11286); (0x11288, 0x11288); (0x1128A, 0x1128D); (0x1128F, 0x1129D);
  (0x1129F, 0x112A8); (0x112B0, 0x112DE); (0x112F0, 0x112F9); (0x11305, 0x1130C); (0x1130F, 0x11310); (0x11313, 0x11328);
  (0x1132A, 0x11330); (0x11332, 0x11333); (0x11335, 0x11339); (0x1133D, 0x1133D); (0x11350, 0x11350); (0x1135D, 0x11361);
  (0x11400, 0x11434); (0x11447, 0x1144A); (0x11450, 0x11459); (0x1145F, 0x11461); (0x11480, 0x114AF); (0x114C4, 0x114C5);
  (0x114C7, 0x114C7); (0x114D0, 0x114D9); (0x11580, 0x115AE); (0x115D8, 0x115DB); (0x11600, 0x1162F); (0x11644, 0x11644);
  (0x11650, 0x11659); (0x11680, 0x116AA); (0x116B8, 0x116B8); (0x116C0, 0x116C9); (0x11700, 0x1171A); (0x11730, 0x1173B);
  (0x11740, 0x11746); (0x11800, 0x1182B); (0x118A0, 0x118F2); (0x118FF, 0x11906); (0x11909, 0x11909); (0x1190C, 0x11913);
  (0x11915, 0x11916); (0x11918, 0x1192F); (0x1193F, 0x1193F); (0x11941, 0x11941); (0x11950, 0x11959); (0x119A0, 0x119A7);
  (0x119AA, 0x119D0); (0x119E1, 0x119E1); (0x119E3, 0x119E3); (0x11A00, 0x11A00); (0x11A0B, 0x11A32); (0x11A3A, 0x11A3A);
  (0x11A50, 0x11A50); (0x11A5C, 0x11A89); (0x11A9D, 0x11A9D); (0x11AB0, 0x11AF8); (0x11C00, 0x11C08); (0x11C0A, 0x11C2E);
  (0x11C40, 0x11C40); (0x11C50, 0x11C6C); (0x11C72, 0x11C8F); (0x11D00, 0x11D06); (0x11D08, 0x11D09); (0x11D0B, 0x11D30);
  (0x11D46, 0x11D46); (0x11D50, 0x11D59); (0x11D60, 0x11D65); (0x11D67, 0x11D68); (0x11D6A, 0x11D89); (0x11D98, 0x11D98);
  (0x11DA0, 0x11DA9); (0x11EE0, 0x11EF2); (0x11FB0, 0x11FB0); (0x11FC0, 0x11FD4); (0x12000, 0x12399); (0x12400, 0x1246E);
  (0x12480, 0x12543); (0x12F90, 0x12FF0); (0x13000, 0x1342E); (0x14400, 0x14646); (0x16800, 0x16A38); (0x16A40, 0x16A5E);
  (0x16A60, 0x16A69); (0x16A70, 0x16ABE); (0x16AC0, 0x16AC9); (0x16AD0, 0x16AED); (0x16B00, 0x16B2F); (0x16B40, 0x16B43);
  (0x16B50, 0x16B59); (0x16B5B, 0x16B61); (0x16B63, 0x16B77); (0x16B7D, 0x16B8F); (0x16E40, 0x16E96); (0x16F00, 0x16F4A);
  (0x16F50, 0x16F50); (0x16F93, 0x16F9F); (0x16FE0, 0x16FE1); (0x16FE3, 0x16FE3); (0x17000, 0x187F7); (0x18800, 0x18CD5);
  (0x18D00, 0x18D08); (0x1AFF0, 0x1AFF3); (0x1AFF5, 0x1AFFB); (0x1AFFD, 0x1AFFE); (0x1B000, 0x1B122); (0x1B150, 0x1B152);
  (0x1B164, 0x1B167); (0x1B170, 0x1B2FB); (0x1BC00, 0x1BC6A); (0x1BC70, 0x1BC7C); (0x1BC80, 0x1BC88); (0x1BC90, 0x1BC99);
  (0x1D2E0, 0x1D2F3); (0x1D360, 0x1D378); (0x1D400, 0x1D454); (0x1D456, 0x1D49C); (0x1D49E, 0x1D49F); (0x1D4A2, 0x1D4A2);
  (0x1D4A5, 0x1D4A6); (0x1D4A9, 0x1D4AC); (0x1D4AE, 0x1D4B9); (0x1D4BB, 0x1D4BB); (0x1D4BD, 0x1D4C3); (0x1D4C5, 0x1D505);
  (0x1D507, 0x1D50A); (0x1D50D, 0x1D514); (0x1D516, 0x1D51C); (0x1D51E, 0x1D539); (0x1D53B, 0x1D53E); (0x1D540, 0x1D544);
  (0x1D546, 0x1D546); (0x1D54A, 0x1D550); (0x1D552, 0x1D6A5); (0x1D6A8, 0x1D6C0); (0x1D6C2, 0x1D6DA); (0x1D6DC, 0x1D6FA);
  (0x1D6FC, 0x1D714); (0x1D716, 0x1D734); (0x1D736, 0x1D74E); (0x1D750, 0x1D76E); (0x1D770, 0x1D788); (0x1D78A, 0x1D7A8);
  (0x1D7AA, 0x1D7C2); (0x1D7C4, 0x1D7CB); (0x1D7CE, 0x1D7FF); (0x1DF00, 0x1DF1E); (0x1E100, 0x1E12C); (0x1E137, 0x1E13D);
  (0x1E140, 0x1E149); (0x1E14E, 0x1E14E); (0x1E290, 0x1E2AD); (0x1E2C0, 0x1E2EB); (0x1E2F0, 0x1E2F9); (0x1E7E0, 0x1E7E6);
  (0x1E7E8, 0x1E7EB); (0x1E7ED, 0x1E7EE); (0x1E7F0, 0x1E7FE); (0x1E800, 0x1E8C4); (0x1E8C7, 0x1E8CF); (0x1E900, 0x1E943);
  (0x1E94B, 0x1E94B); (0x1E950, 0x1E959); (0x1EC71, 0x1ECAB); (0x1ECAD, 0x1ECAF); (0x1ECB1, 0x1ECB4); (0x1ED01, 0x1ED2D);
  (0x1ED2F, 0x1ED3D); (0x1EE00, 0x1EE03); (0x1EE05, 0x1EE1F); (0x1EE21, 0x1EE22); (0x1EE24, 0x1EE24); (0x1EE27, 0x1EE27);
  (0x1EE29, 0x1EE32); (0x1EE34, 0x1EE37); (0x1EE39, 0x1EE39); (0x1EE3B, 0x1EE3B); (0x1EE42, 0x1EE42); (0x1EE47, 0x1EE47);
  (0x1EE49, 0x1EE49); (0x1EE4B, 0x1EE4B); (0x1EE4D, 0x1EE4F); (0x1EE51, 0x1EE52); (0x1EE54, 0x1EE54); (0x1EE57, 0x1EE57);
  (0x1EE59, 0x1EE59); (0x1EE5B, 0x1EE5B); (0x1EE5D, 0x1EE5D); (0x1EE5F, 0x1EE5F); (0x1EE61, 0x1EE62); (0x1EE64, 0x1EE64);
  (0x1EE67, 0x1EE6A); (0x1EE6C, 0x1EE72); (0x1EE74, 0x1EE77); (0x1EE79, 0x1EE7C); (0x1EE7E, 0x1EE7E); (0x1EE80, 0x1EE89);
  (0x1EE8B, 0x1EE9B); (0x1EEA1, 0x1EEA3); (0x1EEA5, 0x1EEA9); (0x1EEAB, 0x1EEBB); (0x1F100, 0x1F10C); (0x1FBF0, 0x1FBF9);
  (0x20000, 0x2A6DF); (0x2A700, 0x2B738); (0x2B740, 0x2B81D); (0x2B820, 0x2CEA1); (0x2CEB0, 0x2EBE0); (0x2F800, 0x2FA1D);
  (0x30000, 0x3134A) ]%N.

Definition isalnum : N -> bool := in_ranges alnum_ranges.

Definition isword (c : N) : bool := (isalnum c || N.eqb c 0x5F)%bool.

(** [s.lstrip()], [s.rstrip()] and [s.strip()] without argument. *)
Fixpoint lstrip (s : str) : str :=
  match s with
  | c :: tl => if isspace c then lstrip tl else s
  | [] => []
  end.

Definition rstrip (s : str) : str := rev (lstrip (rev s)).

Definition strip (s : str) : str := rstrip (lstrip s).

(** [sep.join(parts)]. *)
Fixpoint join (sep : str) (parts : list str) : str :=
  match parts with
  | [] => []
  | [p] => p
  | p :: tl => p ++ sep ++ join sep tl
  end.

(** [s[i:j]] for [0 <= i <= j]. *)
Definition slice (s : str) (i j : nat) : str := firstn (j - i) (skipn i s).

(** Truth value of a string: [not s] is [true] exactly on the empty one. *)
Definition is_empty (s : str) : bool :=
  match s with [] => true | _ :: _ => false end.

(** [s.startswith(sub)]. *)
Fixpoint starts_with (sub s : str) : bool :=
  match sub, s with
  | [], _ => true
  | a :: sub', b :: s' => (N.eqb a b && starts_with sub' s')%bool
  | _ :: _, [] => false
  end.

(** [sub in s]. *)
Fixpoint contains (sub s : str) : bool :=
  (starts_with sub s || match s with [] => false | _ :: tl => contains sub tl end)%bool.

(** Every range of [t1] lies inside a range of [t2]. *)
Definition ranges_within (t1 t2 : list (N * N)) : bool :=
  forallb (fun r => existsb (fun r' =>
    (N.leb (fst r') (fst r) && N.leb (snd r) (snd r'))%bool) t2) t1.

(** [v] occurs in [s] as a run of consecutive characters. *)
Definition substring (v s : str) : Prop := exists pre post, s = pre ++ v ++ post.

(** Strings made of white space only, the empty one included. *)
Definition all_space (s : str) : Prop := Forall (fun c => isspace c = true) s.

(** The first character of [s], if any, is outside the class [p]. *)
Definition not_started_by (p : N -> bool) (s : str) : Prop :=
  match s with c :: _ => p c = false | [] => True end.

End PyStr.
Import PyStr.

(** ** Regular expressions of Python's [re] *)

Module Re.

(** Syntax trees for the constructs the four patterns use. *)
Inductive regex : Type :=
| Char (p : N -> bool)                          (* one character of a set *)
| Empty
| Cat (r1 r2 : regex)
| Or (r1 r2 : regex)                            (* [r1|r2], [r1] first *)
| Repeat (lo : nat) (hi : option nat) (r : regex) (* greedy [r{lo,hi}] *)
| Group (n : nat) (r : regex)                   (* capturing group [n] *)
| NotBehind (p : N -> bool)                     (* [(?<!c)], one character *)
| WordBoundary.                                 (* [\b] *)

Definition chr (c : N) : regex := Char (N.eqb c).
Definition lit (s : str) : regex := fold_right (fun c r => Cat (chr c) r) Empty s.
Definition opt (r : regex) : regex := Repeat 0 (Some 1) r.
Definition star (r : regex) : regex := Repeat 0 None r.
Definition plus (r : regex) : regex := Repeat 1 None r.

(** The matcher walks the text with a cursor: [before] holds the
    characters left of the cursor, nearest first, [after] those right of
    it; [caps] holds the spans of the groups closed so far, latest
    first. *)
Record mstate : Type := MState {
  before : list N;
  after : list N;
  caps : list (nat * (nat * nat))
}.

Definition pos (st : mstate) : nat := length (before st).

Definition set_group (n i j : nat) (st : mstate) : mstate :=
  MState (before st) (after st) ((n, (i, j)) :: caps st).

Definition cont := mstate -> option mstate.

Definition below (n : nat) (hi : option nat) : bool :=
  match hi with Some h => n <? h | None => true end.

(** Greedy repetition: one more round of [body] is tried first, and the
    continuation [k] only when that fails and at least [lo] rounds are
    done.  Every repeated body of the four patterns consumes a
    character; a round that consumes none is cut, so [fuel], the number
    of characters right of the cursor, bounds the rounds. *)
Fixpoint rep_loop (body : mstate -> cont -> option mstate) (lo : nat)
    (hi : option nat) (k : cont) (fuel n : nat) (st : mstate) {struct fuel}
    : option mstate :=
  let stop := if lo <=? n then k st else None in
  match fuel with
  | 0 => stop
  | S fuel' =>
      if below n hi then
        match body st (fun st' =>
                 if length (after st') <? length (after st)
                 then rep_loop body lo hi k fuel' (S n) st' else None) with
        | Some m => Some m
        | None => stop
        end
      else stop
  end.

Definition word_before (st : mstate) : bool :=
  match before st with c :: _ => isword c | [] => false end.

Definition word_after (st : mstate) : bool :=
  match after st with c :: _ => isword c | [] => false end.

(** Backtracking matcher in continuation-passing style: [exec r st k]
    is the first way, in the order Python tries them, of matching [r]
    at [st] for which [k] accepts the state reached. *)
Fixpoint exec (r : regex) (st : mstate) (k : cont) {struct r} : option mstate :=
  match r with
  | Char p =>
      match after st with
      | c :: tl => if p c then k (MState (c :: before st) tl (caps st)) else None
      | [] => None
      end
  | Empty => k st
  | Cat r1 r2 => exec r1 st (fun st1 => exec r2 st1 k)
  | Or r1 r2 =>
      match exec r1 st k with
      | Some m => Some m
      | None => exec r2 st k
      end
  | Repeat lo hi r1 => rep_loop (exec r1) lo hi k (length (after st)) 0 st
  | Group n r1 => exec r1 st (fun st' => k (set_group n (pos st) (pos st') st'))
  | NotBehind p =>
      match before st with
      | c :: _ => if p c then None else k st
      | [] => k st
      end
  | WordBoundary => if xorb (word_before st) (word_after st) then k st else None
  end.

(** A match object: the searched text, the span of group 0 and the
    spans of the numbered groups. *)
Record match_obj : Type := Match {
  m_text : str;
  m_start : nat;
  m_end : nat;
  m_caps : list (nat * (nat * nat))
}.

(** [pattern.match(text, pos)] with [pos = length b], on the text
    [rev b ++ a]. *)
Definition match_at (r : regex) (b a : list N) : option match_obj :=
  match exec r (MState b a []) Some with
  | Some st => Some (Match (rev b ++ a) (length b) (pos st) (caps st))
  | None => None
  end.

(** The scan of [re.search]: start positions from left to right, the
    end of the text included. *)
Fixpoint search_from (r : regex) (b a : list N) {struct a} : option match_obj :=
  match match_at r b a with
  | Some m => Some m
  | None =>
      match a with
      | c :: tl => search_from r (c :: b) tl
      | [] => None
      end
  end.

(** [re.search(r, text)]. *)
Definition search (r : regex) (text : str) : option match_obj := search_from r [] text.

Fixpoint lookup (n : nat) (l : list (nat * (nat * nat))) : option (nat * nat) :=
  match l with
  | [] => None
  | (g, span) :: tl => if g =? n then Some span else lookup n tl
  end.

(** [m.group(0)]. *)
Definition group0 (m : match_obj) : str := slice (m_text m) (m_start m) (m_end m).

(** [m.group(n)] for [n >= 1]; [None] when the group took no part. *)
Definition group (n : nat) (m : match_obj) : option str :=
  match lookup n (m_caps m) with
  | Some (i, j) => Some (slice (m_text m) i j)
  | None => None
  end.

(** The scan of [re.search] finds no match at a start position inside
    [pre], on the text [rev b ++ pre ++ tail]. *)
Fixpoint unmatched_before (r : regex) (b pre tail : list N) {struct pre} : bool :=
  match pre with
  | [] => true
  | c :: pre' =>
      match match_at r b (pre ++ tail) with
      | Some _ => false
      | None => unmatched_before r (c :: b) pre' tail
      end
  end.

(** *** What a pattern matches

    [iter R n st w st'] chains [n] rounds of [R] from [st] to [st'],
    reading the word [w]. *)
Fixpoint iter (R : mstate -> str -> mstate -> Prop) (n : nat)
    (st : mstate) (w : str) (st' : mstate) : Prop :=
  match n with
  | 0 => w = [] /\ st' = st
  | S n' => exists w1 st1 w2, w = w1 ++ w2 /\ R st w1 st1 /\ iter R n' st1 w2 st'
  end.

(** [matches r st w st']: some way of matching [r] at [st] reads the
    word [w] and ends at [st'].  The order in which Python tries the
    ways plays no part here. *)
Fixpoint matches (r : regex) (st : mstate) (w : str) (st' : mstate) {struct r} : Prop :=
  match r with
  | Char p =>
      exists c, p c = true /\ w = [c] /\ after st = c :: after st'
                /\ before st' = c :: before st /\ caps st' = caps st
  | Empty => w = [] /\ st' = st
  | Cat r1 r2 =>
      exists w1 st1 w2, w = w1 ++ w2 /\ matches r1 st w1 st1 /\ matches r2 st1 w2 st'
  | Or r1 r2 => matches r1 st w st' \/ matches r2 st w st'
  | Repeat lo hi r1 =>
      exists n, lo <= n /\ (forall h, hi = Some h -> n <= h)
                /\ iter (matches r1) n st w st'
  | Group n r1 =>
      exists st1, matches r1 st w st1 /\ st' = set_group n (pos st) (pos st1) st1
  | NotBehind p =>
      w = [] /\ st' = st
      /\ match before st with c :: _ => p c = false | [] => True end
  | WordBoundary =>
      w = [] /\ st' = st /\ xorb (word_before st) (word_after st) = true
  end.

(** A match reads its word off the text right of the cursor and moves
    the cursor behind it. *)
Definition span (st : mstate) (w : str) (st' : mstate) : Prop :=
  after st = w ++ after st' /\ before st' = rev w ++ before st.

End Re.
Import Re.

(** ** The field extractor *)

Module Fields.

Definition in_list (l : list N) (c : N) : bool := existsb (N.eqb c) l.

(** ASCII classes of the patterns. *)
Definition digit09 (c : N) : bool := in_range c (0x30, 0x39)%N.
Definition upperAZ (c : N) : bool := in_range c (0x41, 0x5A)%N.
Definition loweraz (c : N) : bool := in_range c (0x61, 0x7A)%N.
Definition alpha (c : N) : bool := upperAZ c || loweraz c.
Definition alnum09 (c : N) : bool := alpha c || digit09 c.

(** A lower-case ASCII letter [c] of a pattern compiled with [re.I]:
    the text character matches when its simple lower-case mapping is
    [c] (the letter, its capital, and U+0130 for i, U+212A for k) or is
    case-equivalent to it (U+0131 for i, U+017F for s). *)
Definition ichr (c : N) : regex :=
  Char (fun t =>
    N.eqb t c || N.eqb t (c - 32)
    || (N.eqb c 0x69 && (N.eqb t 0x130 || N.eqb t 0x131))
    || (N.eqb c 0x6B && N.eqb t 0x212A)
    || (N.eqb c 0x73 && N.eqb t 0x17F))%N.

Definition ilit (s : str) : regex := fold_right (fun c r => Cat (ichr c) r) Empty s.

(** [[A-Za-z0-9\-_/]] under [re.I]: the four non-ASCII code points are
    those that [re.I] identifies with an ASCII letter. *)
Definition token_char (c : N) : bool :=
  alnum09 c || in_list [0x2D; 0x5F; 0x2F; 0x130; 0x131; 0x17F; 0x212A]%N c.

(** The invoice rule, compiled with [re.I]; its two groups are
      1:  invoice \s* (?:no|#|number)? \s* [:\-]? \s*
      2:  [A-Za-z0-9\-_/]+ *)
Definition invoice_re : regex :=
  Cat (Group 1
         (Cat (ilit (py "invoice"))
         (Cat (star (Char isspace))
         (Cat (opt (Or (ilit (py "no")) (Or (chr 0x23) (ilit (py "number")))))
         (Cat (star (Char isspace))
         (Cat (opt (Char (in_list [0x3A; 0x2D]%N)))
              (star (Char isspace))))))))
      (Group 2 (plus (Char token_char))).

(** The third alternative of the marker group is written in the source
    file as the three code points U+00E2 U+201A U+00B9. *)
Definition currency_marker : regex :=
  Or (lit (py "USD"))
 (Or (lit (py "INR"))
 (Or (Cat (lit (py "Rs")) (opt (chr 0x2E)))
 (Or (lit [0xE2; 0x201A; 0xB9]%N)
     (chr 0x24)))).

(** [[0-9]{1,3}(?:[, ]?[0-9]{3})*(?:\.[0-9]{1,2})?] *)
Definition amount_number : regex :=
  Cat (Repeat 1 (Some 3) (Char digit09))
 (Cat (star (Cat (opt (Char (in_list [0x2C; 0x20]%N))) (Repeat 3 (Some 3) (Char digit09))))
      (opt (Cat (chr 0x2E) (Repeat 1 (Some 2) (Char digit09))))).

(** The words the marker group can read. *)
Definition markers : list str :=
  [py "USD"; py "INR"; py "Rs."; py "Rs"; [0xE2; 0x201A; 0xB9]%N; py "$"].

(** [(?<!\d)(?:USD|INR|Rs\.?|...|\$)?\s?([0-9]{1,3}(?:[, ]?[0-9]{3})*(?:\.[0-9]{1,2})?)] *)
Definition amount_re : regex :=
  Cat (NotBehind isdecimal)
 (Cat (opt currency_marker)
 (Cat (opt (Char isspace))
      (Group 1 amount_number))).

Definition email_local (c : N) : bool :=
  alnum09 c || in_list [0x2E; 0x5F; 0x25; 0x2B; 0x2D]%N c.

Definition email_domain (c : N) : bool :=
  alnum09 c || in_list [0x2E; 0x2D]%N c.

(** [[A-Za-z0-9._%+-]+@[A-Za-z0-9.-]+\.[A-Za-z]{2,}] *)
Definition email_re : regex :=
  Cat (plus (Char email_local))
 (Cat (chr 0x40)
 (Cat (plus (Char email_domain))
 (Cat (chr 0x2E)
      (Repeat 2 None (Char alpha))))).

Definition date_sep : regex := Char (in_list [0x2F; 0x2D]%N).
Definition digits (lo hi : nat) : regex := Repeat lo (Some hi) (Char isdecimal).

(** [\b(\d{1,2}[/-]\d{1,2}[/-]\d{2,4}|\d{4}[/-]\d{1,2}[/-]\d{1,2})\b] *)
Definition date_re : regex :=
  Cat WordBoundary
 (Cat (Group 1
         (Or (Cat (digits 1 2) (Cat date_sep (Cat (digits 1 2) (Cat date_sep (digits 2 4)))))
             (Cat (digits 4 4) (Cat date_sep (Cat (digits 1 2) (Cat date_sep (digits 1 2)))))))
      WordBoundary).

(** Words that start, or end, with an ASCII digit. *)
Definition digit_started (w : str) : Prop :=
  exists d w', w = d :: w' /\ digit09 d = true.

Definition digit_ended (w : str) : Prop :=
  exists w' z, w = w' ++ [z] /\ digit09 z = true.

(** [s] ends with a decimal digit of some script. *)
Definition ends_with_decimal (s : str) : bool :=
  match rev s with c :: _ => isdecimal c | [] => false end.

(** The dictionary returned by [extract_fields]; a key holding [None]
    is an unset field. *)
Record fields : Type := Fields {
  invoice_number : option str;
  amount : option str;
  email : option str;
  date : option str
}.

Definition extract_fields (text : str) : fields :=
  {| invoice_number :=
       match search invoice_re text with Some m => group 2 m | None => None end;
     amount :=
       match search amount_re text with Some m => Some (strip (group0 m)) | None => None end;
     email :=
       match search email_re text with Some m => Some (group0 m) | None => None end;
     date :=
       match search date_re text with Some m => group 1 m | None => None end |}.

(** [s] starts with a character of the class [p]. *)
Definition starts_with_class (p : N -> bool) (s : str) : bool :=
  match s with c :: _ => p c | [] => false end.

(** No token can follow in [post] for the invoice rule: after optional
    white space, then an optional colon and optional white space, [post]
    does not go on with a token character.  (A hyphen after the white
    space is itself a token character.) *)
Definition no_further_token (post : str) : bool :=
  let s1 := lstrip post in
  negb (starts_with_class token_char s1)
  && match s1 with
     | c :: s2 =>
         if in_list [0x3A; 0x2D]%N c
         then negb (starts_with_class token_char (lstrip s2))
         else true
     | [] => true
     end.

(** Strings of the form local@domain.tld, in the classes of the email
    rule. *)
Definition is_email (v : str) : Prop :=
  exists local domain tld,
    v = local ++ [0x40%N] ++ domain ++ [0x2E%N] ++ tld
    /\ local <> [] /\ Forall (fun c => email_local c = true) local
    /\ domain <> [] /\ Forall (fun c => email_domain c = true) domain
    /\ 2 <= length tld /\ Forall (fun c => alpha c = true) tld.

(** Strings made of three runs of decimal digits and two separators,
    with the lengths of one of the two alternatives of the date rule. *)
Definition is_date (v : str) : Prop :=
  exists a s1 b s2 c,
    v = a ++ [s1] ++ b ++ [s2] ++ c
    /\ Forall (fun x => isdecimal x = true) (a ++ b ++ c)
    /\ In s1 [0x2F; 0x2D]%N /\ In s2 [0x2F; 0x2D]%N
    /\ ((1 <= length a <= 2 /\ 1 <= length b <= 2 /\ 2 <= length c <= 4)
        \/ (length a = 4 /\ 1 <= length b <= 2 /\ 1 <= length c <= 2)).

(** The characters [t] that the letter [c] of [ichr c] matches. *)
Definition ieq (c t : N) : bool :=
  (N.eqb t c || N.eqb t (c - 32)
   || (N.eqb c 0x69 && (N.eqb t 0x130 || N.eqb t 0x131))
   || (N.eqb c 0x6B && N.eqb t 0x212A)
   || (N.eqb c 0x73 && N.eqb t 0x17F))%N.

(** The label words "no" and "number" of the invoice rule, in any
    letter case: each character is one that the letter of the pattern
    matches under [re.I]. *)
Definition label_word (word : str) : Prop :=
  Forall2 (fun c t => ieq c t = true) (py "no") word
  \/ Forall2 (fun c t => ieq c t = true) (py "number") word.

(** The invoice line of the worked example. *)
Definition sample_text : str :=
  py "Invoice No: INV-2023-045, contact billing@example.com, $1,250.00 due 12/31/2023".

End Fields.
Import Fields.

(** ** Text extraction and its collaborators *)

Module Pipeline.

Definition bytes := list Byte.byte.

(** A raised exception, named by its class.  The collaborators raise
    classes derived from [Exception] (ImportError, OSError, the errors
    of Pillow, pdf2image and pytesseract), which is what the handlers of
    the program catch. *)
Inductive exn : Type := PyExc (cls : string).

Section WithBackends.

(** Decoded images and PDF pages are objects of the libraries. *)
Variables image page : Type.

(** The library calls of the program; each returns or raises. *)
Record Backends : Type := {
  (* Image.open(io.BytesIO(b)).convert("RGB") *)
  Image_open : bytes -> exn + image;
  (* pytesseract.image_to_string(img) *)
  image_to_string : image -> exn + str;
  (* PyPDF2.PdfReader(io.BytesIO(b)).pages *)
  PdfReader_pages : bytes -> exn + list page;
  (* page.extract_text() *)
  page_extract_text : page -> exn + option str;
  (* from pdf2image import convert_from_bytes *)
  import_pdf2image : exn + unit;
  (* convert_from_bytes(b, dpi=dpi) *)
  convert_from_bytes : bytes -> N -> exn + list image
}.

(** The calls made, in the order they are made. *)
Inductive event : Type :=
| EvImageOpen (b : bytes)
| EvOcr (img : image)
| EvPdfOpen (b : bytes)
| EvPageText (p : page)
| EvImport
| EvRasterize (b : bytes) (dpi : N).

(** A computation extends the log of calls and returns or raises. *)
Definition M (A : Type) : Type := list event -> list event * (exn + A).

Definition ret {A : Type} (a : A) : M A := fun log => (log, inr a).

Definition bind {A B : Type} (m : M A) (f : A -> M B) : M B :=
  fun log =>
    match m log with
    | (log', inr a) => f a log'
    | (log', inl e) => (log', inl e)
    end.

(** One call to a collaborator. *)
Definition call {A : Type} (ev : event) (r : exn + A) : M A :=
  fun log => (log ++ [ev], r).

(** [try: body except Exception: handler]. *)
Definition try_except {A : Type} (body : M A) (handler : exn -> M A) : M A :=
  fun log =>
    match body log with
    | (log', inl e) => handler e log'
    | (log', inr a) => (log', inr a)
    end.

Notation "x <- m ;; k" := (bind m (fun x => k))
  (at level 61, m at next level, right associativity).

Variable B : Backends.

Definition ocr_image_bytes (image_bytes : bytes) : M str :=
  img <- call (EvImageOpen image_bytes) (Image_open B image_bytes) ;;
  call (EvOcr img) (image_to_string B img).

(** [x or ""] for the result of [page.extract_text()]. *)
Definition or_empty (x : option str) : str :=
  match x with Some s => s | None => [] end.

Definition newline : str := [0xA]%N.

(** The loop over [reader.pages]; [text] is the accumulator. *)
Fixpoint read_pages (pages : list page) (text : str) : M str :=
  match pages with
  | [] => ret text
  | p :: rest =>
      page_text <- call (EvPageText p) (page_extract_text B p) ;;
      read_pages rest (text ++ (or_empty page_text ++ newline))
  end.

(** The loop over [images]; [ocr_text] is the list appended to. *)
Fixpoint ocr_pages (images : list image) (ocr_text : list str) : M (list str) :=
  match images with
  | [] => ret ocr_text
  | img :: rest =>
      t <- call (EvOcr img) (image_to_string B img) ;;
      ocr_pages rest (ocr_text ++ [t])
  end.

(** The body of the [try] of [extract_text_from_pdf]. *)
Definition ocr_fallback (pdf_bytes : bytes) : M str :=
  _ <- call EvImport (import_pdf2image B) ;;
  images <- call (EvRasterize pdf_bytes 300) (convert_from_bytes B pdf_bytes 300) ;;
  ocr_text <- ocr_pages images [] ;;
  ret (strip (join newline ocr_text)).

Definition extract_text_from_pdf (pdf_bytes : bytes) : M str :=
  pages <- call (EvPdfOpen pdf_bytes) (PdfReader_pages B pdf_bytes) ;;
  text <- read_pages pages [] ;;
  let text := strip text in
  if is_empty text
  then try_except (ocr_fallback pdf_bytes) (fun _ => ret [])
  else ret text.

Definition str_eqb (a b : str) : bool :=
  if list_eq_dec N.eq_dec a b then true else false.

Definition image_types : list str :=
  map py ["image/png"; "image/jpeg"; "image/jpg"; "image/webp"; "image/bmp";
          "image/tiff"]%string.

Definition pdf_type : str := py "application/pdf".

(** The row handed to the database session. *)
Record Document : Type := {
  doc_content_type : str;
  doc_text : str;
  doc_fields : fields
}.

(** What [upload] returns: the success dictionary for the stored row,
    or the JSON error of status 400. *)
Inductive response : Type :=
| Stored (doc : Document)
| BadRequest (error : str).

(** The block of [upload] that extracts the text: the extracted text,
    or the response of the early [return]. *)
Definition upload_text (content : bytes) (content_type : str) : M (response + str) :=
  if existsb (str_eqb content_type) image_types then
    t <- ocr_image_bytes content ;; ret (inr t)
  else if str_eqb content_type pdf_type then
    t <- extract_text_from_pdf content ;; ret (inr t)
  else
    try_except (t <- ocr_image_bytes content ;; ret (inr t))
      (fun _ => ret (inl (BadRequest (py "Unsupported file type: " ++ content_type)))).

(** [upload] from the bytes read to the row it stores; writing the
    file to disk and the database session are left out.
    [file_content_type] is [file.content_type], which may be [None]. *)
Definition upload (content : bytes) (file_content_type : option str) : M response :=
  let content_type := or_empty file_content_type in
  r <- upload_text content content_type ;;
  match r with
  | inl early => ret early
  | inr extracted_text =>
      let extracted_text := strip extracted_text in
      let fields := extract_fields extracted_text in
      ret (Stored {| doc_content_type := content_type;
                     doc_text := extracted_text;
                     doc_fields := fields |})
  end.

(** Every page of [pages] yields its entry of [texts]. *)
Definition pages_read (pages : list page) (texts : list (option str)) : Prop :=
  Forall2 (fun p t => page_extract_text B p = inr t) pages texts.

(** The OCR engine returns on every image of [images], with [outs]. *)
Definition ocr_returns (images : list image) (outs : list str) : Prop :=
  Forall2 (fun img o => image_to_string B img = inr o) images outs.

(** The OCR calls of a log, in order. *)
Fixpoint ocr_calls (log : list event) : list image :=
  match log with
  | [] => []
  | EvOcr img :: tl => img :: ocr_calls tl
  | _ :: tl => ocr_calls tl
  end.

End WithBackends.

(** The text of the first phase for the page results [texts]: what
    the page loop accumulates, stripped. *)
Definition phase1_text (texts : list (option str)) : str :=
  strip (concat (map (fun t => or_empty t ++ newline) texts)).

Arguments EvImageOpen {image page} b.
Arguments EvOcr {image page} img.
Arguments EvPdfOpen {image page} b.
Arguments EvPageText {image page} p.
Arguments EvImport {image page}.
Arguments EvRasterize {image page} b dpi.

(** [filename.replace(' ', '_')]. *)
Definition replace_spaces (filename : str) : str :=
  map (fun c => if N.eqb c 0x20 then 0x5F%N else c) filename.

(** The name under which [upload] saves the file; [stamp] is
    [datetime.utcnow().strftime('%Y%m%d-%H%M%S')]. *)
Definition safe_name (stamp filename : str) : str :=
  stamp ++ py "_" ++ replace_spaces filename.

(** Collaborators for worked examples: pages and images are numbered,
    page [i] of any PDF has the text [nth i texts None] and rasterises
    to image [i]; [decode] and [ocr] are the image decoder and the OCR
    engine, [import] the outcome of importing the rasteriser. *)
Definition numbered_backends (texts : list (option str)) (import : exn + unit)
    (decode : bytes -> exn + nat) (ocr : nat -> exn + str) : Backends nat nat :=
  {| Image_open := decode;
     image_to_string := ocr;
     PdfReader_pages := fun _ => inr (seq 0 (length texts));
     page_extract_text := fun p => inr (nth p texts None);
     import_pdf2image := import;
     convert_from_bytes := fun _ _ => inr (seq 0 (length texts)) |}.

Definition decode_by_length (b : bytes) : exn + nat :=
  match b with
  | [] => inl (PyExc "UnidentifiedImageError")
  | _ :: _ => inr (length b)
  end.

Definition ocr_page_number (i : nat) : exn + str :=
  inr (py "Page " ++ [N.of_nat (48 + i)] ++ newline).

Definition ocr_fails_from (k i : nat) : exn + str :=
  if i <? k then ocr_page_number i else inl (PyExc "TesseractError").

(** An uploaded payload of four bytes. *)
Definition payload : bytes := [Byte.x25; Byte.x50; Byte.x44; Byte.x46].

(** A PDF with a text layer on its first page only. *)
Definition mixed_pdf : Backends nat nat :=
  numbered_backends [Some (py "Total 42"); None; Some []] (inr tt)
    decode_by_length ocr_page_number.

(** A scanned PDF of three pages with a working OCR engine. *)
Definition scanned_pdf : Backends nat nat :=
  numbered_backends [None; Some []; Some (py "  ")] (inr tt)
    decode_by_length ocr_page_number.

(** The same PDF when the OCR engine fails on its third page. *)
Definition scanned_pdf_bad_ocr : Backends nat nat :=
  numbered_backends [None; Some []; Some (py "  ")] (inr tt)
    decode_by_length (ocr_fails_from 2).

(** The same PDF when the rasteriser is not installed. *)
Definition scanned_pdf_no_rasteriser : Backends nat nat :=
  numbered_backends [None; Some []; Some (py "  ")] (inl (PyExc "ImportError"))
    decode_by_length ocr_page_number.

(** Collaborators with a given PDF reader and page text extractor; the
    rasteriser finds no page. *)
Definition reader_backends (reader : exn + list nat)
    (page_text : nat -> exn + option str) : Backends nat nat :=
  {| Image_open := decode_by_length;
     image_to_string := ocr_page_number;
     PdfReader_pages := fun _ => reader;
     page_extract_text := page_text;
     import_pdf2image := inr tt;
     convert_from_bytes := fun _ _ => inr [] |}.

(** A payload the PDF reader rejects. *)
Definition corrupt_pdf : Backends nat nat :=
  reader_backends (inl (PyExc "PdfReadError")) (fun _ => inr None).

(** A PDF of three pages whose second page cannot be read. *)
Definition bad_page_pdf : Backends nat nat :=
  reader_backends (inr [0; 1; 2])
    (fun p => if p =? 1 then inl (PyExc "KeyError") else inr (Some (py "text"))).

(** A scanned PDF of two pages on which the OCR engine sees nothing. *)
Definition blank_scan_pdf : Backends nat nat :=
  numbered_backends [None; Some (py " ")] (inr tt) decode_by_length
    (fun _ => inr (py "  " ++ newline)).

End Pipeline.
Import Pipeline.

(** * Properties *)

Unset Implicit Arguments.

(** ** The sample invoice line *)

(** The amount rule has no anchor: on the sample line its leftmost match
    is the first digit run of the invoice number. *)
Lemma sample_amount_search :
  option_map group0 (search amount_re sample_text) = Some (py "202").
Proof. vm_compute. reflexivity. Qed.

(** C1, as stated, fails: on the sample line the amount field does not
    contain "1,250.00". *)
Lemma sample_fields_amount_counterexample :
  ~ (invoice_number (extract_fields sample_text) = Some (py "INV-2023-045")
     /\ email (extract_fields sample_text) = Some (py "billing@example.com")
     /\ (exists v, amount (extract_fields sample_text) = Some v
                   /\ contains (py "1,250.00") v = true)
     /\ date (extract_fields sample_text) = Some (py "12/31/2023")).
Proof.
  intros (_ & _ & (v & Hv & Hc) & _).
  vm_compute in Hv. injection Hv as <-.
  vm_compute in Hc. discriminate Hc.
Qed.

(** C1 (amended): on the sample line [extract_fields] returns the
    invoice number "INV-2023-045", the email "billing@example.com", the
    date "12/31/2023", and the amount "202", the leftmost digit run of
    the text. *)
Theorem sample_fields :
  extract_fields sample_text =
    {| invoice_number := Some (py "INV-2023-045");
       amount := Some (py "202");
       email := Some (py "billing@example.com");
       date := Some (py "12/31/2023") |}.
Proof. vm_compute. reflexivity. Qed.

(** ** The PDF path *)

Section PdfPath.

Variables image page : Type.
Variable B : Backends image page.

Lemma read_pages_ok pages texts :
  pages_read B pages texts ->
  forall text log,
    read_pages B pages text log =
      (log ++ map EvPageText pages,
       inr (text ++ concat (map (fun t => or_empty t ++ newline) texts))).
Proof.
  induction 1 as [|p t ps ts Hp _ IH]; intros text log; simpl.
  - now rewrite !app_nil_r.
  - unfold bind, call. rewrite Hp, IH.
    now rewrite <- !app_assoc.
Qed.

Lemma ocr_pages_ok images outs :
  ocr_returns B images outs ->
  forall acc log,
    ocr_pages B images acc log = (log ++ map EvOcr images, inr (acc ++ outs)).
Proof.
  induction 1 as [|img o imgs os Hi _ IH]; intros acc log; simpl.
  - now rewrite !app_nil_r.
  - unfold bind, call. rewrite Hi, IH.
    now rewrite <- !app_assoc.
Qed.

Lemma ocr_pages_raise pre outs bad post e :
  ocr_returns B pre outs ->
  image_to_string B bad = inl e ->
  forall acc log,
    ocr_pages B (pre ++ bad :: post) acc log =
      (log ++ map EvOcr pre ++ [EvOcr bad], inl e).
Proof.
  intros Hpre Hbad.
  induction Hpre as [|img o imgs os Hi _ IH]; intros acc log; simpl.
  - unfold bind, call. now rewrite Hbad.
  - unfold bind, call. rewrite Hi, IH.
    now rewrite <- !app_assoc.
Qed.

(** The first image on which the engine raises splits the list. *)
Lemma first_ocr_failure images :
  Exists (fun img => exists e, image_to_string B img = inl e) images ->
  exists pre bad post outs e,
    images = pre ++ bad :: post /\ ocr_returns B pre outs
    /\ image_to_string B bad = inl e.
Proof.
  induction images as [|img imgs IH]; intros Hex.
  - inversion Hex.
  - destruct (image_to_string B img) as [e|o] eqn:Himg.
    + exists [], img, imgs, [], e. repeat split; [constructor | exact Himg].
    + assert (Htl : Exists (fun i => exists e, image_to_string B i = inl e) imgs).
      { inversion Hex as [? ? [e He]|]; subst; [congruence | assumption]. }
      destruct (IH Htl) as (pre & bad & post & outs & e & -> & Hpre & Hbad).
      exists (img :: pre), bad, post, (o :: outs), e.
      repeat split; [constructor; assumption | exact Hbad].
Qed.

Lemma ocr_calls_app (l1 l2 : list (event image page)) :
  ocr_calls (l1 ++ l2) = ocr_calls l1 ++ ocr_calls l2.
Proof.
  induction l1 as [|ev l1 IH]; simpl; [reflexivity|].
  destruct ev; simpl; now rewrite IH.
Qed.

Lemma ocr_calls_pages (pages : list page) :
  ocr_calls (map (@EvPageText image page) pages) = [].
Proof. induction pages; simpl; auto. Qed.

Lemma ocr_calls_ocr (images : list image) :
  ocr_calls (map (@EvOcr image page) images) = images.
Proof. induction images; simpl; congruence. Qed.

Lemma is_empty_true (s : str) : is_empty s = true <-> s = [].
Proof. destruct s; simpl; split; congruence. Qed.

(** The run of the first phase, up to the test on the stripped text. *)
Lemma extract_text_from_pdf_phase1 pdf pages texts log :
  PdfReader_pages B pdf = inr pages ->
  pages_read B pages texts ->
  extract_text_from_pdf B pdf log =
    (if is_empty (phase1_text texts)
     then try_except (ocr_fallback B pdf) (fun _ => ret [])
     else ret (phase1_text texts))
      (log ++ EvPdfOpen pdf :: map EvPageText pages).
Proof.
  intros Hopen Hread. unfold extract_text_from_pdf, bind at 1, call.
  rewrite Hopen. unfold bind.
  rewrite (read_pages_ok _ _ Hread). simpl app at 2.
  rewrite <- app_assoc. reflexivity.
Qed.

Lemma extract_text_from_pdf_phase2 pdf pages texts log :
  PdfReader_pages B pdf = inr pages ->
  pages_read B pages texts ->
  phase1_text texts = [] ->
  extract_text_from_pdf B pdf log =
    try_except (ocr_fallback B pdf) (fun _ => ret [])
      (log ++ EvPdfOpen pdf :: map EvPageText pages).
Proof.
  intros Hopen Hread He.
  rewrite (extract_text_from_pdf_phase1 _ _ _ log Hopen Hread), He.
  reflexivity.
Qed.

(** C2: when the page-by-page extraction yields text that is not empty
    once stripped, [extract_text_from_pdf] returns that stripped text
    and makes no call to the rasteriser or to the OCR engine: its calls
    are the opening of the PDF and one text extraction per page.  Pages
    without text are allowed. *)
Theorem pdf_text_layer_skips_ocr pdf pages texts log :
  PdfReader_pages B pdf = inr pages ->
  pages_read B pages texts ->
  phase1_text texts <> [] ->
  extract_text_from_pdf B pdf log =
    (log ++ EvPdfOpen pdf :: map EvPageText pages, inr (phase1_text texts))
  /\ ocr_calls (fst (extract_text_from_pdf B pdf log)) = ocr_calls log.
Proof.
  intros Hopen Hread Hne.
  rewrite (extract_text_from_pdf_phase1 _ _ _ log Hopen Hread).
  destruct (is_empty (phase1_text texts)) eqn:He.
  - apply is_empty_true in He. contradiction.
  - unfold ret. simpl fst. split; [reflexivity|].
    rewrite ocr_calls_app. simpl. rewrite ocr_calls_pages. apply app_nil_r.
Qed.

(** C3: when the first phase yields nothing and the rasteriser and the
    OCR engine return, [extract_text_from_pdf] rasterises at 300 dpi,
    calls the engine exactly once on each page image, in page order,
    and returns the outputs joined by a newline in that order and
    stripped. *)
Theorem pdf_scanned_ocr_each_page pdf pages texts images outs log :
  PdfReader_pages B pdf = inr pages ->
  pages_read B pages texts ->
  phase1_text texts = [] ->
  import_pdf2image B = inr tt ->
  convert_from_bytes B pdf 300 = inr images ->
  ocr_returns B images outs ->
  extract_text_from_pdf B pdf log =
    (log ++ EvPdfOpen pdf :: map EvPageText pages
         ++ [EvImport; EvRasterize pdf 300] ++ map EvOcr images,
     inr (strip (join newline outs)))
  /\ ocr_calls (fst (extract_text_from_pdf B pdf log)) = ocr_calls log ++ images.
Proof.
  intros Hopen Hread He Himp Hconv Hocr.
  rewrite (extract_text_from_pdf_phase2 _ _ _ log Hopen Hread He).
  unfold try_except, ocr_fallback, bind, call.
  rewrite Himp. cbv beta iota. rewrite Hconv. cbv beta iota.
  rewrite (ocr_pages_ok _ _ Hocr). unfold ret. cbv beta iota. simpl fst. simpl app at 1.
  split.
  - f_equal. repeat rewrite <- app_assoc. reflexivity.
  - repeat rewrite ocr_calls_app. simpl.
    rewrite ocr_calls_pages, ocr_calls_ocr, !app_nil_r. reflexivity.
Qed.

(** C4: on a PDF whose first phase yields nothing, when the import of
    the rasteriser raises, or the rasteriser raises, or the OCR engine
    raises on some page image, [extract_text_from_pdf] returns the empty
    string and raises nothing. *)
Theorem pdf_fallback_failure_gives_empty pdf pages texts log :
  PdfReader_pages B pdf = inr pages ->
  pages_read B pages texts ->
  phase1_text texts = [] ->
  (exists e, import_pdf2image B = inl e)
  \/ (exists e, convert_from_bytes B pdf 300 = inl e)
  \/ (exists images, convert_from_bytes B pdf 300 = inr images
        /\ Exists (fun img => exists e, image_to_string B img = inl e) images) ->
  snd (extract_text_from_pdf B pdf log) = inr [].
Proof.
  intros Hopen Hread He Hfail.
  rewrite (extract_text_from_pdf_phase2 _ _ _ log Hopen Hread He).
  unfold try_except, ocr_fallback, bind at 1, call at 1.
  destruct (import_pdf2image B) as [e0|[]] eqn:Himp; [reflexivity|].
  unfold bind at 1, call at 1.
  destruct (convert_from_bytes B pdf 300) as [e1|images] eqn:Hconv; [reflexivity|].
  destruct Hfail as [[e H]|[[e H]|(imgs & H & Hex)]]; try discriminate H.
  injection H as <-.
  destruct (first_ocr_failure _ Hex) as (pre & bad & post & outs & e & -> & Hpre & Hbad).
  unfold bind. rewrite (ocr_pages_raise _ _ _ post _ Hpre Hbad). reflexivity.
Qed.

(** C10: when the OCR engine raises on a page image, the outputs it
    gave for the pages before are dropped: the engine was called on
    those pages and on the failing one, on no later page, and
    [extract_text_from_pdf] returns the empty string. *)
Theorem pdf_fallback_all_or_nothing pdf pages texts pre bad post outs e log :
  PdfReader_pages B pdf = inr pages ->
  pages_read B pages texts ->
  phase1_text texts = [] ->
  import_pdf2image B = inr tt ->
  convert_from_bytes B pdf 300 = inr (pre ++ bad :: post) ->
  ocr_returns B pre outs ->
  image_to_string B bad = inl e ->
  extract_text_from_pdf B pdf log =
    (log ++ EvPdfOpen pdf :: map EvPageText pages
         ++ [EvImport; EvRasterize pdf 300] ++ map EvOcr pre ++ [EvOcr bad],
     inr []).
Proof.
  intros Hopen Hread He Himp Hconv Hpre Hbad.
  rewrite (extract_text_from_pdf_phase2 _ _ _ log Hopen Hread He).
  unfold try_except, ocr_fallback, bind, call.
  rewrite Himp. cbv beta iota. rewrite Hconv. cbv beta iota.
  rewrite (ocr_pages_raise _ _ _ post _ Hpre Hbad). unfold ret. cbv beta iota.
  f_equal. repeat rewrite <- app_assoc. reflexivity.
Qed.

End PdfPath.

Lemma pdf_text_layer_skips_ocr_witness :
  extract_text_from_pdf mixed_pdf payload [] =
    ([EvPdfOpen payload; EvPageText 0; EvPageText 1; EvPageText 2],
     inr (py "Total 42"))
  /\ ocr_calls (fst (extract_text_from_pdf mixed_pdf payload [])) = [].
Proof.
  apply (pdf_text_layer_skips_ocr nat nat mixed_pdf payload [0; 1; 2]
           [Some (py "Total 42"); None; Some []] []).
  - reflexivity.
  - repeat constructor.
  - vm_compute. discriminate.
Defined.

Lemma pdf_scanned_ocr_each_page_witness :
  extract_text_from_pdf scanned_pdf payload [] =
    ([EvPdfOpen payload; EvPageText 0; EvPageText 1; EvPageText 2;
      EvImport; EvRasterize payload 300; EvOcr 0; EvOcr 1; EvOcr 2],
     inr (py "Page 0" ++ newline ++ newline ++ py "Page 1" ++ newline ++ newline
          ++ py "Page 2"))
  /\ ocr_calls (fst (extract_text_from_pdf scanned_pdf payload [])) = [0; 1; 2].
Proof.
  apply (pdf_scanned_ocr_each_page nat nat scanned_pdf payload [0; 1; 2]
           [None; Some []; Some (py "  ")] [0; 1; 2]
           [py "Page 0" ++ newline; py "Page 1" ++ newline; py "Page 2" ++ newline] []).
  - reflexivity.
  - repeat constructor.
  - vm_compute. reflexivity.
  - reflexivity.
  - reflexivity.
  - repeat constructor.
Defined.

Lemma pdf_fallback_failure_gives_empty_witness :
  snd (extract_text_from_pdf scanned_pdf_no_rasteriser payload []) = inr []
  /\ snd (extract_text_from_pdf scanned_pdf_bad_ocr payload []) = inr [].
Proof.
  split.
  - apply (pdf_fallback_failure_gives_empty nat nat scanned_pdf_no_rasteriser payload
             [0; 1; 2] [None; Some []; Some (py "  ")] []).
    + reflexivity.
    + repeat constructor.
    + vm_compute. reflexivity.
    + left. exists (PyExc "ImportError"). reflexivity.
  - apply (pdf_fallback_failure_gives_empty nat nat scanned_pdf_bad_ocr payload
             [0; 1; 2] [None; Some []; Some (py "  ")] []).
    + reflexivity.
    + repeat constructor.
    + vm_compute. reflexivity.
    + right. right. exists [0; 1; 2]. split; [reflexivity|].
      apply Exists_cons_tl, Exists_cons_tl, Exists_cons_hd.
      exists (PyExc "TesseractError"). reflexivity.
Defined.

Lemma pdf_fallback_all_or_nothing_witness :
  extract_text_from_pdf scanned_pdf_bad_ocr payload [] =
    ([EvPdfOpen payload; EvPageText 0; EvPageText 1; EvPageText 2;
      EvImport; EvRasterize payload 300; EvOcr 0; EvOcr 1; EvOcr 2],
     inr []).
Proof.
  apply (pdf_fallback_all_or_nothing nat nat scanned_pdf_bad_ocr payload [0; 1; 2]
           [None; Some []; Some (py "  ")] [0; 1] 2 []
           [py "Page 0" ++ newline; py "Page 1" ++ newline]
           (PyExc "TesseractError") []).
  - reflexivity.
  - repeat constructor.
  - vm_compute. reflexivity.
  - reflexivity.
  - reflexivity.
  - repeat constructor.
  - reflexivity.
Defined.

(** ** The dispatch of [upload] *)

Section Upload.

Variables image page : Type.
Variable B : Backends image page.

Lemma str_eqb_eq (a b : str) : str_eqb a b = true <-> a = b.
Proof.
  unfold str_eqb. destruct (list_eq_dec N.eq_dec a b); split; congruence.
Qed.

Lemma image_types_mem (ct : str) :
  existsb (str_eqb ct) image_types = true <-> In ct image_types.
Proof.
  rewrite existsb_exists. split.
  - intros (x & Hin & Heq). apply str_eqb_eq in Heq. now subst.
  - intros Hin. exists ct. split; [assumption | now apply str_eqb_eq].
Qed.

Lemma pdf_type_not_image : existsb (str_eqb pdf_type) image_types = false.
Proof. vm_compute. reflexivity. Qed.

(** The row [upload] stores for the extracted text [s]. *)
Lemma upload_stored content file_ct log log' s :
  upload_text B content (or_empty file_ct) log = (log', inr (inr s)) ->
  upload B content file_ct log =
    (log', inr (Stored {| doc_content_type := or_empty file_ct;
                          doc_text := strip s;
                          doc_fields := extract_fields (strip s) |})).
Proof.
  intros H. unfold upload, bind. rewrite H. reflexivity.
Qed.

(** C5 (amended): for a declared image type, [upload] decodes the
    payload.  A payload that the decoder rejects makes [upload] raise
    the decoder's exception, with no call of the OCR engine.  When the
    payload decodes and the OCR engine returns, the engine has been
    called once and the extracted text is its output for the decoded
    image (stored stripped).  The statement says nothing of an engine
    that raises on a decoded image. *)
Theorem image_type_runs_ocr content file_ct log :
  In (or_empty file_ct) image_types ->
  match Image_open B content with
  | inl e =>
      upload B content file_ct log = (log ++ [EvImageOpen content], inl e)
  | inr img =>
      forall s,
        image_to_string B img = inr s ->
        upload_text B content (or_empty file_ct) log =
          (log ++ [EvImageOpen content; EvOcr img], inr (inr s))
        /\ upload B content file_ct log =
             (log ++ [EvImageOpen content; EvOcr img],
              inr (Stored {| doc_content_type := or_empty file_ct;
                             doc_text := strip s;
                             doc_fields := extract_fields (strip s) |}))
  end.
Proof.
  intros Hin. apply image_types_mem in Hin.
  assert (Htext : upload_text B content (or_empty file_ct) log =
                  bind (ocr_image_bytes B content) (fun t => ret (inr t)) log).
  { unfold upload_text. rewrite Hin. reflexivity. }
  unfold ocr_image_bytes, bind, call, ret in Htext.
  destruct (Image_open B content) as [e|img] eqn:Hopen.
  - unfold upload, bind at 1. rewrite Htext. reflexivity.
  - intros s Hocr.
    rewrite <- app_assoc in Htext. simpl app in Htext.
    rewrite Hocr in Htext.
    split; [exact Htext | apply upload_stored; exact Htext].
Qed.

(** C6: for a declared type that is neither a recognised image type nor
    PDF, [upload] makes one attempt to decode the payload as an image
    and to OCR it.  When the decoder or the engine raises, the caller
    gets the error response "Unsupported file type: <type>", and nothing
    is retried; when both return, the engine's output is the extracted
    text (stored stripped).  The error response arises in no other
    case. *)
Theorem unknown_type_last_resort content file_ct log :
  ~ In (or_empty file_ct) image_types ->
  or_empty file_ct <> pdf_type ->
  match Image_open B content with
  | inl _ =>
      upload B content file_ct log =
        (log ++ [EvImageOpen content],
         inr (BadRequest (py "Unsupported file type: " ++ or_empty file_ct)))
  | inr img =>
      match image_to_string B img with
      | inl _ =>
          upload B content file_ct log =
            (log ++ [EvImageOpen content; EvOcr img],
             inr (BadRequest (py "Unsupported file type: " ++ or_empty file_ct)))
      | inr s =>
          upload B content file_ct log =
            (log ++ [EvImageOpen content; EvOcr img],
             inr (Stored {| doc_content_type := or_empty file_ct;
                            doc_text := strip s;
                            doc_fields := extract_fields (strip s) |}))
      end
  end.
Proof.
  intros Hni Hnp.
  assert (H1 : existsb (str_eqb (or_empty file_ct)) image_types = false).
  { destruct (existsb _ image_types) eqn:E; [|reflexivity].
    apply image_types_mem in E. contradiction. }
  assert (H2 : str_eqb (or_empty file_ct) pdf_type = false).
  { destruct (str_eqb _ pdf_type) eqn:E; [|reflexivity].
    apply str_eqb_eq in E. contradiction. }
  assert (Htext : upload_text B content (or_empty file_ct) log =
            try_except (bind (ocr_image_bytes B content) (fun t => ret (inr t)))
              (fun _ => ret (inl (BadRequest
                 (py "Unsupported file type: " ++ or_empty file_ct)))) log).
  { unfold upload_text. rewrite H1, H2. reflexivity. }
  unfold try_except, ocr_image_bytes, bind, call, ret in Htext.
  destruct (Image_open B content) as [e|img] eqn:Hopen.
  - unfold upload, bind at 1. rewrite Htext. reflexivity.
  - rewrite <- app_assoc in Htext. simpl app in Htext.
    destruct (image_to_string B img) as [e|s] eqn:Hocr.
    + unfold upload, bind at 1. rewrite Htext. reflexivity.
    + apply upload_stored. exact Htext.
Qed.

End Upload.

(** C5, as stated, fails: a payload of a declared image type that the
    decoder rejects makes [upload] raise. *)
Lemma image_type_raises_counterexample :
  In (py "image/png") image_types
  /\ snd (upload_text mixed_pdf [] (py "image/png") [])
       = inl (PyExc "UnidentifiedImageError")
  /\ snd (upload mixed_pdf [] (Some (py "image/png")) [])
       = inl (PyExc "UnidentifiedImageError")
  /\ ~ (exists s, snd (upload_text mixed_pdf [] (py "image/png") []) = inr (inr s)).
Proof.
  split; [left; reflexivity|].
  split; [reflexivity|]. split; [reflexivity|].
  intros [s Hs]. vm_compute in Hs. discriminate Hs.
Qed.

Lemma image_type_runs_ocr_witness :
  upload_text mixed_pdf payload (py "image/png") [] =
    ([EvImageOpen payload; EvOcr 4], inr (inr (py "Page 4" ++ newline)))
  /\ upload mixed_pdf payload (Some (py "image/png")) [] =
       ([EvImageOpen payload; EvOcr 4],
        inr (Stored {| doc_content_type := py "image/png";
                       doc_text := py "Page 4";
                       doc_fields := Fields None (Some (py "4")) None None |})).
Proof.
  apply (image_type_runs_ocr nat nat mixed_pdf payload (Some (py "image/png")) []).
  - left. reflexivity.
  - reflexivity.
Defined.

Lemma unknown_type_last_resort_witness :
  upload mixed_pdf [] (Some (py "text/plain")) [] =
    ([EvImageOpen []], inr (BadRequest (py "Unsupported file type: text/plain"))).
Proof.
  apply (unknown_type_last_resort nat nat mixed_pdf [] (Some (py "text/plain")) []).
  - vm_compute. intuition discriminate.
  - vm_compute. discriminate.
Defined.

(** ** The matcher *)

Section Matcher.

(** Once [lo] rounds are done, a repetition followed by a continuation
    that accepts the current state finds a match. *)
Lemma rep_loop_stop body lo hi (k : cont) fuel n st :
  lo <= n -> k st <> None -> rep_loop body lo hi k fuel n st <> None.
Proof.
  intros Hlo Hk. apply Nat.leb_le in Hlo.
  destruct fuel; simpl; rewrite Hlo; [exact Hk|].
  destruct (below n hi); [|exact Hk].
  destruct (body st _); [discriminate | exact Hk].
Qed.

Lemma rep_loop_sound body (R : mstate -> str -> mstate -> Prop) lo hi (k : cont) :
  (forall st k' x, body st k' = Some x ->
     exists w st', R st w st' /\ k' st' = Some x) ->
  forall fuel n st x,
    (forall h, hi = Some h -> n <= h) ->
    rep_loop body lo hi k fuel n st = Some x ->
    exists j w st',
      iter R j st w st' /\ lo <= n + j
      /\ (forall h, hi = Some h -> n + j <= h) /\ k st' = Some x.
Proof.
  intros Hbody.
  assert (Hstop : forall n st x,
            (forall h, hi = Some h -> n <= h) ->
            (if lo <=? n then k st else None) = Some x ->
            exists j w st',
              iter R j st w st' /\ lo <= n + j
              /\ (forall h, hi = Some h -> n + j <= h) /\ k st' = Some x).
  { intros n st x Hhi H. destruct (lo <=? n) eqn:Hlo; [|discriminate].
    apply Nat.leb_le in Hlo. exists 0, [], st. rewrite Nat.add_0_r.
    simpl. auto. }
  induction fuel as [|fuel IH]; intros n st x Hhi H; simpl in H.
  - now apply Hstop.
  - destruct (below n hi) eqn:Hb; [|now apply Hstop].
    destruct (body st _) as [m|] eqn:Hm; [|now apply Hstop].
    injection H as ->.
    apply Hbody in Hm. destruct Hm as (w1 & st1 & HR & Hk).
    destruct (length (after st1) <? length (after st)); [|discriminate].
    apply IH in Hk.
    + destruct Hk as (j & w2 & st' & Hit & Hlo & Hh & Hk).
      exists (S j), (w1 ++ w2), st'. simpl. repeat split.
      * exists w1, st1, w2. auto.
      * lia.
      * intros h E. specialize (Hh h E). lia.
      * exact Hk.
    + intros h E. subst hi. simpl in Hb. apply Nat.ltb_lt in Hb. lia.
Qed.

(** Whatever the matcher returns comes from a way of matching the
    pattern that the continuation accepted. *)
Lemma exec_sound r : forall st (k : cont) x,
  exec r st k = Some x -> exists w st', matches r st w st' /\ k st' = Some x.
Proof.
  induction r as [p| |r1 IH1 r2 IH2|r1 IH1 r2 IH2|lo hi r1 IH1|g r1 IH1|p|];
    intros st k x H; simpl in H.
  - destruct st as [b a cs]; simpl in *.
    destruct a as [|c tl]; [discriminate|].
    destruct (p c) eqn:Hp; [|discriminate].
    exists [c], (MState (c :: b) tl cs). split; [|exact H].
    simpl. exists c. auto.
  - exists [], st. simpl. auto.
  - apply IH1 in H. destruct H as (w1 & st1 & H1 & H).
    apply IH2 in H. destruct H as (w2 & st' & H2 & H).
    exists (w1 ++ w2), st'. split; [|exact H]. simpl. exists w1, st1, w2. auto.
  - destruct (exec r1 st k) as [m|] eqn:E.
    + injection H as ->. apply IH1 in E. destruct E as (w & st' & Hm & Hk).
      exists w, st'. simpl. auto.
    + apply IH2 in H. destruct H as (w & st' & Hm & Hk).
      exists w, st'. simpl. auto.
  - apply (rep_loop_sound (exec r1) (matches r1) lo hi k IH1) in H.
    + destruct H as (j & w & st' & Hit & Hlo & Hh & Hk).
      exists w, st'. split; [|exact Hk]. simpl. exists j. auto.
    + intros h _. lia.
  - apply IH1 in H. destruct H as (w & st1 & Hm & Hk).
    exists w, (set_group g (pos st) (pos st1) st1). split; [|exact Hk].
    simpl. exists st1. auto.
  - exists [], st. simpl.
    destruct (before st) as [|c tl] eqn:Hb.
    + auto.
    + destruct (p c) eqn:Hp; [discriminate|]. auto.
  - destruct (xorb (word_before st) (word_after st)) eqn:Hx; [|discriminate].
    exists [], st. simpl. auto.
Qed.

Lemma span_nil st : span st [] st.
Proof. split; reflexivity. Qed.

Lemma span_app st w1 st1 w2 st' :
  span st w1 st1 -> span st1 w2 st' -> span st (w1 ++ w2) st'.
Proof.
  intros [A1 B1] [A2 B2]. split.
  - now rewrite A1, A2, app_assoc.
  - now rewrite B2, B1, rev_app_distr, app_assoc.
Qed.

Lemma iter_span R :
  (forall st w st', R st w st' -> span st w st') ->
  forall n st w st', iter R n st w st' -> span st w st'.
Proof.
  intros HR. induction n as [|n IH]; intros st w st' H; simpl in H.
  - destruct H as [-> ->]. apply span_nil.
  - destruct H as (w1 & st1 & w2 & -> & H1 & H2).
    eapply span_app; eauto.
Qed.

Lemma matches_span r : forall st w st', matches r st w st' -> span st w st'.
Proof.
  induction r as [p| |r1 IH1 r2 IH2|r1 IH1 r2 IH2|lo hi r1 IH1|g r1 IH1|p|];
    intros st w st' H; simpl in H.
  - destruct H as (c & _ & -> & Ha & Hb & _). split; simpl; assumption.
  - destruct H as [-> ->]. apply span_nil.
  - destruct H as (w1 & st1 & w2 & -> & H1 & H2). eapply span_app; eauto.
  - destruct H; auto.
  - destruct H as (n & _ & _ & H). eapply iter_span; eauto.
  - destruct H as (st1 & H & ->). apply IH1 in H. exact H.
  - destruct H as (-> & -> & _). apply span_nil.
  - destruct H as (-> & -> & _). apply span_nil.
Qed.

(** [re.search] finds a match as soon as one exists at some start. *)
Lemma search_from_complete r a1 : forall b a2,
  match_at r (rev a1 ++ b) a2 <> None -> search_from r b (a1 ++ a2) <> None.
Proof.
  induction a1 as [|c a1 IH]; intros b a2 H; simpl in H.
  - destruct a2; simpl; destruct (match_at r b _); congruence.
  - simpl. destruct (match_at r b (c :: a1 ++ a2)); [discriminate|].
    apply IH. now rewrite <- app_assoc in H.
Qed.

(** The match [re.search] returns starts at the leftmost position where
    the pattern matches. *)
Lemma search_from_first r a : forall b m,
  search_from r b a = Some m ->
  exists a1 a2,
    a = a1 ++ a2 /\ match_at r (rev a1 ++ b) a2 = Some m
    /\ forall a1' a2', a = a1' ++ a2' -> length a1' < length a1 ->
         match_at r (rev a1' ++ b) a2' = None.
Proof.
  induction a as [|c a IH]; intros b m H; simpl in H.
  - destruct (match_at r b []) as [m'|] eqn:E; [|discriminate].
    injection H as ->. exists [], []. repeat split; [exact E|].
    intros a1' a2' _ Hlt. simpl in Hlt. lia.
  - destruct (match_at r b (c :: a)) as [m'|] eqn:E.
    + injection H as ->. exists [], (c :: a). repeat split; [exact E|].
      intros a1' a2' _ Hlt. simpl in Hlt. lia.
    + apply IH in H. destruct H as (a1 & a2 & -> & Hm & Hfirst).
      exists (c :: a1), a2. repeat split.
      * simpl. now rewrite <- app_assoc.
      * intros a1' a2' Heq Hlt. destruct a1' as [|c' a1'].
        -- simpl in Heq. subst a2'. exact E.
        -- simpl in Heq. injection Heq as <- Heq. simpl.
           rewrite <- app_assoc. apply Hfirst; [exact Heq | simpl in Hlt; lia].
Qed.

End Matcher.

(** ** Strings *)

Section Strings.

Lemma lstrip_keep c s : isspace c = false -> lstrip (c :: s) = c :: s.
Proof. intros H. simpl. now rewrite H. Qed.

Lemma rstrip_keep s z : isspace z = false -> rstrip (s ++ [z]) = s ++ [z].
Proof.
  intros Hz. unfold rstrip. rewrite rev_unit, (lstrip_keep _ _ Hz).
  simpl. now rewrite rev_involutive.
Qed.

(** [strip] leaves alone a string that neither starts nor ends with
    white space. *)
Lemma strip_keep s c s1 s2 z :
  s = c :: s1 -> s = s2 ++ [z] ->
  isspace c = false -> isspace z = false -> strip s = s.
Proof.
  intros E1 E2 Hc Hz. unfold strip.
  rewrite E1 at 1. rewrite (lstrip_keep _ _ Hc), <- E1.
  rewrite E2. now apply rstrip_keep.
Qed.

Lemma strip_leading c s :
  isspace c = true -> strip (c :: s) = strip s.
Proof. intros H. unfold strip. simpl. now rewrite H. Qed.

Lemma digit09_not_space c : digit09 c = true -> isspace c = false.
Proof.
  unfold digit09, in_range. simpl. rewrite andb_true_iff, !N.leb_le. intros [H1 H2].
  destruct (isspace c) eqn:E; [|reflexivity].
  unfold isspace, in_ranges in E. apply existsb_exists in E.
  destruct E as (r & Hin & Hr). unfold in_range in Hr.
  rewrite andb_true_iff, !N.leb_le in Hr.
  simpl in Hin.
  repeat (destruct Hin as [<-|Hin]; [simpl in Hr; lia|]).
  contradiction.
Qed.

Lemma digit09_decimal c : digit09 c = true -> isdecimal c = true.
Proof.
  intros H. unfold isdecimal, in_ranges, decimal_ranges.
  rewrite existsb_exists. exists (0x30, 0x39)%N. split; [left; reflexivity | exact H].
Qed.

Lemma slice_mid (p w rest : str) i j :
  i = length p -> j = length p + length w -> slice (p ++ w ++ rest) i j = w.
Proof.
  intros -> ->. unfold slice.
  rewrite skipn_app, Nat.sub_diag, skipn_all. simpl.
  replace (length p + length w - length p) with (length w) by lia.
  rewrite firstn_app, Nat.sub_diag, firstn_all. simpl. apply app_nil_r.
Qed.

End Strings.

(** ** The amount rule *)

Section AmountRule.

Lemma matches_opt r st w st' :
  matches (opt r) st w st' -> (w = [] /\ st' = st) \/ matches r st w st'.
Proof.
  intros (n & _ & Hh & Hit). specialize (Hh 1 eq_refl).
  destruct n as [|[|n]]; [left; exact Hit | right | lia].
  destruct Hit as (w1 & st1 & w2 & -> & H1 & -> & ->).
  now rewrite app_nil_r.
Qed.

Lemma matches_chr c st w st' : matches (chr c) st w st' -> w = [c].
Proof.
  intros (c' & Hc & -> & _). apply N.eqb_eq in Hc. now subst.
Qed.

Lemma matches_lit s : forall st w st', matches (lit s) st w st' -> w = s.
Proof.
  induction s as [|c s IH]; intros st w st' H.
  - now destruct H as [-> _].
  - destruct H as (w1 & st1 & w2 & -> & H1 & H2).
    apply matches_chr in H1. apply IH in H2. now subst.
Qed.

Lemma iter_digits : forall n st w st',
  iter (matches (Char digit09)) n st w st' ->
  length w = n /\ Forall (fun c => digit09 c = true) w.
Proof.
  induction n as [|n IH]; intros st w st' H.
  - destruct H as [-> _]. split; [reflexivity | constructor].
  - destruct H as (w1 & st1 & w2 & -> & (c & Hc & -> & _) & H2).
    apply IH in H2. destruct H2 as [<- HF]. split; [reflexivity|].
    constructor; assumption.
Qed.

(** A run of at least one ASCII digit. *)
Lemma digits_shape lo hi st w st' :
  1 <= lo -> matches (Repeat lo hi (Char digit09)) st w st' ->
  digit_started w /\ digit_ended w.
Proof.
  intros Hlo (n & Hn & _ & Hit). apply iter_digits in Hit.
  destruct Hit as [Hlen HF]. split.
  - destruct w as [|d w']; [simpl in Hlen; lia|].
    exists d, w'. split; [reflexivity|]. now inversion HF.
  - destruct (exists_last (l := w)) as (w' & z & ->).
    + intros ->. simpl in Hlen. lia.
    + exists w', z. split; [reflexivity|].
      apply Forall_app in HF. destruct HF as [_ HF]. now inversion HF.
Qed.

Lemma digit_ended_app w1 w2 : digit_ended w2 -> digit_ended (w1 ++ w2).
Proof.
  intros (w' & z & -> & Hz). exists (w1 ++ w'), z. now rewrite app_assoc.
Qed.

Lemma digit_started_app w1 w2 : digit_started w1 -> digit_started (w1 ++ w2).
Proof.
  intros (d & w' & -> & Hd). exists d, (w' ++ w2). auto.
Qed.

Lemma iter_ended (R : mstate -> str -> mstate -> Prop) :
  (forall st w st', R st w st' -> digit_ended w) ->
  forall n st w st', iter R n st w st' -> w = [] \/ digit_ended w.
Proof.
  intros HR. induction n as [|n IH]; intros st w st' H.
  - left. now destruct H.
  - destruct H as (w1 & st1 & w2 & -> & H1 & H2). right.
    apply HR in H1. apply IH in H2. destruct H2 as [->|H2].
    + now rewrite app_nil_r.
    + now apply digit_ended_app.
Qed.

(** The numeric part starts and ends with an ASCII digit. *)
Lemma amount_number_shape st w st' :
  matches amount_number st w st' -> digit_started w /\ digit_ended w.
Proof.
  intros (w1 & st1 & w23 & -> & H1 & w2 & st2 & w3 & -> & H2 & H3).
  apply digits_shape in H1; [|lia]. destruct H1 as [Hs He].
  split; [now apply digit_started_app|].
  assert (E2 : w2 = [] \/ digit_ended w2).
  { destruct H2 as (n & _ & _ & Hit). revert Hit. apply iter_ended.
    intros s w s' (wa & sa & wb & -> & _ & Hb).
    apply digit_ended_app. apply digits_shape in Hb; [tauto | lia]. }
  assert (E3 : w3 = [] \/ digit_ended w3).
  { apply matches_opt in H3. destruct H3 as [[-> _]|H3]; [now left | right].
    destruct H3 as (wa & sa & wb & -> & _ & Hb).
    apply digit_ended_app. apply digits_shape in Hb; [tauto | lia]. }
  destruct E3 as [->|E3].
  - rewrite app_nil_r. destruct E2 as [->|E2].
    + now rewrite app_nil_r.
    + now apply digit_ended_app.
  - now apply digit_ended_app, digit_ended_app.
Qed.

(** The marker group reads one of the six words of [markers]. *)
Lemma currency_marker_words st w st' :
  matches currency_marker st w st' -> In w markers.
Proof.
  unfold currency_marker, markers.
  intros [H|[H|[H|[H|H]]]].
  - apply matches_lit in H. subst. left. reflexivity.
  - apply matches_lit in H. subst. right. left. reflexivity.
  - destruct H as (w1 & st1 & w2 & -> & H1 & H2).
    apply matches_lit in H1. subst w1.
    apply matches_opt in H2. destruct H2 as [[-> _]|H2].
    + do 3 right. left. reflexivity.
    + apply matches_chr in H2. subst. do 2 right. left. reflexivity.
  - apply matches_lit in H. subst. do 4 right. left. reflexivity.
  - apply matches_chr in H. subst. do 5 right. left. reflexivity.
Qed.

Lemma markers_start w :
  In w markers -> exists c s, w = c :: s /\ isspace c = false.
Proof.
  intros H. simpl in H.
  repeat (destruct H as [<-|H]; [eexists _, _; split; [reflexivity | vm_compute; reflexivity]|]).
  contradiction.
Qed.

(** The parts of a match of the amount rule: marker, separator and
    number make up group 0, and the number is group 1. *)
Lemma amount_match_shape b a m :
  match_at amount_re b a = Some m ->
  exists marker sp num,
    group0 m = marker ++ sp ++ num
    /\ group 1 m = Some num
    /\ (marker = [] \/ In marker markers)
    /\ (sp = [] \/ exists c, sp = [c] /\ isspace c = true)
    /\ digit_started num /\ digit_ended num
    /\ (exists rest, a = marker ++ sp ++ num ++ rest)
    /\ match b with c :: _ => isdecimal c = false | [] => True end.
Proof.
  unfold match_at. destruct (exec amount_re _ Some) as [x|] eqn:E; [|discriminate].
  intros [= <-]. apply exec_sound in E.
  destruct E as (w & st' & Hm & [= ->]).
  destruct Hm as (w0 & st1 & w123 & -> & (-> & -> & Hprev) & Hm).
  destruct Hm as (wm & st2 & w23 & -> & Hmk & Hm).
  destruct Hm as (ws & st3 & wn & -> & Hsp & st4 & Hnum & ->).
  pose proof (matches_span _ _ _ _ Hmk) as [A2 B2].
  pose proof (matches_span _ _ _ _ Hsp) as [A3 B3].
  pose proof (matches_span _ _ _ _ Hnum) as [A4 B4].
  simpl in A2, B2.
  exists wm, ws, wn.
  assert (Ha : a = wm ++ ws ++ wn ++ after st4) by (now rewrite A2, A3, A4).
  repeat split.
  - unfold group0. cbn [m_text m_start m_end]. rewrite Ha.
    replace (wm ++ ws ++ wn ++ after st4) with ((wm ++ ws ++ wn) ++ after st4)
      by (now rewrite <- !app_assoc).
    apply slice_mid; [now rewrite length_rev|].
    unfold pos, set_group. cbn [before]. rewrite B4, B3, B2.
    rewrite !length_app, !length_rev. lia.
  - unfold group. cbn [m_caps set_group caps lookup Nat.eqb m_text]. rewrite Ha.
    f_equal.
    replace (rev b ++ wm ++ ws ++ wn ++ after st4)
      with ((rev b ++ wm ++ ws) ++ wn ++ after st4)
      by (now rewrite <- !app_assoc).
    apply slice_mid; unfold pos.
    + rewrite B3, B2. rewrite !length_app, !length_rev. lia.
    + rewrite B4, B3, B2. rewrite !length_app, !length_rev. lia.
  - apply matches_opt in Hmk. destruct Hmk as [[-> _]|Hmk]; [now left | right].
    eapply currency_marker_words; eauto.
  - apply matches_opt in Hsp. destruct Hsp as [[-> _]|Hsp]; [now left | right].
    destruct Hsp as (c & Hc & -> & _). eauto.
  - apply amount_number_shape in Hnum. tauto.
  - apply amount_number_shape in Hnum. tauto.
  - now exists (after st4).
  - exact Hprev.
Qed.

End AmountRule.

Section AmountClaims.

Lemma match_at_start r b a m :
  match_at r b a = Some m -> m_start m = length b /\ m_text m = rev b ++ a.
Proof.
  unfold match_at. destruct (exec r _ Some); [|discriminate].
  intros [= <-]. split; reflexivity.
Qed.

Lemma amount_strip marker sp num :
  marker = [] \/ In marker markers ->
  sp = [] \/ (exists c, sp = [c] /\ isspace c = true) ->
  digit_started num -> digit_ended num ->
  strip (marker ++ sp ++ num) =
    if is_empty marker then num else marker ++ sp ++ num.
Proof.
  intros Hm Hs (d & w1 & E1 & Hd) (w2 & z & E2 & Hz).
  apply digit09_not_space in Hd, Hz.
  assert (Hnum : strip num = num) by (eapply strip_keep; eauto).
  destruct Hm as [->|Hm].
  - simpl. destruct Hs as [->|(c & -> & Hc)]; [exact Hnum|].
    simpl. now rewrite (strip_leading _ _ Hc).
  - apply markers_start in Hm. destruct Hm as (c & s & -> & Hc).
    simpl is_empty. cbv iota.
    apply (strip_keep _ c (s ++ sp ++ num) ((c :: s) ++ sp ++ w2) z);
      [reflexivity | | exact Hc | exact Hz].
    rewrite E2. now rewrite <- !app_assoc.
Qed.

(** C7 (amended): when the amount rule matches, the match taken is the
    leftmost one, and the stored value is its span with surrounding
    white space stripped.  The span is an optional marker, an optional
    white-space character and the number (group 1).  With a marker the
    stored value is the whole span, marker and number; without one it
    is the number alone, a leading white-space character of the span
    being dropped. *)
Theorem amount_value_is_stripped_span text m :
  search amount_re text = Some m ->
  (forall a1 a2, text = a1 ++ a2 -> length a1 < m_start m ->
     match_at amount_re (rev a1) a2 = None)
  /\ exists marker sp num,
       group0 m = marker ++ sp ++ num
       /\ group 1 m = Some num
       /\ (marker = [] \/ In marker markers)
       /\ (sp = [] \/ exists c, sp = [c] /\ isspace c = true)
       /\ amount (extract_fields text) = Some (strip (group0 m))
       /\ strip (group0 m) = if is_empty marker then num else group0 m.
Proof.
  intros Hs. pose proof Hs as Hs'. unfold search in Hs'.
  apply search_from_first in Hs'.
  destruct Hs' as (a1 & a2 & -> & Hm & Hfirst).
  rewrite app_nil_r in Hm.
  pose proof (match_at_start _ _ _ _ Hm) as [Hstart _].
  rewrite length_rev in Hstart.
  split.
  - intros a1' a2' Heq Hlt. rewrite Hstart in Hlt.
    specialize (Hfirst a1' a2' Heq Hlt). now rewrite app_nil_r in Hfirst.
  - apply amount_match_shape in Hm.
    destruct Hm as (marker & sp & num & H0 & H1 & Hmk & Hsp & Hds & Hde & _).
    exists marker, sp, num. repeat split; try assumption.
    + unfold extract_fields. cbn [amount]. now rewrite Hs.
    + rewrite H0. now apply amount_strip.
Qed.

Lemma exec_repeat0 hi r st (k : cont) :
  k st <> None -> exec (Repeat 0 hi r) st k <> None.
Proof. intros H. simpl. apply rep_loop_stop; [lia | exact H]. Qed.

Lemma exec_digits1 hi b d post cs (k : cont) :
  digit09 d = true -> below 0 hi = true ->
  (forall st, k st <> None) ->
  exec (Repeat 1 hi (Char digit09)) (MState b (d :: post) cs) k <> None.
Proof.
  intros Hd Hhi Hk. simpl. rewrite Hhi, Hd.
  assert (Hlt : (length post <? S (length post)) = true) by (apply Nat.ltb_lt; lia).
  rewrite Hlt.
  destruct (rep_loop _ 1 hi k (length post) 1 _) eqn:E; [discriminate|].
  exfalso. revert E. apply rep_loop_stop; [lia | apply Hk].
Qed.

(** The amount rule matches at an ASCII digit that no decimal digit
    precedes. *)
Lemma amount_match_at_digit b d post :
  digit09 d = true ->
  match b with c :: _ => isdecimal c = false | [] => True end ->
  match_at amount_re b (d :: post) <> None.
Proof.
  intros Hd Hb.
  assert (H : exec amount_re (MState b (d :: post) []) Some <> None).
  { unfold amount_re. cbn [exec before].
    assert (Hgo : exec (opt currency_marker) (MState b (d :: post) [])
                    (fun st1 => exec (Cat (opt (Char isspace)) (Group 1 amount_number))
                                  st1 Some) <> None).
    { apply exec_repeat0. cbn [exec]. apply exec_repeat0.
      unfold amount_number. cbn [exec].
      apply exec_digits1; [exact Hd | reflexivity|].
      intros st. apply exec_repeat0, exec_repeat0. discriminate. }
    destruct b as [|c b']; [exact Hgo|]. rewrite Hb. exact Hgo. }
  unfold match_at. destruct (exec amount_re _ Some); [discriminate | contradiction].
Qed.

Lemma search_amount_at_digit pre d post :
  digit09 d = true ->
  ends_with_decimal pre = false ->
  search amount_re (pre ++ d :: post) <> None.
Proof.
  intros Hd Hpre.
  unfold search. apply search_from_complete. rewrite app_nil_r.
  apply amount_match_at_digit; [exact Hd|].
  unfold ends_with_decimal in Hpre. destruct (rev pre); [exact I | exact Hpre].
Qed.

Lemma amount_of_search text :
  amount (extract_fields text) <> None <-> search amount_re text <> None.
Proof.
  unfold extract_fields. cbn [amount].
  destruct (search amount_re text); split; intros H; congruence.
Qed.

(** C8 (amended): when the text holds an ASCII digit that no decimal
    digit of any script immediately precedes, the amount field is set. *)
Theorem amount_set_on_digit pre d post :
  digit09 d = true ->
  ends_with_decimal pre = false ->
  amount (extract_fields (pre ++ d :: post)) <> None.
Proof.
  intros Hd Hpre. apply amount_of_search.
  now apply search_amount_at_digit.
Qed.

(** The leftmost ASCII digit of a text. *)
Lemma first_digit text :
  (exists d, In d text /\ digit09 d = true) ->
  exists pre d post,
    text = pre ++ d :: post /\ digit09 d = true
    /\ Forall (fun c => digit09 c = false) pre.
Proof.
  induction text as [|c text IH]; intros (d & Hin & Hd).
  - inversion Hin.
  - destruct (digit09 c) eqn:Hc.
    + exists [], c, text. repeat split; [exact Hc | constructor].
    + destruct IH as (pre & d' & post & -> & Hd' & Hpre).
      * exists d. split; [|exact Hd].
        destruct Hin as [->|Hin]; [congruence | exact Hin].
      * exists (c :: pre), d', post. repeat split; [exact Hd'|].
        constructor; assumption.
Qed.

(** In particular the amount field is set on every text that holds an
    ASCII digit and no decimal digit of another script. *)
Lemma amount_set_ascii_digits text :
  (exists d, In d text /\ digit09 d = true) ->
  (forall c, In c text -> isdecimal c = true -> digit09 c = true) ->
  amount (extract_fields text) <> None.
Proof.
  intros Hex Hascii.
  destruct (first_digit text Hex) as (pre & d & post & -> & Hd & Hpre).
  apply amount_of_search. apply search_amount_at_digit; [exact Hd|].
  unfold ends_with_decimal. destruct (rev pre) as [|c tl] eqn:Hrev; [reflexivity|].
  assert (Hin : In c pre) by (apply in_rev; rewrite Hrev; now left).
  destruct (isdecimal c) eqn:Hdec; [|reflexivity].
  rewrite Forall_forall in Hpre. specialize (Hpre c Hin).
  rewrite Hascii in Hpre; [discriminate | | exact Hdec].
  apply in_or_app. now left.
Qed.

Lemma in_ranges_apart t1 t2 c :
  ranges_apart t1 t2 = true -> in_ranges t1 c = true -> in_ranges t2 c = false.
Proof.
  unfold ranges_apart, in_ranges. intros Hap H1.
  apply existsb_exists in H1. destruct H1 as (r & Hr & Hc).
  rewrite forallb_forall in Hap. specialize (Hap r Hr).
  rewrite forallb_forall in Hap.
  destruct (existsb (in_range c) t2) eqn:E; [|reflexivity].
  apply existsb_exists in E. destruct E as (r' & Hr' & Hc').
  specialize (Hap r' Hr'). unfold in_range in Hc, Hc'.
  rewrite andb_true_iff, !N.leb_le in Hc, Hc'.
  rewrite orb_true_iff, !N.ltb_lt in Hap. lia.
Qed.

Lemma space_not_decimal c : isspace c = true -> isdecimal c = false.
Proof. apply in_ranges_apart. vm_compute. reflexivity. Qed.

Lemma markers_end w :
  In w markers -> exists z s, rev w = z :: s /\ isdecimal z = false.
Proof.
  intros H. simpl in H.
  repeat (destruct H as [<-|H];
          [eexists _, _; split; [reflexivity | vm_compute; reflexivity]|]).
  contradiction.
Qed.

(** The condition of C8 (amended) is also necessary: a set amount field
    comes with an ASCII digit that no decimal digit precedes. *)
Lemma amount_set_only_on_digit text :
  amount (extract_fields text) <> None ->
  exists pre d post,
    text = pre ++ d :: post /\ digit09 d = true /\ ends_with_decimal pre = false.
Proof.
  intros H. apply amount_of_search in H.
  destruct (search amount_re text) as [m|] eqn:Hs; [clear H | contradiction].
  unfold search in Hs. apply search_from_first in Hs.
  destruct Hs as (a1 & a2 & -> & Hm & _). rewrite app_nil_r in Hm.
  apply amount_match_shape in Hm.
  destruct Hm as (marker & sp & num & _ & _ & Hmk & Hsp & (d & w' & -> & Hd) & _
                  & (rest & ->) & Hprev).
  exists (a1 ++ marker ++ sp), d, (w' ++ rest). repeat split.
  - now rewrite <- !app_assoc.
  - exact Hd.
  - unfold ends_with_decimal. rewrite !rev_app_distr.
    destruct Hsp as [->|(c & -> & Hc)].
    + simpl. destruct Hmk as [->|Hmk].
      * simpl. destruct (rev a1); [reflexivity | exact Hprev].
      * apply markers_end in Hmk. destruct Hmk as (z & s & -> & Hz). exact Hz.
    + simpl. now apply space_not_decimal.
Qed.

End AmountClaims.

(** C7, as stated, fails: the span matched in " 12" starts with the
    space, and the stored value is the number without it. *)
Lemma amount_value_counterexample :
  exists m, search amount_re (py " 12") = Some m
            /\ group0 m = py " 12"
            /\ amount (extract_fields (py " 12")) = Some (py "12")
            /\ amount (extract_fields (py " 12")) <> Some (group0 m).
Proof.
  eexists. split; [vm_compute; reflexivity|].
  split; [vm_compute; reflexivity|].
  split; [vm_compute; reflexivity|].
  vm_compute. discriminate.
Qed.

Lemma amount_value_is_stripped_span_witness :
  let text := py "Total: USD 1,250.00 due" in
  let m := Match text 7 19 [(1, (11, 19))] in
  search amount_re text = Some m
  /\ amount (extract_fields text) = Some (py "USD 1,250.00")
  /\ (forall a1 a2, text = a1 ++ a2 -> length a1 < m_start m ->
        match_at amount_re (rev a1) a2 = None)
  /\ exists marker sp num,
       group0 m = marker ++ sp ++ num
       /\ group 1 m = Some num
       /\ (marker = [] \/ In marker markers)
       /\ (sp = [] \/ exists c, sp = [c] /\ isspace c = true)
       /\ amount (extract_fields text) = Some (strip (group0 m))
       /\ strip (group0 m) = if is_empty marker then num else group0 m.
Proof.
  intros text m.
  split; [vm_compute; reflexivity|].
  split; [vm_compute; reflexivity|].
  apply (amount_value_is_stripped_span text m).
  vm_compute. reflexivity.
Defined.

(** C8, as stated, fails: in the two-character text U+0663 "5" the only
    ASCII digit follows an Arabic-Indic digit, which [\d] matches, and
    the amount field stays unset. *)
Lemma amount_unset_counterexample :
  In 0x35%N [0x663; 0x35]%N /\ digit09 0x35 = true
  /\ amount (extract_fields [0x663; 0x35]%N) = None.
Proof.
  split; [right; left; reflexivity|]. split; vm_compute; reflexivity.
Qed.

Lemma amount_set_on_digit_witness :
  amount (extract_fields (py "ref: 7 items")) <> None.
Proof.
  apply (amount_set_on_digit (py "ref: ") 0x37%N (py " items")).
  - reflexivity.
  - reflexivity.
Defined.

Section InvoiceRule.

(** A starred class reads a whole run of its characters first, and the
    match goes on from there when the continuation accepts. *)
Lemma rep_loop_class_run body p (k : cont) x ws :
  (forall st k', body st k' = exec (Char p) st k') ->
  forall rest b cs fuel n,
  Forall (fun c => p c = true) ws ->
  match rest with c :: _ => p c = false | [] => True end ->
  length ws <= fuel ->
  k (MState (rev ws ++ b) rest cs) = Some x ->
  rep_loop body 0 None k fuel n (MState b (ws ++ rest) cs) = Some x.
Proof.
  intros Hbody.
  induction ws as [|c ws IH]; intros rest b cs fuel n Hws Hrest Hfuel Hk.
  - simpl in *. destruct fuel; simpl; [exact Hk|].
    rewrite Hbody. simpl.
    destruct rest as [|c tl]; [exact Hk|]. now rewrite Hrest.
  - inversion Hws as [|? ? Hc Hws']; subst.
    destruct fuel as [|fuel]; [simpl in Hfuel; lia|].
    simpl. rewrite Hbody. simpl. rewrite Hc.
    assert (Hlt : (length (ws ++ rest) <? S (length (ws ++ rest))) = true)
      by (apply Nat.ltb_lt; lia).
    rewrite Hlt. rewrite (IH rest (c :: b) cs fuel (S n)); auto.
    + simpl in Hfuel. lia.
    + simpl in Hk. now rewrite <- app_assoc in Hk.
Qed.

Lemma exec_star_run p (k : cont) x ws rest b cs :
  Forall (fun c => p c = true) ws ->
  match rest with c :: _ => p c = false | [] => True end ->
  k (MState (rev ws ++ b) rest cs) = Some x ->
  exec (star (Char p)) (MState b (ws ++ rest) cs) k = Some x.
Proof.
  intros Hws Hrest Hk.
  change (rep_loop (exec (Char p)) 0 None k (length (ws ++ rest)) 0
            (MState b (ws ++ rest) cs) = Some x).
  apply (rep_loop_class_run (exec (Char p)) p); auto.
  rewrite length_app. lia.
Qed.

Lemma exec_Cat r1 r2 st (k : cont) :
  exec (Cat r1 r2) st k = exec r1 st (fun st1 => exec r2 st1 k).
Proof. reflexivity. Qed.

Lemma exec_Group g r st (k : cont) :
  exec (Group g r) st k =
    exec r st (fun st' => k (set_group g (pos st) (pos st') st')).
Proof. reflexivity. Qed.

Lemma search_from_here r b a m :
  match_at r b a = Some m -> search_from r b a = Some m.
Proof. intros H. destruct a; simpl; now rewrite H. Qed.

End InvoiceRule.

(** * Further properties of the extraction code *)

(** ** White space *)

Section StripFacts.

Lemma lstrip_spec s :
  exists l, s = l ++ lstrip s /\ all_space l /\ not_started_by isspace (lstrip s).
Proof.
  induction s as [|c s IH]; simpl.
  - exists []. repeat split. constructor.
  - destruct (isspace c) eqn:E.
    + destruct IH as (l & Hs & Hl & Hn). exists (c :: l).
      repeat split; [simpl; now rewrite <- Hs | now constructor | exact Hn].
    + exists []. repeat split; [constructor | exact E].
Qed.

(** [strip] removes a run of white space at each end and leaves a
    string that neither starts nor ends with white space. *)
Lemma strip_spec s :
  exists l r,
    s = l ++ strip s ++ r /\ all_space l /\ all_space r
    /\ not_started_by isspace (strip s)
    /\ not_started_by isspace (rev (strip s)).
Proof.
  destruct (lstrip_spec s) as (l & Hs & Hl & Hn).
  destruct (lstrip_spec (rev (lstrip s))) as (l' & Ht & Hl' & Hn').
  unfold strip, rstrip.
  set (t := lstrip s) in *. set (u := lstrip (rev t)) in *.
  assert (Et : t = rev u ++ rev l').
  { rewrite <- rev_app_distr, <- Ht. now rewrite rev_involutive. }
  exists l, (rev l'). repeat split.
  - now rewrite <- Et.
  - exact Hl.
  - apply Forall_rev. exact Hl'.
  - destruct (rev u) as [|c x] eqn:Eu; [exact I|].
    rewrite Et in Hn. exact Hn.
  - now rewrite rev_involutive.
Qed.

Lemma strip_idempotent s : strip (strip s) = strip s.
Proof.
  destruct (strip_spec s) as (_ & _ & _ & _ & _ & Hh & Hl).
  destruct (strip s) as [|c s1] eqn:E; [reflexivity|].
  destruct (rev (c :: s1)) as [|z s2] eqn:Er.
  - apply (f_equal (@length N)) in Er. rewrite length_rev in Er. discriminate.
  - apply (strip_keep (c :: s1) c s1 (rev s2) z); [reflexivity | | exact Hh | exact Hl].
    rewrite <- (rev_involutive (c :: s1)), Er. reflexivity.
Qed.

Lemma lstrip_all_space s : all_space s -> lstrip s = [].
Proof.
  induction 1 as [|c s Hc _ IH]; simpl; [reflexivity|]. now rewrite Hc.
Qed.

(** [strip] gives the empty string exactly on white space. *)
Lemma strip_empty_iff s : strip s = [] <-> all_space s.
Proof.
  split.
  - intros E. destruct (strip_spec s) as (l & r & Hs & Hl & Hr & _).
    rewrite E in Hs. rewrite Hs. apply Forall_app. split; assumption.
  - intros H. unfold strip. now rewrite (lstrip_all_space s H).
Qed.

Lemma all_space_app s1 s2 : all_space (s1 ++ s2) <-> all_space s1 /\ all_space s2.
Proof. apply Forall_app. Qed.

Lemma all_space_newline : all_space newline.
Proof. repeat constructor. Qed.

Lemma slice_substring s i j : substring (slice s i j) s.
Proof.
  exists (firstn i s), (skipn (j - i) (skipn i s)). unfold slice.
  now rewrite firstn_skipn, firstn_skipn.
Qed.

Lemma substring_trans a b c : substring a b -> substring b c -> substring a c.
Proof.
  intros (p1 & q1 & ->) (p2 & q2 & ->).
  exists (p2 ++ p1), (q1 ++ q2). now rewrite <- !app_assoc.
Qed.

Lemma strip_substring s : substring (strip s) s.
Proof.
  destruct (strip_spec s) as (l & r & Hs & _). now exists l, r.
Qed.

End StripFacts.

(** ** More on the matcher *)

Section MatcherMore.

(** The match object of a successful [match_at], read declaratively. *)
Lemma match_at_sound r b a m :
  match_at r b a = Some m ->
  exists w st',
    matches r (MState b a []) w st'
    /\ a = w ++ after st'
    /\ before st' = rev w ++ b
    /\ m = Match (rev b ++ a) (length b) (length b + length w) (caps st')
    /\ group0 m = w.
Proof.
  unfold match_at. destruct (exec r _ Some) as [x|] eqn:E; [|discriminate].
  intros [= <-]. apply exec_sound in E. destruct E as (w & st' & Hm & [= <-]).
  pose proof (matches_span _ _ _ _ Hm) as [Ha Hb]. simpl in Ha, Hb.
  assert (Hpos : pos st' = length b + length w).
  { unfold pos. rewrite Hb, length_app, length_rev. lia. }
  exists w, st'. repeat split; try assumption.
  - now rewrite Hpos.
  - unfold group0. cbn [m_text m_start m_end]. rewrite Ha.
    apply slice_mid; [now rewrite length_rev | now rewrite Hpos, length_rev].
Qed.

(** The match object of a successful [re.search]. *)
Lemma search_sound r text m :
  search r text = Some m ->
  exists pre w st',
    text = pre ++ w ++ after st'
    /\ matches r (MState (rev pre) (w ++ after st') []) w st'
    /\ before st' = rev w ++ rev pre
    /\ m = Match text (length pre) (length pre + length w) (caps st')
    /\ group0 m = w.
Proof.
  unfold search. intros Hs. apply search_from_first in Hs.
  destruct Hs as (a1 & a2 & -> & Hm & _). rewrite app_nil_r in Hm.
  apply match_at_sound in Hm.
  destruct Hm as (w & st' & Hm & Ha & Hb & -> & Hg).
  exists a1, w, st'. rewrite Ha in *. rewrite rev_involutive, length_rev in *.
  repeat split; assumption.
Qed.

Lemma search_text r text m : search r text = Some m -> m_text m = text.
Proof.
  intros H. apply search_sound in H.
  destruct H as (pre & w & st' & _ & _ & _ & -> & _). reflexivity.
Qed.

Lemma group_substring n m v : group n m = Some v -> substring v (m_text m).
Proof.
  unfold group. destruct (lookup n (m_caps m)) as [[i j]|]; [|discriminate].
  intros [= <-]. apply slice_substring.
Qed.

Lemma iter_class p : forall n st w st',
  iter (matches (Char p)) n st w st' ->
  length w = n /\ Forall (fun c => p c = true) w.
Proof.
  induction n as [|n IH]; intros st w st' H.
  - destruct H as [-> _]. split; [reflexivity | constructor].
  - destruct H as (w1 & st1 & w2 & -> & (c & Hc & -> & _) & H2).
    apply IH in H2. destruct H2 as [<- HF]. split; [reflexivity|].
    constructor; assumption.
Qed.

(** A repeated class reads between [lo] and [hi] of its characters. *)
Lemma matches_class_repeat p lo hi st w st' :
  matches (Repeat lo hi (Char p)) st w st' ->
  lo <= length w /\ (forall h, hi = Some h -> length w <= h)
  /\ Forall (fun c => p c = true) w.
Proof.
  intros (n & Hlo & Hhi & Hit). apply iter_class in Hit.
  destruct Hit as [<- HF]. auto.
Qed.

Lemma matches_char p st w st' :
  matches (Char p) st w st' -> exists c, w = [c] /\ p c = true.
Proof. intros (c & Hc & -> & _). eauto. Qed.

(** With nothing left to match after it, an unbounded repeated class
    reads the whole run of its characters, and fails when the run is
    shorter than [lo]. *)
Lemma rep_loop_class_accept body p lo (f : mstate -> mstate) :
  (forall st k', body st k' = exec (Char p) st k') ->
  forall a b cs fuel n,
    length a <= fuel ->
    exists run rest,
      a = run ++ rest /\ Forall (fun c => p c = true) run
      /\ not_started_by p rest
      /\ rep_loop body lo None (fun s => Some (f s)) fuel n (MState b a cs) =
           if lo <=? n + length run
           then Some (f (MState (rev run ++ b) rest cs)) else None.
Proof.
  intros Hbody.
  induction a as [|c a IH]; intros b cs fuel n Hfuel.
  - exists [], []. repeat split; [constructor|].
    rewrite Nat.add_0_r. destruct fuel; simpl; [reflexivity|].
    rewrite Hbody. reflexivity.
  - destruct fuel as [|fuel]; [simpl in Hfuel; lia|].
    destruct (p c) eqn:Hc.
    + destruct (IH (c :: b) cs fuel (S n)) as (run & rest & -> & Hrun & Hrest & Hloop).
      { simpl in Hfuel. lia. }
      exists (c :: run), rest. repeat split; [now constructor | exact Hrest|].
      simpl rep_loop. rewrite Hbody. simpl exec. rewrite Hc.
      assert (Hlt : (length (run ++ rest) <? S (length (run ++ rest))) = true)
        by (apply Nat.ltb_lt; lia).
      cbn [after length]. rewrite Hlt, Hloop.
      simpl length. replace (n + S (length run)) with (S n + length run) by lia.
      destruct (lo <=? S n + length run) eqn:E.
      * simpl rev. now rewrite <- app_assoc.
      * apply Nat.leb_gt in E.
        assert (E' : (lo <=? n) = false) by (apply Nat.leb_gt; lia).
        now rewrite E'.
    + exists [], (c :: a). repeat split; [constructor | exact Hc|].
      rewrite Nat.add_0_r. simpl rep_loop. rewrite Hbody. simpl exec. rewrite Hc.
      reflexivity.
Qed.

Lemma exec_class_accept p lo (f : mstate -> mstate) b a cs x :
  exec (Repeat lo None (Char p)) (MState b a cs) (fun s => Some (f s)) = Some x ->
  exists run rest,
    a = run ++ rest /\ Forall (fun c => p c = true) run
    /\ not_started_by p rest /\ lo <= length run
    /\ x = f (MState (rev run ++ b) rest cs).
Proof.
  intros H.
  change (rep_loop (exec (Char p)) lo None (fun s => Some (f s)) (length a) 0
            (MState b a cs) = Some x) in H.
  destruct (rep_loop_class_accept (exec (Char p)) p lo f (fun _ _ => eq_refl)
              a b cs (length a) 0 (le_n _))
    as (run & rest & Ha & Hrun & Hrest & Hloop).
  rewrite Hloop in H. simpl in H.
  destruct (lo <=? length run) eqn:E; [|discriminate].
  apply Nat.leb_le in E. injection H as <-.
  exists run, rest. auto.
Qed.

Lemma in_ranges_within t1 t2 c :
  ranges_within t1 t2 = true -> in_ranges t1 c = true -> in_ranges t2 c = true.
Proof.
  unfold ranges_within, in_ranges. intros Hw H1.
  apply existsb_exists in H1. destruct H1 as (r & Hr & Hc).
  rewrite forallb_forall in Hw. specialize (Hw r Hr).
  apply existsb_exists in Hw. destruct Hw as (r' & Hr' & Hin).
  apply existsb_exists. exists r'. split; [exact Hr'|].
  unfold in_range in *. rewrite andb_true_iff, !N.leb_le in *. lia.
Qed.

Lemma decimal_isword c : isdecimal c = true -> isword c = true.
Proof.
  intros H. unfold isword. apply orb_true_iff. left.
  revert H. apply in_ranges_within. vm_compute. reflexivity.
Qed.

End MatcherMore.

(** ** More on the field rules *)

Section FieldsMore.

(** X1: every field that is set holds a run of consecutive characters
    of the text. *)
Theorem fields_are_substrings text v :
  invoice_number (extract_fields text) = Some v
  \/ amount (extract_fields text) = Some v
  \/ email (extract_fields text) = Some v
  \/ date (extract_fields text) = Some v ->
  substring v text.
Proof.
  unfold extract_fields. cbn [invoice_number amount email date].
  intros [H|[H|[H|H]]].
  - destruct (search invoice_re text) as [m|] eqn:Hs; [|discriminate].
    rewrite <- (search_text _ _ _ Hs). eapply group_substring; eauto.
  - destruct (search amount_re text) as [m|] eqn:Hs; [|discriminate].
    injection H as <-. rewrite <- (search_text _ _ _ Hs).
    eapply substring_trans; [apply strip_substring | apply slice_substring].
  - destruct (search email_re text) as [m|] eqn:Hs; [|discriminate].
    injection H as <-. rewrite <- (search_text _ _ _ Hs). apply slice_substring.
  - destruct (search date_re text) as [m|] eqn:Hs; [|discriminate].
    rewrite <- (search_text _ _ _ Hs). eapply group_substring; eauto.
Qed.

(** X2: the amount field is set exactly when the text holds an ASCII
    digit that no decimal digit of any script immediately precedes. *)
Theorem amount_set_iff text :
  amount (extract_fields text) <> None <->
  exists pre d post,
    text = pre ++ d :: post /\ digit09 d = true /\ ends_with_decimal pre = false.
Proof.
  split.
  - apply amount_set_only_on_digit.
  - intros (pre & d & post & -> & Hd & Hpre).
    apply amount_of_search. now apply search_amount_at_digit.
Qed.

Lemma span_parts st w st' :
  span st w st' -> after st = w ++ after st' /\ before st' = rev w ++ before st.
Proof. intros H. exact H. Qed.

(** The match of the email rule. *)
Lemma email_search_shape text m :
  search email_re text = Some m ->
  exists pre post,
    text = pre ++ group0 m ++ post
    /\ is_email (group0 m)
    /\ not_started_by alpha post.
Proof.
  unfold search. intros Hs. apply search_from_first in Hs.
  destruct Hs as (a1 & a2 & -> & Hm & _). rewrite app_nil_r in Hm.
  unfold match_at in Hm.
  destruct (exec email_re _ Some) as [x|] eqn:E; [|discriminate].
  injection Hm as <-.
  unfold email_re in E.
  rewrite exec_Cat in E. apply exec_sound in E. destruct E as (w1 & st1 & H1 & E).
  rewrite exec_Cat in E. apply exec_sound in E. destruct E as (w2 & st2 & H2 & E).
  rewrite exec_Cat in E. apply exec_sound in E. destruct E as (w3 & st3 & H3 & E).
  rewrite exec_Cat in E. apply exec_sound in E. destruct E as (w4 & st4 & H4 & E).
  destruct (span_parts _ _ _ (matches_span _ _ _ _ H1)) as [A1 B1].
  destruct (span_parts _ _ _ (matches_span _ _ _ _ H2)) as [A2 B2].
  destruct (span_parts _ _ _ (matches_span _ _ _ _ H3)) as [A3 B3].
  destruct (span_parts _ _ _ (matches_span _ _ _ _ H4)) as [A4 B4].
  simpl in A1, B1.
  destruct st4 as [b4 a4 c4]. simpl in A4, B4.
  apply (exec_class_accept alpha 2 (fun s => s)) in E.
  destruct E as (run & rest & -> & Hrun & Hrest & Hlen & ->).
  apply matches_class_repeat in H1. destruct H1 as (L1 & _ & F1).
  apply matches_chr in H2. subst w2.
  apply matches_class_repeat in H3. destruct H3 as (L3 & _ & F3).
  apply matches_chr in H4. subst w4.
  assert (Ha2 : a2 = (w1 ++ [0x40%N] ++ w3 ++ [0x2E%N] ++ run) ++ rest).
  { rewrite A1, A2, A3, A4. now rewrite <- !app_assoc. }
  rewrite rev_involutive, length_rev.
  assert (Hg : group0 (Match (a1 ++ a2) (length a1)
                         (pos (MState (rev run ++ b4) rest c4)) c4)
               = w1 ++ [0x40%N] ++ w3 ++ [0x2E%N] ++ run).
  { unfold group0. cbn [m_text m_start m_end]. rewrite Ha2.
    apply slice_mid; [reflexivity|].
    unfold pos. cbn [before]. rewrite B4, B3, B2, B1.
    rewrite !length_app, !length_rev. simpl. lia. }
  cbn [caps]. rewrite Hg.
  exists a1, rest. repeat split.
  - now rewrite Ha2.
  - exists w1, w3, run. repeat split; try assumption.
    + intros ->. simpl in L1. lia.
    + intros ->. simpl in L3. lia.
  - exact Hrest.
Qed.

(** X3: an email field that is set has the form local@domain.tld: a
    non-empty local part and domain in the classes of the rule and at
    least two ASCII letters at the end; and no ASCII letter follows it
    in the text. *)
Theorem email_value_shape text v :
  email (extract_fields text) = Some v ->
  is_email v
  /\ exists pre post, text = pre ++ v ++ post /\ not_started_by alpha post.
Proof.
  unfold extract_fields. cbn [email].
  destruct (search email_re text) as [m|] eqn:Hs; [|discriminate].
  intros [= <-]. apply email_search_shape in Hs.
  destruct Hs as (pre & post & Ht & He & Hp). split; [exact He|]. now exists pre, post.
Qed.

(** X4: on a text without the character "@" the email field stays
    unset. *)
Theorem email_needs_at_sign text :
  ~ In 0x40%N text -> email (extract_fields text) = None.
Proof.
  intros Hno. unfold extract_fields. cbn [email].
  destruct (search email_re text) as [m|] eqn:Hs; [|reflexivity].
  exfalso. apply Hno. apply email_search_shape in Hs.
  destruct Hs as (pre & post & -> & (l & d & t & -> & _) & _).
  apply in_or_app. right. apply in_or_app. left.
  apply in_or_app. right. now left.
Qed.

End FieldsMore.

Section InvoiceDateMore.

Lemma matches_ilit s : forall st w st',
  matches (ilit s) st w st' -> Forall2 (fun c t => ieq c t = true) s w.
Proof.
  induction s as [|c s IH]; intros st w st' H.
  - destruct H as [-> _]. constructor.
  - destruct H as (w1 & st1 & w2 & -> & (t & Ht & -> & _) & H2).
    simpl. constructor; [exact Ht | eapply IH; eauto].
Qed.

(** The match of the invoice rule. *)
Lemma invoice_search_shape text m :
  search invoice_re text = Some m ->
  exists pre label v post,
    text = pre ++ label ++ v ++ post
    /\ group 2 m = Some v
    /\ v <> [] /\ Forall (fun c => token_char c = true) v
    /\ not_started_by token_char post
    /\ exists w7 rest,
         label = w7 ++ rest
         /\ Forall2 (fun c t => ieq c t = true) (py "invoice") w7.
Proof.
  unfold search. intros Hs. apply search_from_first in Hs.
  destruct Hs as (a1 & a2 & -> & Hm & _). rewrite app_nil_r in Hm.
  unfold match_at in Hm.
  destruct (exec invoice_re _ Some) as [x|] eqn:E; [|discriminate].
  injection Hm as <-.
  unfold invoice_re in E.
  rewrite exec_Cat in E. apply exec_sound in E. destruct E as (w1 & st1 & H1 & E).
  destruct (span_parts _ _ _ (matches_span _ _ _ _ H1)) as [A1 B1].
  simpl in A1, B1.
  rewrite exec_Group in E. destruct st1 as [b1 r1 c1]. simpl in A1, B1.
  unfold plus in E.
  apply (exec_class_accept token_char 1
           (fun st' => set_group 2 (pos (MState b1 r1 c1)) (pos st') st')) in E.
  destruct E as (run & rest & -> & Hrun & Hrest & Hlen & ->).
  destruct H1 as (s1 & (w7 & s7 & wr & -> & H7 & _) & _).
  apply matches_ilit in H7.
  rewrite rev_involutive, length_rev.
  exists a1, (w7 ++ wr), run, rest. repeat split.
  - now rewrite A1.
  - unfold group. cbn [m_caps set_group caps lookup Nat.eqb m_text]. f_equal.
    rewrite A1.
    replace (a1 ++ (w7 ++ wr) ++ run ++ rest)
      with ((a1 ++ w7 ++ wr) ++ run ++ rest) by (now rewrite <- !app_assoc).
    apply slice_mid; unfold pos; cbn [before].
    + rewrite B1. rewrite !length_app, !length_rev, !length_app. lia.
    + rewrite B1. rewrite !length_app, !length_rev, !length_app. lia.
  - intros ->. simpl in Hlen. lia.
  - exact Hrun.
  - exact Hrest.
  - exists w7, wr. split; [reflexivity | exact H7].
Qed.

(** X5: an invoice number that is set is a non-empty run of token
    characters that stops at the first character outside the class, and
    it follows, after the optional label, separator and white space, an
    occurrence of "invoice" in any letter case. *)
Theorem invoice_value_shape text v :
  invoice_number (extract_fields text) = Some v ->
  v <> [] /\ Forall (fun c => token_char c = true) v
  /\ exists pre label post,
       text = pre ++ label ++ v ++ post
       /\ not_started_by token_char post
       /\ exists w7 rest,
            label = w7 ++ rest
            /\ Forall2 (fun c t => ieq c t = true) (py "invoice") w7.
Proof.
  unfold extract_fields. cbn [invoice_number].
  destruct (search invoice_re text) as [m|] eqn:Hs; [|discriminate].
  intros Hg. apply invoice_search_shape in Hs.
  destruct Hs as (pre & label & v' & post & Ht & Hg' & Hne & Hv & Hp & Hl).
  rewrite Hg in Hg'. injection Hg' as ->.
  repeat split; try assumption. now exists pre, label, post.
Qed.

Lemma in_list_In l c : in_list l c = true -> In c l.
Proof.
  unfold in_list. intros H. apply existsb_exists in H.
  destruct H as (x & Hin & Hx). apply N.eqb_eq in Hx. now subst.
Qed.

Lemma date_parts lo1 hi1 lo2 hi2 lo3 hi3 st w st' :
  matches (Cat (digits lo1 hi1) (Cat date_sep (Cat (digits lo2 hi2)
             (Cat date_sep (digits lo3 hi3))))) st w st' ->
  exists a s1 b s2 c,
    w = a ++ [s1] ++ b ++ [s2] ++ c
    /\ Forall (fun x => isdecimal x = true) (a ++ b ++ c)
    /\ In s1 [0x2F; 0x2D]%N /\ In s2 [0x2F; 0x2D]%N
    /\ lo1 <= length a <= hi1 /\ lo2 <= length b <= hi2 /\ lo3 <= length c <= hi3.
Proof.
  intros (a & t1 & w1 & -> & Ha & x1 & t2 & w2 & -> & Hs1 & b & t3 & w3 & -> & Hb
          & x2 & t4 & c & -> & Hs2 & Hc).
  apply matches_class_repeat in Ha, Hb, Hc.
  destruct Ha as (La & Ua & Fa). destruct Hb as (Lb & Ub & Fb).
  destruct Hc as (Lc & Uc & Fc).
  specialize (Ua _ eq_refl). specialize (Ub _ eq_refl). specialize (Uc _ eq_refl).
  apply matches_char in Hs1, Hs2.
  destruct Hs1 as (s1 & -> & Hs1). destruct Hs2 as (s2 & -> & Hs2).
  apply in_list_In in Hs1, Hs2.
  exists a, s1, b, s2, c. repeat split; try assumption; try lia.
  apply Forall_app. split; [exact Fa|]. apply Forall_app. split; assumption.
Qed.

Lemma date_alternatives st w st' :
  matches
    (Or (Cat (digits 1 2) (Cat date_sep (Cat (digits 1 2) (Cat date_sep (digits 2 4)))))
        (Cat (digits 4 4) (Cat date_sep (Cat (digits 1 2) (Cat date_sep (digits 1 2))))))
    st w st' ->
  is_date w.
Proof.
  intros [H|H]; apply date_parts in H;
    destruct H as (a & s1 & b & s2 & c & -> & HF & H1 & H2 & La & Lb & Lc);
    exists a, s1, b, s2, c; repeat split; try assumption.
  - left. lia.
  - right. lia.
Qed.

Lemma is_date_ends v :
  is_date v ->
  (exists d t, v = d :: t /\ isdecimal d = true)
  /\ (exists z t, rev v = z :: t /\ isdecimal z = true).
Proof.
  intros (a & s1 & b & s2 & c & -> & HF & _ & _ & HL).
  apply Forall_app in HF. destruct HF as [Fa HF].
  apply Forall_app in HF. destruct HF as [_ Fc].
  split.
  - destruct a as [|d a']; [simpl in HL; lia|].
    exists d, (a' ++ [s1] ++ b ++ [s2] ++ c). split; [reflexivity|]. now inversion Fa.
  - rewrite !rev_app_distr.
    destruct (rev c) as [|z t] eqn:Ec.
    + apply (f_equal (@length N)) in Ec. rewrite length_rev in Ec.
      simpl in Ec. lia.
    + exists z, (t ++ rev [s2] ++ rev b ++ rev [s1] ++ rev a).
      split; [now rewrite <- !app_assoc|].
      rewrite Forall_forall in Fc. apply Fc. apply in_rev. rewrite Ec. now left.
Qed.

(** The match of the date rule. *)
Lemma date_search_shape text m :
  search date_re text = Some m ->
  exists pre v post,
    text = pre ++ v ++ post
    /\ group 1 m = Some v
    /\ is_date v
    /\ not_started_by isword (rev pre)
    /\ not_started_by isword post.
Proof.
  intros Hs. apply search_sound in Hs.
  destruct Hs as (pre & w & st' & Ht & Hm & Hb & -> & _).
  unfold date_re in Hm.
  destruct Hm as (w0 & s1 & w' & Hw & (-> & -> & Hwb1) & Hm).
  destruct Hm as (wg & s2 & w3 & -> & (s3 & Halt & ->) & (-> & Hst & Hwb2)).
  simpl in Hw. rewrite app_nil_r in Hw. subst w.
  rewrite <- Hst in Hwb2.
  pose proof (f_equal caps Hst) as Ec. cbn [set_group caps] in Ec.
  destruct (span_parts _ _ _ (matches_span _ _ _ _ Halt)) as [_ B].
  cbn [before] in B.
  apply date_alternatives in Halt.
  destruct (is_date_ends _ Halt) as [(d & t & Hd & Hdd) (z & t' & Hz & Hzd)].
  exists pre, wg, (after st'). repeat split.
  - exact Ht.
  - unfold group. cbn [m_caps m_text]. rewrite Ec. cbn [lookup Nat.eqb]. f_equal.
    rewrite Ht. apply slice_mid; unfold pos; cbn [before].
    + now rewrite length_rev.
    + rewrite B. now rewrite !length_app, !length_rev, Nat.add_comm.
  - exact Halt.
  - unfold word_before, word_after in Hwb1. cbn [before after] in Hwb1.
    rewrite Hd in Hwb1. simpl in Hwb1. rewrite (decimal_isword _ Hdd) in Hwb1.
    unfold not_started_by. destruct (rev pre) as [|c0 ?]; [exact I|].
    destruct (isword c0); [discriminate | reflexivity].
  - unfold word_before, word_after in Hwb2.
    rewrite Hb, Hz in Hwb2. simpl in Hwb2. rewrite (decimal_isword _ Hzd) in Hwb2.
    unfold not_started_by. destruct (after st') as [|c0 ?]; [exact I|].
    destruct (isword c0); [discriminate | reflexivity].
Qed.

(** X6: a date field that is set is made of three runs of decimal
    digits and two separators, each "/" or "-", of lengths 1-2, 1-2 and
    2-4, or 4, 1-2 and 1-2; in the text no word character stands
    directly before it or directly after it. *)
Theorem date_value_shape text v :
  date (extract_fields text) = Some v ->
  is_date v
  /\ exists pre post,
       text = pre ++ v ++ post
       /\ not_started_by isword (rev pre)
       /\ not_started_by isword post.
Proof.
  unfold extract_fields. cbn [date].
  destruct (search date_re text) as [m|] eqn:Hs; [|discriminate].
  intros Hg. apply date_search_shape in Hs.
  destruct Hs as (pre & v' & post & Ht & Hg' & Hd & Hp & Hq).
  rewrite Hg in Hg'. injection Hg' as ->.
  split; [exact Hd|]. now exists pre, post.
Qed.

Lemma no_digit_no_amount text :
  Forall (fun c => isdecimal c = false) text -> amount (extract_fields text) = None.
Proof.
  intros Hno. rewrite Forall_forall in Hno.
  destruct (amount (extract_fields text)) as [v|] eqn:Ha; [|reflexivity].
  exfalso.
  destruct (amount_set_only_on_digit text) as (pre & d & post & -> & Hd & _).
  { rewrite Ha. discriminate. }
  apply digit09_decimal in Hd. rewrite Hno in Hd; [discriminate|].
  apply in_or_app. right. now left.
Qed.

Lemma no_digit_no_date text :
  Forall (fun c => isdecimal c = false) text -> date (extract_fields text) = None.
Proof.
  intros Hno. rewrite Forall_forall in Hno.
  unfold extract_fields. cbn [date].
  destruct (search date_re text) as [m|] eqn:Hs; [|reflexivity].
  exfalso. apply date_search_shape in Hs.
  destruct Hs as (pre & v & post & -> & _ & Hd & _).
  destruct (is_date_ends _ Hd) as [(d & t & -> & Hdd) _].
  rewrite Hno in Hdd; [discriminate|].
  apply in_or_app. right. now left.
Qed.

(** X7: on a text without a decimal digit of any script, the amount
    field and the date field both stay unset. *)
Theorem no_digit_no_amount_no_date text :
  Forall (fun c => isdecimal c = false) text ->
  amount (extract_fields text) = None /\ date (extract_fields text) = None.
Proof.
  intros Hno. split; [now apply no_digit_no_amount | now apply no_digit_no_date].
Qed.

Lemma ieq_i_not_space t : ieq 0x69 t = true -> isspace t = false.
Proof.
  unfold ieq. rewrite !orb_true_iff, !andb_true_iff, !orb_true_iff, !N.eqb_eq.
  intros [[[[H|H]|[_ [H|H]]]|[H _]]|[H _]]; try discriminate H; subst;
    vm_compute; reflexivity.
Qed.

(** X8: a text of white space only, the empty text included, yields no
    field at all. *)
Theorem blank_text_no_fields text :
  all_space text -> extract_fields text = Fields None None None None.
Proof.
  intros Hsp.
  assert (Hno : Forall (fun c => isdecimal c = false) text).
  { eapply Forall_impl; [|exact Hsp]. intros c Hc. now apply space_not_decimal. }
  assert (Hf : forall c, In c text -> isspace c = true).
  { apply Forall_forall. exact Hsp. }
  pose proof (no_digit_no_amount text Hno) as Ha.
  pose proof (no_digit_no_date text Hno) as Hd.
  assert (Hi : invoice_number (extract_fields text) = None).
  { unfold extract_fields. cbn [invoice_number].
    destruct (search invoice_re text) as [m|] eqn:Hs; [|reflexivity].
    exfalso. apply invoice_search_shape in Hs.
    destruct Hs as (pre & label & v & post & -> & _ & _ & _ & _ & w7 & rest & -> & H7).
    change (py "invoice") with (0x69%N :: py "nvoice") in H7.
    inversion H7 as [|c t s w' Hc _]; subst.
    apply ieq_i_not_space in Hc. rewrite Hf in Hc; [discriminate|].
    apply in_or_app. right. now left. }
  assert (He : email (extract_fields text) = None).
  { unfold extract_fields. cbn [email].
    destruct (search email_re text) as [m|] eqn:Hs; [|reflexivity].
    exfalso. apply email_search_shape in Hs.
    destruct Hs as (pre & post & Ht & (l & d & t & Hg & _) & _).
    rewrite Hg in Ht.
    assert (Hin : In 0x40%N text).
    { rewrite Ht. apply in_or_app. right. apply in_or_app. left.
      apply in_or_app. right. now left. }
    apply Hf in Hin. vm_compute in Hin. discriminate Hin. }
  unfold extract_fields in *. cbn [invoice_number amount email date] in *.
  now rewrite Hi, Ha, He, Hd.
Qed.

End InvoiceDateMore.

(** ** More on the PDF path *)

Section PdfMore.

Variables image page : Type.
Variable B : Backends image page.

Lemma read_pages_raise pre texts bad post e :
  pages_read B pre texts ->
  page_extract_text B bad = inl e ->
  forall text log,
    read_pages B (pre ++ bad :: post) text log =
      (log ++ map EvPageText pre ++ [EvPageText bad], inl e).
Proof.
  intros Hpre Hbad.
  induction Hpre as [|p t ps ts Hp _ IH]; intros text log; simpl.
  - unfold bind, call. now rewrite Hbad.
  - unfold bind, call. rewrite Hp, IH.
    now rewrite <- !app_assoc.
Qed.

(** X9: failures of the first phase reach the caller.  When the reader
    rejects the payload, or a page's text cannot be extracted,
    [extract_text_from_pdf] raises that exception; the pages after the
    failing one are not read and the OCR fallback is not tried. *)
Theorem pdf_text_layer_errors_propagate pdf log :
  (forall e, PdfReader_pages B pdf = inl e ->
     extract_text_from_pdf B pdf log = (log ++ [EvPdfOpen pdf], inl e))
  /\ (forall pre texts bad post e,
        PdfReader_pages B pdf = inr (pre ++ bad :: post) ->
        pages_read B pre texts ->
        page_extract_text B bad = inl e ->
        extract_text_from_pdf B pdf log =
          (log ++ EvPdfOpen pdf :: map EvPageText pre ++ [EvPageText bad], inl e)).
Proof.
  split.
  - intros e He. unfold extract_text_from_pdf, bind, call. now rewrite He.
  - intros pre texts bad post e Hopen Hpre Hbad.
    unfold extract_text_from_pdf, bind at 1, call. rewrite Hopen.
    unfold bind. rewrite (read_pages_raise _ _ _ post _ Hpre Hbad).
    now rewrite <- app_assoc.
Qed.

Lemma ocr_fallback_returns pdf log log' t :
  ocr_fallback B pdf log = (log', inr t) -> exists outs, t = strip (join newline outs).
Proof.
  unfold ocr_fallback, bind, call, ret.
  destruct (import_pdf2image B) as [e|u]; [discriminate|].
  destruct (convert_from_bytes B pdf 300) as [e|images]; [discriminate|].
  destruct (ocr_pages B images [] _) as [l [e|outs]]; [discriminate|].
  intros [= _ <-]. now exists outs.
Qed.

(** The text [extract_text_from_pdf] returns is stripped, whichever
    phase produced it. *)
Lemma extract_text_from_pdf_stripped pdf log log' t :
  extract_text_from_pdf B pdf log = (log', inr t) -> strip t = t.
Proof.
  unfold extract_text_from_pdf, bind at 1, call.
  destruct (PdfReader_pages B pdf) as [e|pages]; [discriminate|].
  unfold bind. destruct (read_pages B pages [] _) as [l [e|text]]; [discriminate|].
  destruct (is_empty (strip text)) eqn:He.
  - unfold try_except. destruct (ocr_fallback B pdf l) as [l2 [e|x]] eqn:Hf.
    + unfold ret. intros [= _ <-]. reflexivity.
    + intros [= _ <-]. apply ocr_fallback_returns in Hf.
      destruct Hf as (outs & ->). apply strip_idempotent.
  - unfold ret. intros [= _ <-]. apply strip_idempotent.
Qed.

(** X10: once the text layer has been read, [extract_text_from_pdf]
    returns: nothing the fallback does can make it raise. *)
Theorem pdf_returns_after_text_layer pdf pages texts log :
  PdfReader_pages B pdf = inr pages ->
  pages_read B pages texts ->
  exists t, snd (extract_text_from_pdf B pdf log) = inr t.
Proof.
  intros Hopen Hread.
  rewrite (extract_text_from_pdf_phase1 _ _ B pdf pages texts log Hopen Hread).
  destruct (is_empty (phase1_text texts)).
  - unfold try_except.
    destruct (ocr_fallback B pdf _) as [l [e|x]]; simpl; eauto.
  - simpl. eauto.
Qed.

Lemma phase1_text_empty_iff texts :
  phase1_text texts = [] <-> Forall (fun t => all_space (or_empty t)) texts.
Proof.
  unfold phase1_text. rewrite strip_empty_iff.
  induction texts as [|t texts IH]; simpl.
  - split; constructor.
  - rewrite !all_space_app, IH. split.
    + intros [[H1 _] H2]. now constructor.
    + intros H. inversion H; subst. repeat split; auto. apply all_space_newline.
Qed.

Lemma ocr_pages_extends images : forall acc log,
  exists rest, fst (ocr_pages B images acc log) = log ++ rest.
Proof.
  induction images as [|img images IH]; intros acc log; simpl.
  - exists []. now rewrite app_nil_r.
  - unfold bind, call. destruct (image_to_string B img) as [e|o].
    + now exists [EvOcr img].
    + destruct (IH (acc ++ [o]) (log ++ [EvOcr img])) as (rest & Hr).
      exists (EvOcr img :: rest). rewrite Hr. now rewrite <- app_assoc.
Qed.

Lemma ocr_fallback_starts_with_import pdf log :
  exists rest,
    fst (try_except (ocr_fallback B pdf) (fun _ => ret []) log) = log ++ EvImport :: rest.
Proof.
  unfold try_except, ocr_fallback, bind, call, ret.
  destruct (import_pdf2image B) as [e|u]; [now exists []|].
  destruct (convert_from_bytes B pdf 300) as [e|images].
  - exists [EvRasterize pdf 300]. simpl. now rewrite <- app_assoc.
  - destruct (ocr_pages_extends images [] ((log ++ [EvImport]) ++ [EvRasterize pdf 300]))
      as (rest & Hr).
    exists (EvRasterize pdf 300 :: rest).
    destruct (ocr_pages B images [] _) as [l [e|outs]]; simpl in *;
      rewrite Hr; now rewrite <- !app_assoc.
Qed.

(** X11: the OCR fallback runs exactly when the text layer holds nothing
    but white space: a page without text, or with spaces and line
    breaks only, counts as empty.  Otherwise the calls stop after the
    last page and the stripped text layer is returned. *)
Theorem pdf_fallback_iff_blank_text_layer pdf pages texts log :
  PdfReader_pages B pdf = inr pages ->
  pages_read B pages texts ->
  (Forall (fun t => all_space (or_empty t)) texts ->
     exists rest,
       fst (extract_text_from_pdf B pdf log) =
         log ++ EvPdfOpen pdf :: map EvPageText pages ++ EvImport :: rest)
  /\ (~ Forall (fun t => all_space (or_empty t)) texts ->
        extract_text_from_pdf B pdf log =
          (log ++ EvPdfOpen pdf :: map EvPageText pages, inr (phase1_text texts))).
Proof.
  intros Hopen Hread.
  split; intros Hb.
  - apply phase1_text_empty_iff in Hb.
    rewrite (extract_text_from_pdf_phase2 _ _ B pdf pages texts log Hopen Hread Hb).
    destruct (ocr_fallback_starts_with_import pdf
                (log ++ EvPdfOpen pdf :: map EvPageText pages)) as (rest & Hr).
    exists rest. rewrite Hr. rewrite <- app_assoc. reflexivity.
  - rewrite (extract_text_from_pdf_phase1 _ _ B pdf pages texts log Hopen Hread).
    destruct (is_empty (phase1_text texts)) eqn:He; [|reflexivity].
    apply is_empty_true, phase1_text_empty_iff in He. contradiction.
Qed.

Lemma join_all_space outs :
  all_space (join newline outs) <-> Forall all_space outs.
Proof.
  induction outs as [|o outs IH].
  - simpl. split; constructor.
  - destruct outs as [|o' outs'].
    + simpl. split; [intros H; now repeat constructor | intros H; now inversion H].
    + change (join newline (o :: o' :: outs'))
        with (o ++ newline ++ join newline (o' :: outs')).
      rewrite !all_space_app, IH. split.
      * intros (H1 & _ & H2). now constructor.
      * intros H. inversion H; subst. repeat split; auto. apply all_space_newline.
Qed.

(** X12: a scanned PDF gives the empty text exactly when the OCR engine
    found nothing but white space on every page. *)
Theorem pdf_blank_scan_gives_empty pdf pages texts images outs log :
  PdfReader_pages B pdf = inr pages ->
  pages_read B pages texts ->
  phase1_text texts = [] ->
  import_pdf2image B = inr tt ->
  convert_from_bytes B pdf 300 = inr images ->
  ocr_returns B images outs ->
  (snd (extract_text_from_pdf B pdf log) = inr [] <-> Forall all_space outs).
Proof.
  intros Hopen Hread He Himp Hconv Hocr.
  rewrite (extract_text_from_pdf_phase2 _ _ B pdf pages texts log Hopen Hread He).
  unfold try_except, ocr_fallback, bind, call.
  rewrite Himp. cbv beta iota. rewrite Hconv. cbv beta iota.
  rewrite (ocr_pages_ok _ _ B _ _ Hocr). unfold ret. cbv beta iota. simpl snd.
  simpl app. rewrite <- join_all_space, <- strip_empty_iff.
  split; [intros [= H]; exact H | intros ->; reflexivity].
Qed.

End PdfMore.

(** ** More on [upload] *)

Section UploadMore.

Variables image page : Type.
Variable B : Backends image page.

Lemma upload_text_early content ct log log' early :
  upload_text B content ct log = (log', inr (inl early)) ->
  existsb (str_eqb ct) image_types = false
  /\ str_eqb ct pdf_type = false
  /\ early = BadRequest (py "Unsupported file type: " ++ ct).
Proof.
  unfold upload_text.
  destruct (existsb (str_eqb ct) image_types).
  - unfold bind, ret. destruct (ocr_image_bytes B content log) as [l [e|t]]; discriminate.
  - destruct (str_eqb ct pdf_type).
    + unfold bind, ret.
      destruct (extract_text_from_pdf B content log) as [l [e|t]]; discriminate.
    + unfold try_except, bind, ret.
      destruct (ocr_image_bytes B content log) as [l [e|t]]; [|discriminate].
      intros [= _ <-]. auto.
Qed.

(** X13: what [upload] hands back.  A stored row carries the declared
    type (the empty string when none was declared), a text that is
    stripped, and the fields extracted from exactly that text.  The
    error response is given only for a declared type that is neither an
    image type nor PDF, and names that type. *)
Theorem upload_response_invariant content file_ct log log' r :
  upload B content file_ct log = (log', inr r) ->
  match r with
  | Stored doc =>
      doc_content_type doc = or_empty file_ct
      /\ strip (doc_text doc) = doc_text doc
      /\ doc_fields doc = extract_fields (doc_text doc)
  | BadRequest msg =>
      ~ In (or_empty file_ct) image_types
      /\ or_empty file_ct <> pdf_type
      /\ msg = py "Unsupported file type: " ++ or_empty file_ct
  end.
Proof.
  unfold upload, bind.
  destruct (upload_text B content (or_empty file_ct) log) as [l [e|[early|t]]] eqn:Ht.
  - discriminate.
  - unfold ret. intros [= _ <-].
    apply upload_text_early in Ht. destruct Ht as (H1 & H2 & ->).
    repeat split.
    + intros Hin. apply (image_types_mem (or_empty file_ct)) in Hin. congruence.
    + intros Heq. apply (str_eqb_eq (or_empty file_ct) pdf_type) in Heq. congruence.
  - unfold ret. intros [= _ <-]. simpl. repeat split. apply strip_idempotent.
Qed.

(** X14: a PDF upload stores the text of [extract_text_from_pdf] as it
    is (the second strip changes nothing), with the fields of that
    text; an exception of the PDF path reaches the caller, and the
    error response is never given. *)
Theorem upload_pdf content file_ct log :
  or_empty file_ct = pdf_type ->
  upload B content file_ct log =
    match extract_text_from_pdf B content log with
    | (log', inl e) => (log', inl e)
    | (log', inr t) =>
        (log', inr (Stored {| doc_content_type := pdf_type;
                              doc_text := t;
                              doc_fields := extract_fields t |}))
    end.
Proof.
  intros Hct. unfold upload. rewrite Hct. unfold bind at 1, upload_text.
  rewrite pdf_type_not_image.
  assert (Heq : str_eqb pdf_type pdf_type = true) by (now apply str_eqb_eq).
  rewrite Heq. unfold bind, ret.
  destruct (extract_text_from_pdf B content log) as [l [e|t]] eqn:Hx; [reflexivity|].
  apply extract_text_from_pdf_stripped in Hx. now rewrite Hx.
Qed.

End UploadMore.

Lemma pdf_text_layer_errors_propagate_witness :
  extract_text_from_pdf corrupt_pdf payload [] =
    ([EvPdfOpen payload], inl (PyExc "PdfReadError"))
  /\ extract_text_from_pdf bad_page_pdf payload [] =
       ([EvPdfOpen payload; EvPageText 0; EvPageText 1], inl (PyExc "KeyError")).
Proof.
  split.
  - apply (proj1 (pdf_text_layer_errors_propagate nat nat corrupt_pdf payload [])).
    reflexivity.
  - apply (proj2 (pdf_text_layer_errors_propagate nat nat bad_page_pdf payload [])
             [0] [Some (py "text")] 1 [2] (PyExc "KeyError")).
    + reflexivity.
    + repeat constructor.
    + reflexivity.
Defined.

Lemma pdf_returns_after_text_layer_witness :
  exists t, snd (extract_text_from_pdf scanned_pdf_bad_ocr payload []) = inr t.
Proof.
  apply (pdf_returns_after_text_layer nat nat scanned_pdf_bad_ocr payload [0; 1; 2]
           [None; Some []; Some (py "  ")] []).
  - reflexivity.
  - repeat constructor.
Defined.

Lemma pdf_fallback_iff_blank_text_layer_witness :
  (exists rest,
     fst (extract_text_from_pdf scanned_pdf payload []) =
       [EvPdfOpen payload; EvPageText 0; EvPageText 1; EvPageText 2; EvImport] ++ rest)
  /\ extract_text_from_pdf mixed_pdf payload [] =
       ([EvPdfOpen payload; EvPageText 0; EvPageText 1; EvPageText 2],
        inr (py "Total 42")).
Proof.
  split.
  - destruct (proj1 (pdf_fallback_iff_blank_text_layer nat nat scanned_pdf payload
                       [0; 1; 2] [None; Some []; Some (py "  ")] []
                       eq_refl ltac:(repeat constructor)))
      as (rest & Hr).
    + repeat constructor.
    + exists rest. exact Hr.
  - apply (proj2 (pdf_fallback_iff_blank_text_layer nat nat mixed_pdf payload
                    [0; 1; 2] [Some (py "Total 42"); None; Some []] []
                    eq_refl ltac:(repeat constructor))).
    intros H. inversion H as [|? ? H1 _]. inversion H1 as [|? ? Hc _].
    vm_compute in Hc. discriminate Hc.
Defined.

Lemma pdf_blank_scan_gives_empty_witness :
  snd (extract_text_from_pdf blank_scan_pdf payload []) = inr [].
Proof.
  apply (pdf_blank_scan_gives_empty nat nat blank_scan_pdf payload [0; 1]
           [None; Some (py " ")] [0; 1] [py "  " ++ newline; py "  " ++ newline] []).
  - reflexivity.
  - repeat constructor.
  - vm_compute. reflexivity.
  - reflexivity.
  - reflexivity.
  - repeat constructor.
  - repeat constructor.
Defined.

Lemma upload_response_invariant_witness :
  doc_content_type
    {| doc_content_type := py "image/png"; doc_text := py "Page 4";
       doc_fields := Fields None (Some (py "4")) None None |} = py "image/png"
  /\ strip (py "Page 4") = py "Page 4"
  /\ Fields None (Some (py "4")) None None = extract_fields (py "Page 4").
Proof.
  apply (upload_response_invariant nat nat mixed_pdf payload (Some (py "image/png")) []
           [EvImageOpen payload; EvOcr 4]
           (Stored {| doc_content_type := py "image/png"; doc_text := py "Page 4";
                      doc_fields := Fields None (Some (py "4")) None None |})).
  vm_compute. reflexivity.
Defined.

Lemma upload_pdf_witness :
  upload mixed_pdf payload (Some pdf_type) [] =
    ([EvPdfOpen payload; EvPageText 0; EvPageText 1; EvPageText 2],
     inr (Stored {| doc_content_type := pdf_type; doc_text := py "Total 42";
                    doc_fields := Fields None (Some (py "42")) None None |})).
Proof.
  apply (upload_pdf nat nat mixed_pdf payload (Some pdf_type) []).
  reflexivity.
Defined.

(** ** The saved file name *)

Section SafeName.

Lemma replace_spaces_no_space filename : ~ In 0x20%N (replace_spaces filename).
Proof.
  unfold replace_spaces. intros H. apply in_map_iff in H.
  destruct H as (c & Hc & _). destruct (N.eqb c 0x20) eqn:E.
  - discriminate.
  - apply N.eqb_neq in E. congruence.
Qed.

(** X15: the name a file is saved under holds no space when the time
    stamp holds none; it is as long as the stamp, one underscore and the
    uploaded name together, and every character of the uploaded name
    other than a space keeps its place. *)
Theorem safe_name_no_space stamp filename :
  ~ In 0x20%N stamp ->
  ~ In 0x20%N (safe_name stamp filename)
  /\ length (safe_name stamp filename) = length stamp + 1 + length filename
  /\ forall i c, nth_error filename i = Some c -> c <> 0x20%N ->
       nth_error (safe_name stamp filename) (length stamp + 1 + i) = Some c.
Proof.
  intros Hstamp. unfold safe_name. repeat split.
  - intros H. apply in_app_or in H. destruct H as [H|H]; [contradiction|].
    apply in_app_or in H. destruct H as [H|H].
    + simpl in H. destruct H as [H|[]]. discriminate H.
    + now apply replace_spaces_no_space in H.
  - unfold replace_spaces. rewrite !length_app, length_map. simpl. lia.
  - intros i c Hi Hc.
    rewrite nth_error_app2 by lia.
    replace (length stamp + 1 + i - length stamp) with (S i) by lia.
    simpl. unfold replace_spaces. rewrite nth_error_map, Hi. simpl.
    apply N.eqb_neq in Hc. now rewrite Hc.
Qed.

End SafeName.

Lemma fields_are_substrings_witness :
  substring (py "INV-2023-045") sample_text.
Proof.
  apply (fields_are_substrings sample_text (py "INV-2023-045")).
  left. vm_compute. reflexivity.
Defined.

Lemma email_value_shape_witness :
  is_email (py "billing@example.com")
  /\ exists pre post,
       sample_text = pre ++ py "billing@example.com" ++ post
       /\ not_started_by alpha post.
Proof.
  apply (email_value_shape sample_text (py "billing@example.com")).
  vm_compute. reflexivity.
Defined.

Lemma email_needs_at_sign_witness :
  email (extract_fields (py "write to billing at example.com")) = None.
Proof.
  apply (email_needs_at_sign (py "write to billing at example.com")).
  vm_compute. intuition discriminate.
Defined.

Lemma invoice_value_shape_witness :
  py "INV-2023-045" <> []
  /\ Forall (fun c => token_char c = true) (py "INV-2023-045")
  /\ exists pre label post,
       sample_text = pre ++ label ++ py "INV-2023-045" ++ post
       /\ not_started_by token_char post
       /\ exists w7 rest,
            label = w7 ++ rest
            /\ Forall2 (fun c t => ieq c t = true) (py "invoice") w7.
Proof.
  apply (invoice_value_shape sample_text (py "INV-2023-045")).
  vm_compute. reflexivity.
Defined.

Lemma date_value_shape_witness :
  is_date (py "12/31/2023")
  /\ exists pre post,
       sample_text = pre ++ py "12/31/2023" ++ post
       /\ not_started_by isword (rev pre)
       /\ not_started_by isword post.
Proof.
  apply (date_value_shape sample_text (py "12/31/2023")).
  vm_compute. reflexivity.
Defined.

Lemma no_digit_no_amount_no_date_witness :
  amount (extract_fields (py "due on receipt")) = None
  /\ date (extract_fields (py "due on receipt")) = None.
Proof.
  apply (no_digit_no_amount_no_date (py "due on receipt")).
  repeat (constructor; [vm_compute; reflexivity|]). constructor.
Defined.

Lemma safe_name_no_space_witness :
  ~ In 0x20%N (safe_name (py "20240131-093015") (py "my scan.pdf"))
  /\ length (safe_name (py "20240131-093015") (py "my scan.pdf")) = 15 + 1 + 11
  /\ forall i c, nth_error (py "my scan.pdf") i = Some c -> c <> 0x20%N ->
       nth_error (safe_name (py "20240131-093015") (py "my scan.pdf")) (15 + 1 + i)
         = Some c.
Proof.
  apply (safe_name_no_space (py "20240131-093015") (py "my scan.pdf")).
  vm_compute. intuition discriminate.
Defined.

Lemma blank_text_no_fields_witness :
  extract_fields (py "  " ++ newline) = Fields None None None None.
Proof.
  apply (blank_text_no_fields (py "  " ++ newline)).
  repeat constructor.
Defined.

(** ** A date on its own *)

Section DateAlone.

Lemma rep_loop_class_take body p lo hi (k : cont) x run :
  (forall st k', body st k' = exec (Char p) st k') ->
  forall rest b cs fuel n,
    Forall (fun c => p c = true) run ->
    not_started_by p rest ->
    lo <= n + length run -> n + length run <= hi ->
    length run <= fuel ->
    k (MState (rev run ++ b) rest cs) = Some x ->
    rep_loop body lo (Some hi) k fuel n (MState b (run ++ rest) cs) = Some x.
Proof.
  intros Hbody.
  induction run as [|c run IH]; intros rest b cs fuel n Hrun Hrest Hlo Hhi Hfuel Hk.
  - simpl in *. rewrite Nat.add_0_r in Hlo.
    assert (E : (lo <=? n) = true) by (now apply Nat.leb_le).
    destruct fuel; simpl; rewrite E; [exact Hk|].
    destruct (n <? hi); [|exact Hk].
    rewrite Hbody. simpl.
    destruct rest as [|c tl]; [exact Hk|].
    unfold not_started_by in Hrest. now rewrite Hrest.
  - inversion Hrun as [|? ? Hc Hrun']; subst.
    destruct fuel as [|fuel]; [simpl in Hfuel; lia|].
    simpl in Hlo, Hhi, Hfuel.
    assert (E : (n <? hi) = true) by (apply Nat.ltb_lt; lia).
    simpl. rewrite E, Hbody. simpl. rewrite Hc.
    assert (Hlt : (length (run ++ rest) <? S (length (run ++ rest))) = true)
      by (apply Nat.ltb_lt; lia).
    rewrite Hlt. rewrite (IH rest (c :: b) cs fuel (S n)); auto; try lia.
    simpl in Hk. now rewrite <- app_assoc in Hk.
Qed.

(** A bounded run of decimal digits is read whole when what follows
    accepts. *)
Lemma exec_digits_take lo hi (k : cont) x run rest b cs :
  Forall (fun c => isdecimal c = true) run ->
  not_started_by isdecimal rest ->
  lo <= length run <= hi ->
  k (MState (rev run ++ b) rest cs) = Some x ->
  exec (digits lo hi) (MState b (run ++ rest) cs) k = Some x.
Proof.
  intros Hrun Hrest [Hlo Hhi] Hk.
  change (rep_loop (exec (Char isdecimal)) lo (Some hi) k (length (run ++ rest)) 0
            (MState b (run ++ rest) cs) = Some x).
  apply (rep_loop_class_take (exec (Char isdecimal)) isdecimal); auto.
  rewrite length_app. lia.
Qed.

Lemma exec_date_sep s (k : cont) rest b cs :
  In s [0x2F; 0x2D]%N ->
  exec date_sep (MState b (s :: rest) cs) k = k (MState (s :: b) rest cs).
Proof.
  intros [<-|[<-|[]]]; reflexivity.
Qed.

Lemma sep_not_decimal s : In s [0x2F; 0x2D]%N -> isdecimal s = false.
Proof. intros [<-|[<-|[]]]; vm_compute; reflexivity. Qed.

Lemma decimal_not_sep d : isdecimal d = true -> in_list [0x2F; 0x2D]%N d = false.
Proof.
  intros Hd. destruct (in_list [0x2F; 0x2D]%N d) eqn:E; [|reflexivity].
  apply in_list_In, sep_not_decimal in E. congruence.
Qed.

(** One alternative of the date rule on a text that starts with its
    three runs and two separators. *)
Lemma exec_date_parts lo1 hi1 lo2 hi2 lo3 hi3 a s1 b s2 c post b0 cs (k : cont) x :
  Forall (fun d => isdecimal d = true) a ->
  Forall (fun d => isdecimal d = true) b ->
  Forall (fun d => isdecimal d = true) c ->
  In s1 [0x2F; 0x2D]%N -> In s2 [0x2F; 0x2D]%N ->
  lo1 <= length a <= hi1 -> lo2 <= length b <= hi2 -> lo3 <= length c <= hi3 ->
  not_started_by isdecimal post ->
  k (MState (rev c ++ s2 :: rev b ++ s1 :: rev a ++ b0) post cs) = Some x ->
  exec (Cat (digits lo1 hi1) (Cat date_sep (Cat (digits lo2 hi2)
          (Cat date_sep (digits lo3 hi3)))))
    (MState b0 (a ++ s1 :: b ++ s2 :: c ++ post) cs) k = Some x.
Proof.
  intros Fa Fb Fc H1 H2 La Lb Lc Hpost Hk.
  rewrite exec_Cat.
  apply exec_digits_take; [exact Fa | now apply sep_not_decimal | exact La|].
  rewrite exec_Cat, (exec_date_sep _ _ _ _ _ H1), exec_Cat.
  apply exec_digits_take; [exact Fb | now apply sep_not_decimal | exact Lb|].
  rewrite exec_Cat, (exec_date_sep _ _ _ _ _ H2).
  apply exec_digits_take; [exact Fc | exact Hpost | exact Lc | exact Hk].
Qed.

(** The first alternative fails on a text that starts with three
    decimal digits. *)
Lemma exec_date_alt1_fails d1 d2 d3 tail b0 cs (k : cont) :
  isdecimal d1 = true -> isdecimal d2 = true -> isdecimal d3 = true ->
  exec (Cat (digits 1 2) (Cat date_sep (Cat (digits 1 2) (Cat date_sep (digits 2 4)))))
    (MState b0 (d1 :: d2 :: d3 :: tail) cs) k = None.
Proof.
  intros H1 H2 H3.
  pose proof (decimal_not_sep _ H2) as N2. pose proof (decimal_not_sep _ H3) as N3.
  unfold in_list in N2, N3. simpl in N2, N3.
  assert (L : forall n, (n <? S n) = true) by (intros n; apply Nat.ltb_lt; lia).
  unfold digits, date_sep. simpl.
  rewrite H1, !L, H2, N2, N3. reflexivity.
Qed.

Lemma exec_WordBoundary st (k : cont) :
  exec WordBoundary st k =
    if xorb (word_before st) (word_after st) then k st else None.
Proof. reflexivity. Qed.

Lemma exec_Or r1 r2 st (k : cont) :
  exec (Or r1 r2) st k =
    match exec r1 st k with Some m => Some m | None => exec r2 st k end.
Proof. reflexivity. Qed.

Lemma rev_head_of_run (p : N -> bool) c :
  c <> [] -> Forall (fun d => p d = true) c ->
  exists z t, rev c = z :: t /\ p z = true.
Proof.
  intros Hne HF. destruct (rev c) as [|z t] eqn:E.
  - apply (f_equal (@length N)) in E. rewrite length_rev in E.
    destruct c; [contradiction | discriminate].
  - exists z, t. split; [reflexivity|].
    rewrite Forall_forall in HF. apply HF. apply in_rev. rewrite E. now left.
Qed.

(** The closing [\b] after the last run of digits. *)
Lemma date_closing_boundary c s2 rest post b0 :
  c <> [] -> Forall (fun d => isdecimal d = true) c ->
  not_started_by isword post ->
  exec WordBoundary
    (set_group 1 0 (length (rev c ++ s2 :: rest))
       (MState (rev c ++ s2 :: rest) post b0)) Some =
  Some (set_group 1 0 (length (rev c ++ s2 :: rest))
          (MState (rev c ++ s2 :: rest) post b0)).
Proof.
  intros Hne HF Hpost.
  destruct (rev_head_of_run isdecimal c Hne HF) as (z & t & -> & Hz).
  rewrite exec_WordBoundary. unfold word_before, word_after.
  cbn [set_group before after app]. rewrite (decimal_isword _ Hz).
  destruct post as [|p0 post']; [reflexivity|].
  unfold not_started_by in Hpost. now rewrite Hpost.
Qed.

(** The match of the date rule at the start of a text that begins with
    a date and goes on with no word character. *)
Lemma date_match_at_start a s1 b s2 c post :
  Forall (fun d => isdecimal d = true) a ->
  Forall (fun d => isdecimal d = true) b ->
  Forall (fun d => isdecimal d = true) c ->
  In s1 [0x2F; 0x2D]%N -> In s2 [0x2F; 0x2D]%N ->
  (1 <= length a <= 2 /\ 1 <= length b <= 2 /\ 2 <= length c <= 4)
  \/ (length a = 4 /\ 1 <= length b <= 2 /\ 1 <= length c <= 2) ->
  not_started_by isword post ->
  exec date_re (MState [] (a ++ s1 :: b ++ s2 :: c ++ post) []) Some =
    Some (set_group 1 0 (length (rev c ++ s2 :: rev b ++ s1 :: rev a ++ []))
            (MState (rev c ++ s2 :: rev b ++ s1 :: rev a ++ []) post [])).
Proof.
  intros Fa Fb Fc H1 H2 HL Hpost.
  assert (Hc : c <> []) by (intros ->; simpl in HL; lia).
  assert (Hpd : not_started_by isdecimal post).
  { destruct post as [|p0 post']; [exact I|]. unfold not_started_by in *.
    destruct (isdecimal p0) eqn:E; [|reflexivity].
    apply decimal_isword in E. congruence. }
  unfold date_re. rewrite exec_Cat, exec_WordBoundary.
  assert (Hstart : xorb (word_before (MState [] (a ++ s1 :: b ++ s2 :: c ++ post) []))
                        (word_after (MState [] (a ++ s1 :: b ++ s2 :: c ++ post) []))
                   = true).
  { unfold word_before, word_after. cbn [before after].
    destruct a as [|d a']; [simpl in HL; lia|].
    inversion Fa; subst. simpl. now rewrite decimal_isword. }
  rewrite Hstart, exec_Cat, exec_Group, exec_Or.
  change (pos (MState [] (a ++ s1 :: b ++ s2 :: c ++ post) [])) with 0.
  destruct HL as [(La & Lb & Lc)|(La & Lb & Lc)].
  - rewrite (exec_date_parts 1 2 1 2 2 4 a s1 b s2 c post [] [] _
               (set_group 1 0 (length (rev c ++ s2 :: rev b ++ s1 :: rev a ++ []))
                  (MState (rev c ++ s2 :: rev b ++ s1 :: rev a ++ []) post []))
               Fa Fb Fc H1 H2 La Lb Lc Hpd); [reflexivity|].
    unfold pos. cbn [before]. now apply date_closing_boundary.
  - destruct a as [|d1 [|d2 [|d3 [|d4 [|d5 a']]]]]; simpl in La; try lia.
    inversion Fa as [|? ? D1 Fa1]; subst. inversion Fa1 as [|? ? D2 Fa2]; subst.
    inversion Fa2 as [|? ? D3 Fa3]; subst.
    cbn [app].
    rewrite (exec_date_alt1_fails d1 d2 d3 _ [] [] _ D1 D2 D3).
    change (d1 :: d2 :: d3 :: d4 :: s1 :: b ++ s2 :: c ++ post)
      with ([d1; d2; d3; d4] ++ s1 :: b ++ s2 :: c ++ post).
    assert (La4 : 4 <= length [d1; d2; d3; d4] <= 4) by (simpl; lia).
    rewrite (exec_date_parts 4 4 1 2 1 2 [d1; d2; d3; d4] s1 b s2 c post [] [] _
               (set_group 1 0
                  (length (rev c ++ s2 :: rev b ++ s1 :: rev [d1; d2; d3; d4] ++ []))
                  (MState (rev c ++ s2 :: rev b ++ s1 :: rev [d1; d2; d3; d4] ++ [])
                     post []))
               Fa Fb Fc H1 H2 La4 Lb Lc Hpd); [reflexivity|].
    unfold pos. cbn [before]. now apply date_closing_boundary.
Qed.

(** X16: round trip of the date rule.  A text that begins with a date,
    three runs of decimal digits of the lengths of one alternative with
    two separators, and goes on with no word character or ends there,
    gives that date as its date field. *)
Theorem date_at_start_is_extracted v post :
  is_date v ->
  not_started_by isword post ->
  date (extract_fields (v ++ post)) = Some v.
Proof.
  intros (a & s1 & b & s2 & c & -> & HF & H1 & H2 & HL) Hpost.
  apply Forall_app in HF. destruct HF as [Fa HF].
  apply Forall_app in HF. destruct HF as [Fb Fc].
  assert (Et : (a ++ [s1] ++ b ++ [s2] ++ c) ++ post
               = a ++ s1 :: b ++ s2 :: c ++ post).
  { now rewrite <- !app_assoc. }
  pose proof (date_match_at_start a s1 b s2 c post Fa Fb Fc H1 H2 HL Hpost) as E.
  unfold extract_fields. cbn [date]. unfold search.
  rewrite Et.
  rewrite (search_from_here date_re [] _
             (Match (a ++ s1 :: b ++ s2 :: c ++ post) 0
                (length (rev c ++ s2 :: rev b ++ s1 :: rev a ++ []))
                [(1, (0, length (rev c ++ s2 :: rev b ++ s1 :: rev a ++ [])))])).
  - unfold group. cbn [m_caps lookup Nat.eqb m_text]. f_equal.
    rewrite <- Et.
    change ((a ++ [s1] ++ b ++ [s2] ++ c) ++ post)
      with ([] ++ (a ++ [s1] ++ b ++ [s2] ++ c) ++ post).
    apply slice_mid; [reflexivity|].
    simpl. rewrite !length_app. simpl. rewrite !length_app. simpl.
    rewrite !length_app, !length_rev. simpl. lia.
  - unfold match_at. rewrite E. reflexivity.
Qed.

End DateAlone.

Lemma date_at_start_is_extracted_witness :
  date (extract_fields (py "31/02/2023: due")) = Some (py "31/02/2023").
Proof.
  apply (date_at_start_is_extracted (py "31/02/2023") (py ": due")).
  - exists (py "31"), 0x2F%N, (py "02"), 0x2F%N, (py "2023").
    split; [reflexivity|]. split.
    + repeat (constructor; [vm_compute; reflexivity|]). constructor.
    + split; [now left|]. split; [now left|]. left. simpl. lia.
  - vm_compute. reflexivity.
Defined.


(** ** An address on its own *)

Section EmailAlone.

Lemma rep_loop_class_none body p lo (k : cont) :
  (forall st k', body st k' = exec (Char p) st k') ->
  forall extra rest b cs fuel n,
    not_started_by p rest ->
    (forall e1 e2, extra = e1 ++ e2 ->
       k (MState (rev e1 ++ b) (e2 ++ rest) cs) = None) ->
    rep_loop body lo None k fuel n (MState b (extra ++ rest) cs) = None.
Proof.
  intros Hbody.
  induction extra as [|c extra IH]; intros rest b cs fuel n Hrest Hk.
  - pose proof (Hk [] [] eq_refl) as Hk0. simpl in Hk0. simpl.
    destruct fuel; simpl; [now destruct (lo <=? n)|].
    rewrite Hbody. simpl.
    destruct rest as [|c tl].
    + now destruct (lo <=? n).
    + unfold not_started_by in Hrest. rewrite Hrest. now destruct (lo <=? n).
  - pose proof (Hk [] (c :: extra) eq_refl) as Hk0. simpl in Hk0.
    destruct fuel; simpl; [now destruct (lo <=? n)|].
    rewrite Hbody. simpl.
    destruct (p c); [|now destruct (lo <=? n)].
    destruct (length (extra ++ rest) <? S (length (extra ++ rest))).
    + rewrite (IH rest (c :: b) cs fuel (S n) Hrest).
      * now destruct (lo <=? n).
      * intros e1 e2 He. specialize (Hk (c :: e1) e2).
        simpl in Hk. rewrite <- app_assoc in Hk. apply Hk. now rewrite He.
    + now destruct (lo <=? n).
Qed.

(** A repeated class gives characters back when what follows rejects
    every longer run: the match goes on after [run] when the
    continuation accepts there and rejects after every longer prefix of
    [run ++ extra]. *)
Lemma rep_loop_class_backtrack body p lo (k : cont) x extra rest cs :
  (forall st k', body st k' = exec (Char p) st k') ->
  not_started_by p rest ->
  forall run b fuel n,
    Forall (fun c => p c = true) run ->
    lo <= n + length run ->
    length run <= fuel ->
    (forall e1 e2, extra = e1 ++ e2 -> e1 <> [] ->
       k (MState (rev e1 ++ rev run ++ b) (e2 ++ rest) cs) = None) ->
    k (MState (rev run ++ b) (extra ++ rest) cs) = Some x ->
    rep_loop body lo None k fuel n (MState b (run ++ extra ++ rest) cs) = Some x.
Proof.
  intros Hbody Hrest.
  induction run as [|c run IH]; intros b fuel n Hrun Hlo Hfuel Hfail Hk.
  - simpl in *. rewrite Nat.add_0_r in Hlo.
    assert (E : (lo <=? n) = true) by (now apply Nat.leb_le).
    destruct fuel; simpl; rewrite E; [exact Hk|].
    rewrite Hbody. simpl.
    destruct extra as [|e extra'].
    + simpl. destruct rest as [|r tl]; [exact Hk|].
      unfold not_started_by in Hrest. now rewrite Hrest.
    + simpl. destruct (p e); [|exact Hk].
      destruct (length (extra' ++ rest) <? S (length (extra' ++ rest))); [|exact Hk].
      rewrite (rep_loop_class_none body p lo k Hbody extra' rest (e :: b) cs fuel (S n)
                 Hrest); [exact Hk|].
      intros e1 e2 He. specialize (Hfail (e :: e1) e2).
      simpl in Hfail. rewrite <- app_assoc in Hfail. apply Hfail.
      * now rewrite He.
      * discriminate.
  - inversion Hrun as [|? ? Hc Hrun']; subst.
    destruct fuel as [|fuel]; [simpl in Hfuel; lia|].
    simpl in Hlo, Hfuel. simpl. rewrite Hbody. simpl. rewrite Hc.
    assert (Hlt : (length (run ++ extra ++ rest) <? S (length (run ++ extra ++ rest)))
                  = true) by (apply Nat.ltb_lt; lia).
    rewrite Hlt. rewrite (IH (c :: b) fuel (S n)); auto; try lia.
    + intros e1 e2 He Hne. specialize (Hfail e1 e2 He Hne).
      simpl in Hfail. now rewrite <- app_assoc in Hfail.
    + simpl in Hk. now rewrite <- app_assoc in Hk.
Qed.

Lemma exec_plus_backtrack p lo (k : cont) x run extra rest b cs :
  Forall (fun c => p c = true) run ->
  not_started_by p rest ->
  lo <= length run ->
  (forall e1 e2, extra = e1 ++ e2 -> e1 <> [] ->
     k (MState (rev e1 ++ rev run ++ b) (e2 ++ rest) cs) = None) ->
  k (MState (rev run ++ b) (extra ++ rest) cs) = Some x ->
  exec (Repeat lo None (Char p)) (MState b (run ++ extra ++ rest) cs) k = Some x.
Proof.
  intros Hrun Hrest Hlo Hfail Hk.
  change (rep_loop (exec (Char p)) lo None k (length (run ++ extra ++ rest)) 0
            (MState b (run ++ extra ++ rest) cs) = Some x).
  apply (rep_loop_class_backtrack (exec (Char p)) p); auto.
  rewrite length_app. lia.
Qed.

Lemma exec_chr c rest b cs (k : cont) :
  exec (chr c) (MState b (c :: rest) cs) k = k (MState (c :: b) rest cs).
Proof. simpl. now rewrite N.eqb_refl. Qed.

Lemma exec_chr_fails c rest b cs (k : cont) :
  not_started_by (N.eqb c) rest -> exec (chr c) (MState b rest cs) k = None.
Proof.
  intros H. simpl. destruct rest as [|r tl]; [reflexivity|].
  unfold not_started_by in H. now rewrite H.
Qed.

Lemma alpha_domain c : alpha c = true -> email_domain c = true.
Proof.
  intros H. unfold email_domain, alnum09. now rewrite H.
Qed.

Lemma alpha_not_dot c : alpha c = true -> N.eqb 0x2E c = false.
Proof.
  intros H. destruct (N.eqb 0x2E c) eqn:E; [|reflexivity].
  apply N.eqb_eq in E. subst. vm_compute in H. discriminate.
Qed.

Lemma domain_class_dot c : email_domain c = false -> N.eqb 0x2E c = false.
Proof.
  intros H. destruct (N.eqb 0x2E c) eqn:E; [|reflexivity].
  apply N.eqb_eq in E. subst. vm_compute in H. discriminate.
Qed.

(** The match of the email rule at the start of a text that begins with
    an address and goes on with no character of the domain class. *)
Lemma email_match_at_start local domain tld post :
  local <> [] -> Forall (fun c => email_local c = true) local ->
  domain <> [] -> Forall (fun c => email_domain c = true) domain ->
  2 <= length tld -> Forall (fun c => alpha c = true) tld ->
  not_started_by email_domain post ->
  exec email_re
    (MState [] (local ++ [0x40%N] ++ domain ++ ([0x2E%N] ++ tld) ++ post) []) Some =
    Some (MState (rev tld ++ 0x2E%N :: rev domain ++ 0x40%N :: rev local ++ []) post []).
Proof.
  intros Nl Fl Nd Fd Lt Ft Hpost.
  assert (Hpa : not_started_by alpha post).
  { destruct post as [|c tl]; [exact I|]. unfold not_started_by in *.
    destruct (alpha c) eqn:E; [|reflexivity].
    apply alpha_domain in E. congruence. }
  unfold email_re. rewrite exec_Cat. unfold plus.
  apply (exec_plus_backtrack email_local 1 _ _ local []
           (0x40%N :: domain ++ ([0x2E%N] ++ tld) ++ post)).
  - exact Fl.
  - reflexivity.
  - destruct local; [contradiction | simpl; lia].
  - intros e1 e2 He Hne. destruct e1; [contradiction | discriminate].
  - cbn [app]. rewrite exec_Cat, exec_chr, exec_Cat.
    apply (exec_plus_backtrack email_domain 1 _ _ domain (0x2E%N :: tld) post).
    + exact Fd.
    + exact Hpost.
    + destruct domain; [contradiction | simpl; lia].
    + intros e1 e2 He Hne. rewrite exec_Cat. apply exec_chr_fails.
      destruct e1 as [|d e1]; [contradiction|].
      injection He as <- He.
      destruct e2 as [|l e2'].
      * simpl. destruct post as [|c tl]; [exact I|].
        unfold not_started_by in *. now apply domain_class_dot.
      * simpl. apply alpha_not_dot.
        rewrite Forall_forall in Ft. apply Ft. rewrite He.
        apply in_or_app. right. now left.
    + cbn [app]. rewrite exec_Cat, exec_chr.
      apply (exec_plus_backtrack alpha 2 _ _ tld [] post).
      * exact Ft.
      * exact Hpa.
      * exact Lt.
      * intros e1 e2 He Hne. destruct e1; [contradiction | discriminate].
      * reflexivity.
Qed.

(** X17: round trip of the email rule.  A text that begins with an
    address of the form local@domain.tld and goes on with no character
    of the domain class, or ends there, gives that address as its email
    field. *)
Theorem email_at_start_is_extracted v post :
  is_email v ->
  not_started_by email_domain post ->
  email (extract_fields (v ++ post)) = Some v.
Proof.
  intros (local & domain & tld & -> & Nl & Fl & Nd & Fd & Lt & Ft) Hpost.
  pose proof (email_match_at_start local domain tld post Nl Fl Nd Fd Lt Ft Hpost) as E.
  assert (Et : (local ++ [0x40%N] ++ domain ++ [0x2E%N] ++ tld) ++ post
               = local ++ [0x40%N] ++ domain ++ ([0x2E%N] ++ tld) ++ post).
  { now rewrite <- !app_assoc. }
  unfold extract_fields. cbn [email]. unfold search. rewrite Et.
  rewrite (search_from_here email_re [] _
             (Match (local ++ [0x40%N] ++ domain ++ ([0x2E%N] ++ tld) ++ post) 0
                (length (rev tld ++ 0x2E%N :: rev domain ++ 0x40%N :: rev local ++ []))
                [])).
  - f_equal. unfold group0. cbn [m_text m_start m_end]. rewrite <- Et.
    change ((local ++ [0x40%N] ++ domain ++ [0x2E%N] ++ tld) ++ post)
      with ([] ++ (local ++ [0x40%N] ++ domain ++ [0x2E%N] ++ tld) ++ post).
    apply slice_mid; [reflexivity|].
    simpl. rewrite !length_app. simpl. rewrite !length_app. simpl.
    rewrite !length_app, !length_rev. simpl. lia.
  - unfold match_at. rewrite E. reflexivity.
Qed.

End EmailAlone.

Lemma email_at_start_is_extracted_witness :
  email (extract_fields (py "a.b+c@mail.example.org, thanks")) =
    Some (py "a.b+c@mail.example.org").
Proof.
  apply (email_at_start_is_extracted (py "a.b+c@mail.example.org") (py ", thanks")).
  - exists (py "a.b+c"), (py "mail.example"), (py "org").
    split; [reflexivity|].
    split; [discriminate|].
    split; [repeat (constructor; [vm_compute; reflexivity|]); constructor|].
    split; [discriminate|].
    split; [repeat (constructor; [vm_compute; reflexivity|]); constructor|].
    split; [simpl; lia|].
    repeat (constructor; [vm_compute; reflexivity|]). constructor.
  - vm_compute. reflexivity.
Defined.

(** ** A labelled invoice number *)

Section InvoiceLabelled.

Lemma rep_loop_ext body lo hi :
  (forall st (k1 k2 : cont), (forall s, k1 s = k2 s) -> body st k1 = body st k2) ->
  forall fuel n st (k1 k2 : cont),
    (forall s, k1 s = k2 s) ->
    rep_loop body lo hi k1 fuel n st = rep_loop body lo hi k2 fuel n st.
Proof.
  intros Hbody. induction fuel as [|fuel IH]; intros n st k1 k2 Hk; simpl.
  - now rewrite Hk.
  - rewrite (Hk st).
    rewrite (Hbody st
               (fun st' => if length (after st') <? length (after st)
                           then rep_loop body lo hi k1 fuel (S n) st' else None)
               (fun st' => if length (after st') <? length (after st)
                           then rep_loop body lo hi k2 fuel (S n) st' else None)).
    + reflexivity.
    + intros s. destruct (length (after s) <? length (after st)); [|reflexivity].
      now apply IH.
Qed.

(** The matcher only looks at what its continuation returns. *)
Lemma exec_ext r : forall st (k1 k2 : cont),
  (forall s, k1 s = k2 s) -> exec r st k1 = exec r st k2.
Proof.
  induction r as [p| |r1 IH1 r2 IH2|r1 IH1 r2 IH2|lo hi r1 IH1|g r1 IH1|p|];
    intros st k1 k2 Hk; simpl.
  - destruct (after st) as [|c tl]; [reflexivity|]. now rewrite Hk.
  - apply Hk.
  - apply IH1. intros s. now apply IH2.
  - rewrite (IH1 st k1 k2 Hk), (IH2 st k1 k2 Hk). reflexivity.
  - apply rep_loop_ext; [exact IH1 | exact Hk].
  - apply IH1. intros s. apply Hk.
  - destruct (before st) as [|c tl]; [apply Hk|]. now rewrite Hk.
  - now rewrite Hk.
Qed.

Lemma exec_ichr c t rest b cs (k : cont) :
  exec (ichr c) (MState b (t :: rest) cs) k =
    if ieq c t then k (MState (t :: b) rest cs) else None.
Proof. reflexivity. Qed.

Lemma exec_ilit s w :
  Forall2 (fun c t => ieq c t = true) s w ->
  forall rest b cs (k : cont),
    exec (ilit s) (MState b (w ++ rest) cs) k = k (MState (rev w ++ b) rest cs).
Proof.
  induction 1 as [|c t s w Hc _ IH]; intros rest b cs k.
  - reflexivity.
  - change (ilit (c :: s)) with (Cat (ichr c) (ilit s)).
    rewrite exec_Cat. cbn [app]. rewrite exec_ichr, Hc, IH.
    simpl. now rewrite <- app_assoc.
Qed.

(** An optional part on a text that is not at its end: the part is
    tried first, and what follows must then accept after it. *)
Lemma exec_opt_unfold r st (k : cont) :
  after st <> [] ->
  exec (opt r) st k =
    match exec r st (fun st' =>
            if length (after st') <? length (after st) then k st' else None) with
    | Some m => Some m
    | None => k st
    end.
Proof.
  intros Hne. unfold opt. cbn [exec].
  destruct (length (after st)) as [|len] eqn:El.
  { destruct (after st); [contradiction | discriminate]. }
  simpl rep_loop. rewrite El.
  match goal with
  | |- match exec r st ?K with _ => _ end = _ =>
      rewrite (exec_ext r st K
                 (fun st' => if length (after st') <? S len then k st' else None))
  end.
  - reflexivity.
  - intros s. destruct (length (after s) <? S len); [|reflexivity].
    destruct len; reflexivity.
Qed.

Lemma exec_opt_take r st (k : cont) x :
  after st <> [] ->
  exec r st (fun st' =>
    if length (after st') <? length (after st) then k st' else None) = Some x ->
  exec (opt r) st k = Some x.
Proof. intros Hne H. rewrite exec_opt_unfold, H; auto. Qed.

Lemma exec_opt_skip r st (k : cont) :
  after st <> [] ->
  exec r st (fun st' =>
    if length (after st') <? length (after st) then k st' else None) = None ->
  exec (opt r) st k = k st.
Proof. intros Hne H. rewrite exec_opt_unfold, H; auto. Qed.

Lemma ieq_cases c t :
  ieq c t = true ->
  t = c \/ t = (c - 32)%N
  \/ (c = 0x69%N /\ (t = 0x130%N \/ t = 0x131%N))
  \/ (c = 0x6B%N /\ t = 0x212A%N)
  \/ (c = 0x73%N /\ t = 0x17F%N).
Proof.
  unfold ieq. rewrite !orb_true_iff, !andb_true_iff, !orb_true_iff, !N.eqb_eq.
  tauto.
Qed.

Lemma ieq_n t : ieq 0x6E t = true -> t = 0x6E%N \/ t = 0x4E%N.
Proof.
  intros H. apply ieq_cases in H.
  destruct H as [->|[->|[[E _]|[[E _]|[E _]]]]]; try discriminate E; auto.
Qed.

Lemma ieq_u_not_o t : ieq 0x75 t = true -> ieq 0x6F t = false.
Proof.
  intros H. apply ieq_cases in H.
  destruct H as [->|[->|[[E _]|[[E _]|[E _]]]]]; try discriminate E; reflexivity.
Qed.

Lemma token_not_space c : token_char c = true -> isspace c = false.
Proof.
  intros HT. destruct (isspace c) eqn:E; [|reflexivity]. exfalso.
  unfold isspace, in_ranges in E. apply existsb_exists in E.
  destruct E as (r & Hin & Hr). unfold in_range in Hr.
  rewrite andb_true_iff, !N.leb_le in Hr.
  unfold token_char, alnum09, alpha, upperAZ, loweraz, digit09, in_list, in_range in HT.
  simpl in HT.
  rewrite !orb_true_iff, !andb_true_iff, !N.leb_le, !N.eqb_eq in HT.
  simpl in Hin.
  repeat (destruct Hin as [<-|Hin]; [simpl in Hr; lia|]).
  contradiction.
Qed.

(** The labels the theorem below covers: none, "#", or "no" or
    "number" in any letter case. *)
Lemma label_not_space label ws2 r :
  (label = [] /\ ws2 = []) \/ label = [0x23%N]
  \/ Forall2 (fun c t => ieq c t = true) (py "no") label
  \/ Forall2 (fun c t => ieq c t = true) (py "number") label ->
  not_started_by isspace (label ++ ws2 ++ 0x3A%N :: r).
Proof.
  intros [[-> ->]|[->|[H|H]]]; try reflexivity.
  - change (py "no") with (0x6E%N :: py "o") in H.
    inversion H as [|? t ? ? Ht _]; subst. simpl.
    apply ieq_n in Ht. destruct Ht as [->| ->]; reflexivity.
  - change (py "number") with (0x6E%N :: py "umber") in H.
    inversion H as [|? t ? ? Ht _]; subst. simpl.
    apply ieq_n in Ht. destruct Ht as [->| ->]; reflexivity.
Qed.

Lemma ltb_app_shorter (label rest : list N) :
  label <> [] -> (length rest <? length (label ++ rest)) = true.
Proof.
  intros H. apply Nat.ltb_lt. rewrite length_app.
  destruct label; [contradiction | simpl; lia].
Qed.

(** The optional label group on one of these labels. *)
Lemma exec_label_group label ws2 r b cs (k : cont) x :
  (label = [] /\ ws2 = []) \/ label = [0x23%N]
  \/ Forall2 (fun c t => ieq c t = true) (py "no") label
  \/ Forall2 (fun c t => ieq c t = true) (py "number") label ->
  k (MState (rev label ++ b) (ws2 ++ 0x3A%N :: r) cs) = Some x ->
  exec (opt (Or (ilit (py "no")) (Or (chr 0x23) (ilit (py "number")))))
    (MState b (label ++ ws2 ++ 0x3A%N :: r) cs) k = Some x.
Proof.
  intros [[-> ->]|[->|[H|H]]] Hk.
  - simpl app in *. rewrite exec_opt_skip; [exact Hk | discriminate | reflexivity].
  - apply exec_opt_take; [discriminate|].
    cbn [after]. rewrite exec_Or.
    change (exec (ilit (py "no")) (MState b ([0x23%N] ++ ws2 ++ 0x3A%N :: r) cs))
      with (fun _ : cont => @None mstate).
    cbv beta iota. rewrite exec_Or. cbn [app]. rewrite exec_chr.
    rewrite (ltb_app_shorter [0x23%N]); [|discriminate].
    simpl in Hk. now rewrite Hk.
  - apply exec_opt_take.
    { inversion H; subst; discriminate. }
    cbn [after]. rewrite exec_Or, (exec_ilit _ _ H).
    rewrite ltb_app_shorter; [now rewrite Hk | inversion H; subst; discriminate].
  - apply exec_opt_take.
    { inversion H; subst; discriminate. }
    cbn [after]. rewrite exec_Or.
    assert (Hno : forall K : cont,
              exec (ilit (py "no")) (MState b (label ++ ws2 ++ 0x3A%N :: r) cs) K = None).
    { intros K.
      change (py "number") with (0x6E%N :: 0x75%N :: py "mber") in H.
      inversion H as [|? t1 ? l1 H1 Hr1]; subst.
      inversion Hr1 as [|? t2 ? l2 H2 _]; subst.
      change (ilit (py "no")) with (Cat (ichr 0x6E) (Cat (ichr 0x6F) Empty)).
      cbn [app]. rewrite exec_Cat, exec_ichr, H1, exec_Cat, exec_ichr.
      now rewrite (ieq_u_not_o _ H2). }
    rewrite Hno, exec_Or.
    assert (Hhash : forall K : cont,
              exec (chr 0x23) (MState b (label ++ ws2 ++ 0x3A%N :: r) cs) K = None).
    { intros K. apply exec_chr_fails.
      change (py "number") with (0x6E%N :: py "umber") in H.
      inversion H as [|? t1 ? l1 H1 _]; subst. simpl.
      apply ieq_n in H1. destruct H1 as [->| ->]; reflexivity. }
    rewrite Hhash, (exec_ilit _ _ H).
    rewrite ltb_app_shorter; [now rewrite Hk | inversion H; subst; discriminate].
Qed.

(** White space, a colon and white space before the number. *)
Lemma exec_invoice_separator ws2 ws3 token post b cs (k : cont) x :
  all_space ws2 -> all_space ws3 ->
  token <> [] -> Forall (fun c => token_char c = true) token ->
  k (MState (rev ws3 ++ 0x3A%N :: rev ws2 ++ b) (token ++ post) cs) = Some x ->
  exec (Cat (star (Char isspace))
          (Cat (opt (Char (in_list [0x3A; 0x2D]%N))) (star (Char isspace))))
    (MState b (ws2 ++ 0x3A%N :: ws3 ++ token ++ post) cs) k = Some x.
Proof.
  intros H2 H3 Hne Htok Hk.
  rewrite exec_Cat. apply exec_star_run; [exact H2 | reflexivity|].
  rewrite exec_Cat. apply exec_opt_take; [discriminate|].
  cbn [exec after]. change (in_list [0x3A; 0x2D]%N 0x3A%N) with true. cbv iota.
  cbn [before caps].
  assert (L : (length (ws3 ++ token ++ post) <? length (0x3A%N :: ws3 ++ token ++ post))
              = true) by (apply Nat.ltb_lt; simpl; lia).
  rewrite L.
  apply exec_star_run; [exact H3 | | exact Hk].
  destruct token as [|c token']; [contradiction|].
  inversion Htok; subst. simpl. now apply token_not_space.
Qed.

(** The match of the invoice rule at the start of a text made of
    "invoice", a label, a colon and a number. *)
Lemma invoice_match_at_start inv ws1 label ws2 ws3 token post :
  Forall2 (fun c t => ieq c t = true) (py "invoice") inv ->
  all_space ws1 -> all_space ws2 -> all_space ws3 ->
  (label = [] /\ ws2 = []) \/ label = [0x23%N]
  \/ Forall2 (fun c t => ieq c t = true) (py "no") label
  \/ Forall2 (fun c t => ieq c t = true) (py "number") label ->
  token <> [] -> Forall (fun c => token_char c = true) token ->
  not_started_by token_char post ->
  exec invoice_re
    (MState [] (inv ++ ws1 ++ label ++ ws2 ++ 0x3A%N :: ws3 ++ token ++ post) []) Some =
    Some (set_group 2
            (length (rev ws3 ++ 0x3A%N :: rev ws2 ++ rev label ++ rev ws1 ++ rev inv ++ []))
            (length (rev token ++ rev ws3 ++ 0x3A%N :: rev ws2 ++ rev label ++ rev ws1
                       ++ rev inv ++ []))
            (MState (rev token ++ rev ws3 ++ 0x3A%N :: rev ws2 ++ rev label ++ rev ws1
                       ++ rev inv ++ [])
               post
               [(1, (0, length (rev ws3 ++ 0x3A%N :: rev ws2 ++ rev label ++ rev ws1
                                  ++ rev inv ++ [])))])).
Proof.
  intros Hinv H1 H2 H3 Hlabel Hne Htok Hpost.
  unfold invoice_re.
  rewrite exec_Cat, exec_Group, exec_Cat, (exec_ilit _ _ Hinv), exec_Cat.
  apply exec_star_run; [exact H1 | now apply label_not_space|].
  rewrite exec_Cat. apply exec_label_group; [exact Hlabel|].
  apply exec_invoice_separator; auto.
  rewrite exec_Group. unfold plus.
  change (token ++ post) with (token ++ [] ++ post) at 1.
  apply (exec_plus_backtrack token_char 1 _ _ token [] post); auto.
  - destruct token; [contradiction | simpl; lia].
  - intros e1 e2 He Hn. destruct e1; [contradiction | discriminate].
Qed.

(** X18: round trip of the invoice rule.  A text that begins with
    "invoice" in any letter case, then white space, no label or the
    label "#", "no" or "number" in any letter case, white space, a
    colon, white space and a run of token characters, and goes on with
    no token character or ends there, gives that run as its invoice
    number.  (Without a label there is no white space to put before the
    colon other than the first run.) *)
Theorem invoice_labelled_is_extracted inv ws1 label ws2 ws3 token post :
  Forall2 (fun c t => ieq c t = true) (py "invoice") inv ->
  all_space ws1 -> all_space ws2 -> all_space ws3 ->
  (label = [] /\ ws2 = []) \/ label = [0x23%N]
  \/ Forall2 (fun c t => ieq c t = true) (py "no") label
  \/ Forall2 (fun c t => ieq c t = true) (py "number") label ->
  token <> [] -> Forall (fun c => token_char c = true) token ->
  not_started_by token_char post ->
  invoice_number
    (extract_fields (inv ++ ws1 ++ label ++ ws2 ++ 0x3A%N :: ws3 ++ token ++ post))
  = Some token.
Proof.
  intros Hinv H1 H2 H3 Hlabel Hne Htok Hpost.
  pose proof (invoice_match_at_start inv ws1 label ws2 ws3 token post
                Hinv H1 H2 H3 Hlabel Hne Htok Hpost) as E.
  unfold extract_fields. cbn [invoice_number]. unfold search.
  erewrite search_from_here;
    [| unfold match_at; rewrite E; reflexivity].
  unfold group. cbn [m_caps set_group caps lookup Nat.eqb m_text app rev]. f_equal.
  replace (inv ++ ws1 ++ label ++ ws2 ++ 0x3A%N :: ws3 ++ token ++ post)
    with ((inv ++ ws1 ++ label ++ ws2 ++ 0x3A%N :: ws3) ++ token ++ post).
  - apply slice_mid;
      repeat (first [rewrite !length_app | rewrite !length_rev
                     | progress (cbn [length])]);
      lia.
  - repeat (rewrite <- app_assoc; cbn [app]). reflexivity.
Qed.

End InvoiceLabelled.

Lemma invoice_labelled_is_extracted_witness :
  invoice_number (extract_fields (py "Invoice No: INV-2023-045, contact us"))
  = Some (py "INV-2023-045").
Proof.
  apply (invoice_labelled_is_extracted (py "Invoice") (py " ") (py "No") []
           (py " ") (py "INV-2023-045") (py ", contact us")).
  - repeat (constructor; [vm_compute; reflexivity|]). constructor.
  - repeat constructor.
  - constructor.
  - repeat constructor.
  - right. right. left. repeat (constructor; [vm_compute; reflexivity|]). constructor.
  - discriminate.
  - repeat (constructor; [vm_compute; reflexivity|]). constructor.
  - vm_compute. reflexivity.
Defined.

(** ** The label word taken as the invoice number *)

Section InvoiceLabelWord.

Lemma lstrip_app_space w s : all_space w -> lstrip (w ++ s) = lstrip s.
Proof.
  induction 1 as [|c w Hc _ IH]; simpl; [reflexivity|]. now rewrite Hc.
Qed.

Lemma separator_not_space c :
  in_list [0x3A; 0x2D]%N c = true -> isspace c = false.
Proof.
  intros H. apply in_list_In in H.
  destruct H as [<-|[<-|[]]]; vm_compute; reflexivity.
Qed.

(** [no_further_token] is false on a text where white space, an
    optional separator and white space lead to a token character. *)
Lemma token_reached s2 p s3 t r :
  all_space s2 -> all_space s3 ->
  p = [] \/ (exists c, p = [c] /\ in_list [0x3A; 0x2D]%N c = true) ->
  token_char t = true ->
  no_further_token (s2 ++ p ++ s3 ++ t :: r) = false.
Proof.
  intros H2 H3 Hp Ht. unfold no_further_token.
  rewrite (lstrip_app_space _ _ H2).
  pose proof (lstrip_keep t r (token_not_space _ Ht)) as Lt.
  destruct Hp as [-> | (c & -> & Hc)].
  - cbn [app]. rewrite (lstrip_app_space _ _ H3), Lt.
    cbn [starts_with_class]. now rewrite Ht.
  - cbn [app]. rewrite (lstrip_keep c _ (separator_not_space _ Hc)).
    cbn [starts_with_class]. rewrite Hc.
    rewrite (lstrip_app_space _ _ H3), Lt.
    cbn [starts_with_class]. rewrite Ht. apply andb_false_r.
Qed.

Lemma no_further_token_start post :
  no_further_token post = true -> not_started_by token_char post.
Proof.
  intros H. destruct post as [|c tl]; [exact I|]. simpl.
  destruct (token_char c) eqn:E; [|reflexivity].
  unfold no_further_token in H.
  rewrite (lstrip_keep c tl (token_not_space _ E)) in H.
  cbn [starts_with_class] in H. rewrite E in H. discriminate H.
Qed.

(** What the separator part of the invoice rule can read. *)
Lemma matches_separator_shape st w st' :
  matches (Cat (star (Char isspace))
     (Cat (opt (Char (in_list [0x3A; 0x2D]%N))) (star (Char isspace)))) st w st' ->
  exists s2 p s3,
    w = s2 ++ p ++ s3 /\ all_space s2 /\ all_space s3
    /\ (p = [] \/ exists c, p = [c] /\ in_list [0x3A; 0x2D]%N c = true).
Proof.
  intros (s2 & st1 & w2 & -> & H2 & (p & st2 & s3 & -> & Hp & H3)).
  apply matches_class_repeat in H2. destruct H2 as (_ & _ & H2).
  apply matches_class_repeat in H3. destruct H3 as (_ & _ & H3).
  exists s2, p, s3. repeat split; auto.
  apply matches_opt in Hp. destruct Hp as [[-> _]|Hp]; [now left|].
  right. apply matches_char in Hp. exact Hp.
Qed.

(** The separator part fails before a text with no further token, when
    what follows it needs a token character. *)
Lemma exec_separator_fails post b cs (k : cont) :
  no_further_token post = true ->
  (forall s x, k s = Some x ->
     exists t r, after s = t :: r /\ token_char t = true) ->
  exec (Cat (star (Char isspace))
     (Cat (opt (Char (in_list [0x3A; 0x2D]%N))) (star (Char isspace)))) (MState b post cs) k = None.
Proof.
  intros Hpost Hk.
  destruct (exec (Cat (star (Char isspace))
     (Cat (opt (Char (in_list [0x3A; 0x2D]%N))) (star (Char isspace)))) (MState b post cs) k) as [x|] eqn:E;
    [|reflexivity].
  exfalso. apply exec_sound in E. destruct E as (w & st' & Hm & Hx).
  destruct (matches_span _ _ _ _ Hm) as [A _]. cbn [after] in A.
  destruct (Hk _ _ Hx) as (t & r & Ha & Ht). rewrite Ha in A.
  apply matches_separator_shape in Hm.
  destruct Hm as (s2 & p & s3 & -> & H2 & H3 & Hp).
  rewrite <- !app_assoc in A.
  rewrite A, (token_reached s2 p s3 t r H2 H3 Hp Ht) in Hpost.
  discriminate Hpost.
Qed.

(** The token group starts at a token character. *)
Lemma exec_token_group_start g (f : mstate -> mstate) st x :
  after (f st) = after st ->
  exec (Group g (plus (Char token_char))) (f st) Some = Some x ->
  exists t r, after st = t :: r /\ token_char t = true.
Proof.
  intros Hf H. rewrite exec_Group in H. unfold plus in H.
  destruct (f st) as [b a cs] eqn:Ef. cbn [after] in Hf. subst a.
  apply (exec_class_accept token_char 1
           (fun st' => set_group g (pos (MState b (after st) cs)) (pos st') st')) in H.
  destruct H as (run & rest & Ha & Hrun & _ & Hlen & _).
  destruct run as [|t run]; [simpl in Hlen; lia|].
  inversion Hrun; subst. exists t, (run ++ rest). split; [exact Ha | assumption].
Qed.

(** A character that a lower-case letter of a pattern matches under
    [re.I] is a token character. *)
Lemma ieq_letter_token c t :
  loweraz c = true -> ieq c t = true -> token_char t = true.
Proof.
  intros Hc H. apply ieq_cases in H.
  unfold loweraz, in_range in Hc. rewrite andb_true_iff, !N.leb_le in Hc.
  unfold token_char, alnum09, alpha, upperAZ, loweraz, digit09, in_range.
  destruct H as [->|[->|[[_ [->| ->]]|[[_ ->]|[_ ->]]]]];
    try (vm_compute; reflexivity).
  - rewrite !orb_true_iff, !andb_true_iff, !N.leb_le. cbn [fst snd] in *.
    left. left. right. lia.
  - rewrite !orb_true_iff, !andb_true_iff, !N.leb_le. cbn [fst snd] in *.
    left. left. left. lia.
Qed.

Lemma ieq_word_tokens s : forall w,
  Forall (fun c => loweraz c = true) s -> Forall2 (fun c t => ieq c t = true) s w ->
  Forall (fun t => token_char t = true) w.
Proof.
  induction s as [|c s IH]; intros w Hs H; inversion H; subst; constructor.
  - inversion Hs; subst. eapply ieq_letter_token; eauto.
  - inversion Hs; subst. now apply IH.
Qed.

Lemma ieq_o_not_u t : ieq 0x6F t = true -> ieq 0x75 t = false.
Proof.
  intros H. apply ieq_cases in H.
  destruct H as [->|[->|[[E _]|[[E _]|[E _]]]]]; try discriminate E; reflexivity.
Qed.

Lemma label_word_shape word :
  label_word word ->
  Forall (fun t => token_char t = true) word
  /\ exists t word', word = t :: word' /\ (t = 0x6E%N \/ t = 0x4E%N).
Proof.
  intros [H|H]; split.
  - apply (ieq_word_tokens (py "no")); [|exact H].
    repeat (constructor; [vm_compute; reflexivity|]). constructor.
  - change (py "no") with (0x6E%N :: py "o") in H.
    inversion H as [|? t ? w' Ht _]; subst. exists t, w'. split; [reflexivity|].
    now apply ieq_n.
  - apply (ieq_word_tokens (py "number")); [|exact H].
    repeat (constructor; [vm_compute; reflexivity|]). constructor.
  - change (py "number") with (0x6E%N :: py "umber") in H.
    inversion H as [|? t ? w' Ht _]; subst. exists t, w'. split; [reflexivity|].
    now apply ieq_n.
Qed.

(** The label alternatives on a label word: each one that matches
    leaves [post], where the rest of the rule fails. *)
Lemma exec_label_word_fails word post b cs (k : cont) :
  label_word word ->
  (forall b', k (MState b' post cs) = None) ->
  exec (Or (ilit (py "no")) (Or (chr 0x23) (ilit (py "number")))) (MState b (word ++ post) cs) k = None.
Proof.
  intros Hword Hk.
  assert (Hhash : exec (chr 0x23) (MState b (word ++ post) cs) k = None).
  { apply exec_chr_fails.
    destruct (label_word_shape _ Hword) as (_ & t & w' & -> & [->| ->]);
      reflexivity. }
  destruct Hword as [H|H].
  - rewrite exec_Or, (exec_ilit _ _ H), Hk, exec_Or, Hhash.
    change (py "no") with (0x6E%N :: 0x6F%N :: []) in H.
    inversion H as [|? t1 ? l1 H1 Hr1]; subst.
    inversion Hr1 as [|? t2 ? l2 H2 _]; subst.
    change (ilit (py "number"))
      with (Cat (ichr 0x6E) (Cat (ichr 0x75) (ilit (py "mber")))).
    cbn [app]. rewrite exec_Cat, exec_ichr, H1, exec_Cat, exec_ichr.
    now rewrite (ieq_o_not_u _ H2).
  - rewrite exec_Or.
    assert (Hno : exec (ilit (py "no")) (MState b (word ++ post) cs) k = None).
    { change (py "number") with (0x6E%N :: 0x75%N :: py "mber") in H.
      inversion H as [|? t1 ? l1 H1 Hr1]; subst.
      inversion Hr1 as [|? t2 ? l2 H2 _]; subst.
      change (ilit (py "no")) with (Cat (ichr 0x6E) (Cat (ichr 0x6F) Empty)).
      cbn [app]. rewrite exec_Cat, exec_ichr, H1, exec_Cat, exec_ichr.
      now rewrite (ieq_u_not_o _ H2). }
    rewrite Hno, exec_Or, Hhash, (exec_ilit _ _ H). apply Hk.
Qed.

(** The match of the invoice rule at "invoice", white space and a label
    word with no further token: the label alternatives fail, the label
    group is left empty, and group 2 takes the word. *)
Lemma invoice_label_word_match b inv ws word post :
  Forall2 (fun c t => ieq c t = true) (py "invoice") inv -> all_space ws -> label_word word ->
  no_further_token post = true ->
  exec invoice_re (MState b (inv ++ ws ++ word ++ post) []) Some =
    Some (set_group 2
            (length (rev ws ++ rev inv ++ b))
            (length (rev word ++ rev ws ++ rev inv ++ b))
            (MState (rev word ++ rev ws ++ rev inv ++ b) post
               [(1, (length b, length (rev ws ++ rev inv ++ b)))])).
Proof.
  intros Hinv Hws Hword Hpost.
  destruct (label_word_shape _ Hword) as (Htok & t & word' & Ew & Ht).
  assert (Hsp : isspace t = false) by (destruct Ht as [->| ->]; reflexivity).
  assert (Hsep : in_list [0x3A; 0x2D]%N t = false)
    by (destruct Ht as [->| ->]; reflexivity).
  unfold invoice_re.
  rewrite exec_Cat, exec_Group, exec_Cat, (exec_ilit _ _ Hinv), exec_Cat.
  apply exec_star_run; [exact Hws | rewrite Ew; exact Hsp |].
  rewrite exec_Cat, exec_opt_skip.
  - rewrite exec_Cat.
    apply (exec_star_run isspace _ _ [] (word ++ post));
      [constructor | rewrite Ew; exact Hsp |].
    rewrite exec_Cat, exec_opt_skip.
    + apply (exec_star_run isspace _ _ [] (word ++ post));
        [constructor | rewrite Ew; exact Hsp |].
      rewrite exec_Group. unfold plus.
      change (word ++ post) with (word ++ [] ++ post) at 1.
      apply (exec_plus_backtrack token_char 1 _ _ word [] post).
      * exact Htok.
      * now apply no_further_token_start.
      * rewrite Ew. simpl. lia.
      * intros e1 e2 He Hn. destruct e1; [contradiction | discriminate].
      * reflexivity.
    + rewrite Ew. discriminate.
    + rewrite Ew. cbn [exec after app rev]. now rewrite Hsep.
  - rewrite Ew. discriminate.
  - apply exec_label_word_fails; [exact Hword|].
    intros b'. cbn [after].
    destruct (length post <? length (word ++ post)); [|reflexivity].
    apply exec_separator_fails; [exact Hpost|].
    intros s x Hx.
    apply (exec_token_group_start 2
             (fun s => set_group 1
                         (pos (MState b (inv ++ ws ++ word ++ post) [])) (pos s) s)
             s x); [reflexivity | exact Hx].
Qed.

(** The scan goes past a prefix in which no match starts. *)
Lemma search_from_skip r tail : forall pre b,
  unmatched_before r b pre tail = true ->
  search_from r b (pre ++ tail) = search_from r (rev pre ++ b) tail.
Proof.
  induction pre as [|c pre IH]; intros b H; [reflexivity|].
  cbn [unmatched_before] in H. cbn [app search_from].
  change (c :: pre ++ tail) with ((c :: pre) ++ tail).
  destruct (match_at r b ((c :: pre) ++ tail)); [discriminate|].
  rewrite (IH _ H). cbn [rev]. now rewrite <- app_assoc.
Qed.

Lemma app_same_length (a c b d : str) :
  length a = length c -> a ++ b = c ++ d -> a = c /\ b = d.
Proof.
  revert c. induction a as [|x a IH]; intros [|y c] L E; try discriminate L.
  - auto.
  - simpl in L, E. injection E as -> E. injection L as L.
    destruct (IH c L E) as [-> ->]. auto.
Qed.

(** The label "#" before a text with no further token: the invoice rule
    does not match at this "invoice". *)
Lemma invoice_hash_unmatched b inv ws post :
  Forall2 (fun c t => ieq c t = true) (py "invoice") inv -> all_space ws ->
  no_further_token post = true ->
  match_at invoice_re b (inv ++ ws ++ 0x23%N :: post) = None.
Proof.
  intros Hinv Hws Hpost. unfold match_at.
  destruct (exec invoice_re (MState b (inv ++ ws ++ 0x23%N :: post) []) Some)
    as [x|] eqn:E; [|reflexivity].
  exfalso. unfold invoice_re in E.
  rewrite exec_Cat in E. apply exec_sound in E. destruct E as (w1 & st1 & H1 & E).
  destruct (matches_span _ _ _ _ H1) as [A _]. cbn [after] in A.
  destruct (exec_token_group_start 2 (fun s => s) st1 x eq_refl E)
    as (t & r & Ha & Ht).
  rewrite Ha in A.
  destruct H1 as (s1 & (w7 & s7 & wr & -> & H7 & Hr) & _).
  apply matches_ilit in H7.
  destruct Hr as (sa & sta & w2 & -> & Hsa & (l & stl & w3 & -> & Hl & Hsep)).
  apply matches_class_repeat in Hsa. destruct Hsa as (_ & _ & Hsa).
  apply matches_separator_shape in Hsep.
  destruct Hsep as (s2 & p & s3 & -> & H2 & H3 & Hp).
  rewrite <- !app_assoc in A.
  assert (L : length inv = length w7).
  { rewrite <- (Forall2_length Hinv). apply (Forall2_length H7). }
  destruct (app_same_length _ _ _ _ L A) as [_ A'].
  clear A.
  apply (f_equal lstrip) in A'.
  rewrite (lstrip_app_space _ _ Hws), (lstrip_app_space _ _ Hsa) in A'.
  rewrite (lstrip_keep 0x23%N post eq_refl) in A'.
  pose proof (lstrip_keep t r (token_not_space _ Ht)) as Lt.
  apply matches_opt in Hl. destruct Hl as [[-> _]|Hl].
  - cbn [app] in A'. rewrite (lstrip_app_space _ _ H2) in A'.
    destruct Hp as [-> | (c & -> & Hc)].
    + cbn [app] in A'. rewrite (lstrip_app_space _ _ H3), Lt in A'.
      injection A' as <- _. discriminate Ht.
    + cbn [app] in A'. rewrite (lstrip_keep c _ (separator_not_space _ Hc)) in A'.
      injection A' as <- _. discriminate Hc.
  - destruct Hl as [Hl|[Hl|Hl]].
    + apply matches_ilit in Hl.
      destruct (label_word_shape l (or_introl Hl)) as (_ & t1 & l' & -> & Ht1).
      cbn [app] in A'. rewrite lstrip_keep in A'
        by (destruct Ht1 as [->| ->]; reflexivity).
      injection A' as <- _. destruct Ht1; discriminate.
    + apply matches_chr in Hl. subst l. cbn [app] in A'.
      rewrite (lstrip_keep 0x23%N _ eq_refl) in A'.
      injection A' as A'.
      rewrite A', (token_reached s2 p s3 t r H2 H3 Hp Ht) in Hpost.
      discriminate Hpost.
    + apply matches_ilit in Hl.
      destruct (label_word_shape l (or_intror Hl)) as (_ & t1 & l' & -> & Ht1).
      cbn [app] in A'. rewrite lstrip_keep in A'
        by (destruct Ht1 as [->| ->]; reflexivity).
      injection A' as <- _. destruct Ht1; discriminate.
Qed.

(** C9: a text in which "invoice", in any letter case, is followed
    after optional white space by a label, and the label by no further
    token: after optional white space, an optional colon and optional
    white space, the text does not go on with a token character.  When
    the label is the word "no" or "number", in any letter case, and the
    invoice rule matches at no earlier position of the text, the
    invoice number is the label word itself.  When the label is "#",
    which is not a token character, the rule does not match at this
    "invoice". *)
Theorem invoice_label_word_captured pre inv ws post :
  Forall2 (fun c t => ieq c t = true) (py "invoice") inv ->
  all_space ws ->
  no_further_token post = true ->
  (forall word,
     label_word word ->
     unmatched_before invoice_re [] pre (inv ++ ws ++ word ++ post) = true ->
     invoice_number (extract_fields (pre ++ inv ++ ws ++ word ++ post)) = Some word)
  /\ match_at invoice_re (rev pre) (inv ++ ws ++ 0x23%N :: post) = None.
Proof.
  intros Hinv Hws Hpost. split; [|now apply invoice_hash_unmatched].
  intros word Hword Hpre.
  pose proof (invoice_label_word_match (rev pre) inv ws word post
                Hinv Hws Hword Hpost) as E.
  unfold extract_fields. cbn [invoice_number]. unfold search.
  rewrite (search_from_skip _ _ _ _ Hpre), app_nil_r.
  erewrite search_from_here;
    [| unfold match_at; rewrite E; reflexivity].
  unfold group. cbn [m_caps set_group caps lookup Nat.eqb m_text]. f_equal.
  rewrite rev_involutive.
  replace (pre ++ inv ++ ws ++ word ++ post)
    with ((pre ++ inv ++ ws) ++ word ++ post)
    by (now rewrite <- !app_assoc).
  apply slice_mid;
    repeat (first [rewrite !length_app | rewrite !length_rev
                   | progress (cbn [length])]);
    lia.
Qed.

(** A prefix without a character that matches "i" under [re.I] holds no
    start of a match of the invoice rule. *)
Lemma unmatched_before_invoice tail : forall pre b,
  Forall (fun c => ieq 0x69 c = false) pre ->
  unmatched_before invoice_re b pre tail = true.
Proof.
  induction pre as [|c pre IH]; intros b H; [reflexivity|].
  inversion H as [|? ? Hc Hpre]; subst.
  cbn [unmatched_before].
  assert (E : match_at invoice_re b ((c :: pre) ++ tail) = None).
  { unfold match_at, invoice_re.
    rewrite exec_Cat, exec_Group, exec_Cat.
    change (ilit (py "invoice")) with (Cat (ichr 0x69) (ilit (py "nvoice"))).
    cbn [app]. now rewrite exec_Cat, exec_ichr, Hc. }
  rewrite E. now apply IH.
Qed.

End InvoiceLabelWord.

Lemma invoice_label_word_captured_witness :
  invoice_number (extract_fields (py "see Invoice  number. Thanks -"))
  = Some (py "number")
  /\ match_at invoice_re (rev (py "see ")) (py "Invoice  #. Thanks -") = None.
Proof.
  assert (Hinv : Forall2 (fun c t => ieq c t = true) (py "invoice") (py "Invoice"))
    by (repeat (constructor; [vm_compute; reflexivity|]); constructor).
  assert (Hws : all_space (py "  ")) by (repeat constructor).
  assert (Hpost : no_further_token (py ". Thanks -") = true)
    by (vm_compute; reflexivity).
  destruct (invoice_label_word_captured (py "see ") (py "Invoice") (py "  ")
              (py ". Thanks -") Hinv Hws Hpost) as [Hword Hhash].
  split; [|exact Hhash].
  apply (Hword (py "number")).
  - right. repeat (constructor; [vm_compute; reflexivity|]). constructor.
  - vm_compute. reflexivity.
Defined.

(** C9, as stated, fails for the label "#": on "invoice #" the label is
    followed by no further token, and the label is not captured, no
    invoice number is set. *)
Lemma invoice_hash_counterexample :
  invoice_number (extract_fields (py "invoice #")) = None
  /\ invoice_number (extract_fields (py "invoice #")) <> Some (py "#").
Proof. split; [vm_compute; reflexivity | vm_compute; discriminate]. Qed.

Lemma invoice_number_full_stop :
  invoice_number (extract_fields (py "invoice number.")) = Some (py "number").
Proof. vm_compute. reflexivity. Qed.

Lemma invoice_no_after_text :
  invoice_number (extract_fields (py "see INVOICE No : ")) = Some (py "No").
Proof. vm_compute. reflexivity. Qed.

(** A hyphen after the label word is a token character, and is taken. *)
Lemma invoice_number_hyphen :
  no_further_token (py " -") = false
  /\ invoice_number (extract_fields (py "invoice number -")) = Some (py "-").
Proof. split; vm_compute; reflexivity. Qed.
